(** * SANA-FE simulation kernel: pipeline engine and NoC scheduler

    A shallow embedding of [src/src/schedule.cpp] (the density based NoC
    scheduler) and of [src/pipeline.cpp] (the per-core neuron and message
    pipeline), together with the properties of the kernel that the
    specification states about them.

    Conventions of the embedding.
    - A C++ [double] is a rational number ([Q]); rounding, NaN and the
      infinities are outside the model, and comparisons of doubles are
      comparisons of rationals.  Equality of doubles is [Qeq] ([==]).
    - [int], [long] and [size_t] values are integers ([Z]); signed overflow
      is undefined in C++ and does not arise in the model; the one unsigned
      product the scheduler forms ([path_capacity]) wraps modulo 2^64.
    - A [std::vector] or [std::list] is a [list]; a reference or pointer to
      an element of a container is the position of the element. *)

From Stdlib Require Import ZArith QArith Qabs Qfield Lqa Lia Bool String.
From stdpp Require Import base list.

Local Open Scope Z_scope.

(** ** Doubles *)

Definition fmax (a b : Q) : Q := if Qle_bool a b then b else a.

(** [a > b] on doubles. *)
Definition Qgt_bool (a b : Q) : bool := negb (Qle_bool a b).

(** [a != 0.0] on doubles. *)
Definition Qnonzero (a : Q) : bool := negb (Qeq_bool a 0).

Definition Qsum (l : list Q) : Q := foldr Qplus 0%Q l.

(** ** The C loop [for (int v = a; v != b; v += inc)] with [inc] equal to
    [1] when [a < b] and to [-1] otherwise: the values [v] takes in the
    body, in order.  The loop of the source always terminates, after
    [|b - a|] rounds. *)

Definition increment (a b : Z) : Z := if a <? b then 1 else -1.

Definition loop_values (a b : Z) : list Z :=
  (fun k : nat => a + increment a b * Z.of_nat k) <$> seq 0 (Z.to_nat (Z.abs (b - a))).

(** ** Messages (struct Message, chip.hpp) *)

Record Message := mkMessage {
  generation_delay : Q;
  network_delay : Q;
  receive_delay : Q;
  blocked_delay : Q;
  sent_timestamp : Q;
  received_timestamp : Q;
  processed_timestamp : Q;
  timestep : Z;
  spikes : Z;
  hops : Z;
  src_neuron_id : Z;
  src_neuron_group_id : string;
  src_x : Z;
  dest_x : Z;
  src_y : Z;
  dest_y : Z;
  src_tile_id : Z;
  src_core_id : Z;
  src_core_offset : Z;
  dest_tile_id : Z;
  dest_core_id : Z;
  dest_core_offset : Z;
  dest_axon_hw : Z;
  dest_axon_id : Z;
  placeholder : bool;
  in_noc : bool
}.

Definition set_generation_delay (v : Q) (m : Message) : Message :=
  mkMessage v (network_delay m) (receive_delay m) (blocked_delay m)
    (sent_timestamp m) (received_timestamp m) (processed_timestamp m)
    (timestep m) (spikes m) (hops m) (src_neuron_id m) (src_neuron_group_id m)
    (src_x m) (dest_x m) (src_y m) (dest_y m) (src_tile_id m) (src_core_id m)
    (src_core_offset m) (dest_tile_id m) (dest_core_id m) (dest_core_offset m)
    (dest_axon_hw m) (dest_axon_id m) (placeholder m) (in_noc m).

Definition set_receive_delay (v : Q) (m : Message) : Message :=
  mkMessage (generation_delay m) (network_delay m) v (blocked_delay m)
    (sent_timestamp m) (received_timestamp m) (processed_timestamp m)
    (timestep m) (spikes m) (hops m) (src_neuron_id m) (src_neuron_group_id m)
    (src_x m) (dest_x m) (src_y m) (dest_y m) (src_tile_id m) (src_core_id m)
    (src_core_offset m) (dest_tile_id m) (dest_core_id m) (dest_core_offset m)
    (dest_axon_hw m) (dest_axon_id m) (placeholder m) (in_noc m).

Definition set_sent_timestamp (v : Q) (m : Message) : Message :=
  mkMessage (generation_delay m) (network_delay m) (receive_delay m) (blocked_delay m)
    v (received_timestamp m) (processed_timestamp m)
    (timestep m) (spikes m) (hops m) (src_neuron_id m) (src_neuron_group_id m)
    (src_x m) (dest_x m) (src_y m) (dest_y m) (src_tile_id m) (src_core_id m)
    (src_core_offset m) (dest_tile_id m) (dest_core_id m) (dest_core_offset m)
    (dest_axon_hw m) (dest_axon_id m) (placeholder m) (in_noc m).

Definition set_received_timestamp (v : Q) (m : Message) : Message :=
  mkMessage (generation_delay m) (network_delay m) (receive_delay m) (blocked_delay m)
    (sent_timestamp m) v (processed_timestamp m)
    (timestep m) (spikes m) (hops m) (src_neuron_id m) (src_neuron_group_id m)
    (src_x m) (dest_x m) (src_y m) (dest_y m) (src_tile_id m) (src_core_id m)
    (src_core_offset m) (dest_tile_id m) (dest_core_id m) (dest_core_offset m)
    (dest_axon_hw m) (dest_axon_id m) (placeholder m) (in_noc m).

Definition set_processed_timestamp (v : Q) (m : Message) : Message :=
  mkMessage (generation_delay m) (network_delay m) (receive_delay m) (blocked_delay m)
    (sent_timestamp m) (received_timestamp m) v
    (timestep m) (spikes m) (hops m) (src_neuron_id m) (src_neuron_group_id m)
    (src_x m) (dest_x m) (src_y m) (dest_y m) (src_tile_id m) (src_core_id m)
    (src_core_offset m) (dest_tile_id m) (dest_core_id m) (dest_core_offset m)
    (dest_axon_hw m) (dest_axon_id m) (placeholder m) (in_noc m).

Definition set_in_noc (v : bool) (m : Message) : Message :=
  mkMessage (generation_delay m) (network_delay m) (receive_delay m) (blocked_delay m)
    (sent_timestamp m) (received_timestamp m) (processed_timestamp m)
    (timestep m) (spikes m) (hops m) (src_neuron_id m) (src_neuron_group_id m)
    (src_x m) (dest_x m) (src_y m) (dest_y m) (src_tile_id m) (src_core_id m)
    (src_core_offset m) (dest_tile_id m) (dest_core_id m) (dest_core_offset m)
    (dest_axon_hw m) (dest_axon_id m) (placeholder m) v.

(** ** The per-timestep message container

    [std::vector<std::list<Message>>], indexed by source core.  The
    scheduler keeps [std::reference_wrapper<Message>]s into it: a reference
    is the pair of the core and the position in the core's list, and every
    write through a reference is a write to the container. *)

Abbreviation MessageRef := (nat * nat)%type (only parsing).

Abbreviation Messages := (list (list Message)) (only parsing).

Definition deref (ms : Messages) (r : MessageRef) : option Message :=
  match ms !! r.1 with
  | Some q => q !! r.2
  | None => None
  end.

Definition assign (ms : Messages) (r : MessageRef) (f : Message -> Message) : Messages :=
  alter (alter f r.2) r.1 ms.

(** ** The network on chip (struct NocInfo and struct Scheduler)

    [schedule.hpp] and [arch.hpp] are not among the sources. *)

(** Modelled from the spec: the link directions of a router, missing with
    [arch.hpp]; the spec (3, Mesh) names them in the order north, east,
    south, west and writes the intra-tile link of a core as
    [ndirections + core offset]. *)
Definition ndirections : Z := 4.
Definition north : Z := 0.
Definition east : Z := 1.
Definition south : Z := 2.
Definition west : Z := 3.

Record NocInfo := mkNocInfo {
  noc_width : Z;
  noc_height : Z;
  core_count : nat;
  max_cores_per_tile : Z;
  message_density : list Q;
  messages_received : list (list MessageRef);
  core_finished_receiving : list Q;
  mean_in_flight_receive_delay : Q;
  messages_in_noc : Z
}.

Record Scheduler := mkScheduler {
  sched_noc_width : Z;
  sched_noc_height : Z;
  sched_core_count : nat;
  sched_max_cores_per_tile : Z;
  buffer_size : Z
}.

Definition set_message_density (d : list Q) (noc : NocInfo) : NocInfo :=
  mkNocInfo (noc_width noc) (noc_height noc) (core_count noc) (max_cores_per_tile noc)
    d (messages_received noc) (core_finished_receiving noc)
    (mean_in_flight_receive_delay noc) (messages_in_noc noc).

Definition set_messages_received (qs : list (list MessageRef)) (noc : NocInfo) : NocInfo :=
  mkNocInfo (noc_width noc) (noc_height noc) (core_count noc) (max_cores_per_tile noc)
    (message_density noc) qs (core_finished_receiving noc)
    (mean_in_flight_receive_delay noc) (messages_in_noc noc).

Definition set_core_finished_receiving (l : list Q) (noc : NocInfo) : NocInfo :=
  mkNocInfo (noc_width noc) (noc_height noc) (core_count noc) (max_cores_per_tile noc)
    (message_density noc) (messages_received noc) l
    (mean_in_flight_receive_delay noc) (messages_in_noc noc).

Definition set_in_flight (mean : Q) (count : Z) (noc : NocInfo) : NocInfo :=
  mkNocInfo (noc_width noc) (noc_height noc) (core_count noc) (max_cores_per_tile noc)
    (message_density noc) (messages_received noc) (core_finished_receiving noc)
    mean count.

(** [v[i]] and [v[i] += a] on a [std::vector<double>].  An index out of
    range is undefined behaviour in the source; the model reads [0] and
    writes nothing there. *)
Definition vec_get (v : list Q) (i : nat) : Q := default 0%Q (v !! i).
Definition vec_add (a : Q) (i : nat) (v : list Q) : list Q := alter (fun d => (d + a)%Q) i v.

Definition size_t_modulus : Z := 2 ^ 64.

Section Scheduler.

(** [NocInfo::idx(x, y, link)], declared in the missing [schedule.hpp]:
    the position of link [link] of the router at [(x, y)] in the density
    vector, given the mesh dimensions and [max_cores_per_tile].  It is a
    parameter of the development. *)
Variable idx : Z -> Z -> Z -> Z -> Z -> Z -> nat.

Definition noc_idx (noc : NocInfo) (x y link : Z) : nat :=
  idx (noc_width noc) (noc_height noc) (max_cores_per_tile noc) x y link.

(** *** schedule_update_noc_message_counts *)

(** The state of the two route loops: the density vector and
    [prev_direction]. *)
Definition counts_x_body (m : Message) (noc : NocInfo) (adjust : Q)
    (s : list Q * Z) (x : Z) : list Q * Z :=
  let direction := if 0 <? increment (src_x m) (dest_x m) then east else west in
  let d :=
    if x =? src_x m
    then vec_add adjust (noc_idx noc x (src_y m) (ndirections + src_core_offset m)) s.1
    else vec_add adjust (noc_idx noc x (src_y m) direction) s.1 in
  (d, direction).

Definition counts_y_body (m : Message) (noc : NocInfo) (adjust : Q)
    (s : list Q * Z) (y : Z) : list Q * Z :=
  let direction := if 0 <? increment (src_y m) (dest_y m) then north else south in
  let d :=
    if (src_x m =? dest_x m) && (y =? src_y m)
    then vec_add adjust (noc_idx noc (dest_x m) y (ndirections + src_core_offset m)) s.1
    else vec_add adjust (noc_idx noc (dest_x m) y s.2) s.1 in
  (d, direction).

Definition counts_last (m : Message) (noc : NocInfo) (adjust : Q)
    (s : list Q * Z) : list Q :=
  if (src_x m =? dest_x m) && (src_y m =? dest_y m)
  then vec_add adjust (noc_idx noc (dest_x m) (dest_y m) (ndirections + src_core_offset m)) s.1
  else vec_add adjust (noc_idx noc (dest_x m) (dest_y m) s.2) s.1.

Definition density_adjust (m : Message) (message_in : bool) : Q :=
  let adjust := (1 / (2 + inject_Z (hops m)))%Q in
  if message_in then adjust else (adjust * -1)%Q.

Definition update_density (m : Message) (noc : NocInfo) (message_in : bool) : list Q :=
  let adjust := density_adjust m message_in in
  let s0 := (message_density noc, ndirections + src_core_offset m) in
  let s1 := foldl (counts_x_body m noc adjust) s0 (loop_values (src_x m) (dest_x m)) in
  let s2 := foldl (counts_y_body m noc adjust) s1 (loop_values (src_y m) (dest_y m)) in
  counts_last m noc adjust s2.

Definition schedule_update_noc_message_counts (m : Message) (noc : NocInfo)
    (message_in : bool) : NocInfo :=
  let noc1 := set_message_density (update_density m noc message_in) noc in
  let mean := mean_in_flight_receive_delay noc1 in
  let n := messages_in_noc noc1 in
  if message_in
  then set_in_flight (mean + (receive_delay m - mean) / (inject_Z n + 1))%Q (n + 1) noc1
  else if 1 <? n
       then set_in_flight (mean + (mean - receive_delay m) / (inject_Z n - 1))%Q (n - 1) noc1
       else set_in_flight 0%Q (n - 1) noc1.

(** *** schedule_calculate_messages_along_route *)

(** The state of the two route loops: [flow_density] and
    [prev_direction]. *)
Definition route_x_body (m : Message) (noc : NocInfo) (s : Q * Z) (x : Z) : Q * Z :=
  let direction := if 0 <? increment (src_x m) (dest_x m) then east else west in
  let f :=
    if x =? src_x m
    then (s.1 + vec_get (message_density noc)
                  (noc_idx noc x (src_y m) (ndirections + src_core_offset m)))%Q
    else (s.1 + vec_get (message_density noc) (noc_idx noc x (src_y m) direction))%Q in
  (f, direction).

Definition route_y_body (m : Message) (noc : NocInfo) (s : Q * Z) (y : Z) : Q * Z :=
  let direction := if 0 <? increment (src_y m) (dest_y m) then north else south in
  let f :=
    if (src_x m =? dest_x m) && (y =? src_y m)
    then (s.1 + vec_get (message_density noc)
                  (noc_idx noc (dest_x m) y (ndirections + src_core_offset m)))%Q
    else (s.1 + vec_get (message_density noc) (noc_idx noc (dest_x m) y s.2))%Q in
  (f, direction).

(** The assertion [flow_density >= -epsilon] of the source is compiled
    out under NDEBUG and is not part of the result. *)
Definition schedule_calculate_messages_along_route (m : Message) (noc : NocInfo) : Q :=
  let s0 := (0%Q, ndirections + src_core_offset m) in
  let s1 := foldl (route_x_body m noc) s0 (loop_values (src_x m) (dest_x m)) in
  let s2 := foldl (route_y_body m noc) s1 (loop_values (src_y m) (dest_y m)) in
  if (src_x m =? dest_x m) && (src_y m =? dest_y m)
  then (s2.1 + vec_get (message_density noc)
                 (noc_idx noc (dest_x m) (dest_y m) (ndirections + src_core_offset m)))%Q
  else (s2.1 + vec_get (message_density noc) (noc_idx noc (dest_x m) (dest_y m) s2.2))%Q.

(** *** schedule_update_noc

    Every queue of [noc.messages_received] is walked once; a message
    that is in the NoC and received by time [t] has [in_noc] cleared in
    the container, its density taken back, and its reference erased. *)
Fixpoint update_noc_queue (t : Q) (q : list MessageRef) (ms : Messages) (noc : NocInfo)
    : list MessageRef * Messages * NocInfo :=
  match q with
  | [] => ([], ms, noc)
  | r :: q' =>
      match deref ms r with
      | Some m =>
          if in_noc m && Qle_bool (received_timestamp m) t
          then update_noc_queue t q' (assign ms r (set_in_noc false))
                 (schedule_update_noc_message_counts (set_in_noc false m) noc false)
          else let '(kept, ms', noc') := update_noc_queue t q' ms noc in
               (r :: kept, ms', noc')
      | None =>
          let '(kept, ms', noc') := update_noc_queue t q' ms noc in
          (r :: kept, ms', noc')
      end
  end.

Fixpoint update_noc_queues (t : Q) (qs : list (list MessageRef)) (ms : Messages)
    (noc : NocInfo) : list (list MessageRef) * Messages * NocInfo :=
  match qs with
  | [] => ([], ms, noc)
  | q :: qs' =>
      let '(q1, ms1, noc1) := update_noc_queue t q ms noc in
      let '(qs2, ms2, noc2) := update_noc_queues t qs' ms1 noc1 in
      (q1 :: qs2, ms2, noc2)
  end.

Definition schedule_update_noc (t : Q) (ms : Messages) (noc : NocInfo) : Messages * NocInfo :=
  let '(qs, ms', noc') := update_noc_queues t (messages_received noc) ms noc in
  (ms', set_messages_received qs noc').

(** *** The priority queue *)

Definition sent_of (ms : Messages) (r : MessageRef) : Q :=
  match deref ms r with
  | Some m => sent_timestamp m
  | None => 0%Q
  end.

(** Modelled from the spec: [MessagePriorityQueue], declared in the missing
    [schedule.hpp]: a min-heap of message references keyed by
    [sent_timestamp], ties broken by insertion order (4.5.3, 4.5.6).  The
    queue is the list of its references in insertion order; [pq_top] is
    the earliest inserted reference among those of least
    [sent_timestamp]. *)
Fixpoint pq_min (ms : Messages) (best : MessageRef) (rest : list MessageRef) : MessageRef :=
  match rest with
  | [] => best
  | r :: rest' =>
      if Qgt_bool (sent_of ms best) (sent_of ms r)
      then pq_min ms r rest'
      else pq_min ms best rest'
  end.

Definition pq_top (ms : Messages) (pq : list MessageRef) : option MessageRef :=
  match pq with
  | [] => None
  | r :: rest => Some (pq_min ms r rest)
  end.

Fixpoint pq_remove (r : MessageRef) (pq : list MessageRef) : list MessageRef :=
  match pq with
  | [] => []
  | r' :: rest => if decide (r' = r) then rest else r' :: pq_remove r rest
  end.

Definition pq_push (r : MessageRef) (pq : list MessageRef) : list MessageRef := pq ++ [r].

(** *** schedule_init_timing_priority

    The first message of every non-empty per-core queue is taken off the
    queue, stamped with its generation delay and pushed. *)
Fixpoint schedule_init_timing_priority (qs : list (list MessageRef)) (ms : Messages)
    (priority : list MessageRef)
    : list MessageRef * list (list MessageRef) * Messages :=
  match qs with
  | [] => (priority, [], ms)
  | q :: qs' =>
      match q with
      | r :: q' =>
          let ms1 := assign ms r (fun m => set_sent_timestamp (generation_delay m) m) in
          let '(p, qs2, ms2) := schedule_init_timing_priority qs' ms1 (pq_push r priority) in
          (p, q' :: qs2, ms2)
      | [] =>
          let '(p, qs2, ms2) := schedule_init_timing_priority qs' ms priority in
          (p, [] :: qs2, ms2)
      end
  end.

(** *** schedule_messages *)

Record SchedState := mkSchedState {
  st_messages : Messages;
  st_sent_per_core : list (list MessageRef);
  st_priority : list MessageRef;
  st_noc : NocInfo;
  st_last_timestamp : Q
}.

(** [messages_sent_per_core]: [core_count] queues, the queue of core [c]
    holding references to the messages of [messages[c]] in order.  The
    source writes past the end of the vector when [messages] has more
    than [core_count] entries; those entries are left out here. *)
Definition refs_of_core (ms : Messages) (c : nat) : list MessageRef :=
  (fun p : nat => (c, p)) <$> seq 0 (length (default [] (ms !! c))).

Definition messages_sent_per_core (ms : Messages) (count : nat) : list (list MessageRef) :=
  refs_of_core ms <$> seq 0 count.

(** The initial values of [mean_in_flight_receive_delay] and
    [messages_in_noc] are member initialisers of the missing
    [schedule.hpp]; they are zero, as [sim_schedule_messages] of [sim.c]
    sets them before its loop. *)
Definition noc_init (scheduler : Scheduler) : NocInfo :=
  let total_links :=
    sched_noc_height scheduler * sched_noc_width scheduler *
    (ndirections + sched_max_cores_per_tile scheduler) in
  mkNocInfo (sched_noc_width scheduler) (sched_noc_height scheduler)
    (sched_core_count scheduler) (sched_max_cores_per_tile scheduler)
    (replicate (Z.to_nat total_links) 0%Q)
    (replicate (sched_core_count scheduler) [])
    (replicate (sched_core_count scheduler) 0%Q)
    0%Q 0.

Definition path_capacity (scheduler : Scheduler) (m : Message) : Z :=
  ((hops m + 1) * buffer_size scheduler) mod size_t_modulus.

(** The body of [if (!m.placeholder)]: [m] is the message under the
    reference [r], read after [schedule_update_noc]; the result is the
    message as the body leaves it, the NoC and [last_timestamp]. *)
Definition schedule_send (scheduler : Scheduler) (r : MessageRef) (m : Message)
    (noc : NocInfo) (last : Q) : Message * NocInfo * Q :=
  let dest_core := Z.to_nat (dest_core_id m) in
  let messages_along_route := schedule_calculate_messages_along_route m noc in
  let capacity := inject_Z (path_capacity scheduler m) in
  let m1 :=
    if Qgt_bool messages_along_route capacity
    then set_sent_timestamp
           (sent_timestamp m +
            (messages_along_route - capacity) * mean_in_flight_receive_delay noc)%Q m
    else m in
  let m2 := set_in_noc true m1 in
  let noc1 :=
    set_messages_received (alter (fun q => q ++ [r]) dest_core (messages_received noc)) noc in
  let noc2 := schedule_update_noc_message_counts m2 noc1 true in
  let delay :=
    (messages_along_route * mean_in_flight_receive_delay noc2 /
     (inject_Z (hops m2) + 1))%Q in
  let earliest_received_time :=
    (sent_timestamp m2 + fmax (network_delay m2) delay)%Q in
  let finished := vec_get (core_finished_receiving noc2) dest_core in
  let m3 := set_received_timestamp (fmax finished earliest_received_time) m2 in
  let noc3 :=
    set_core_finished_receiving
      (<[dest_core :=
           fmax (finished + receive_delay m3) (earliest_received_time + receive_delay m3)%Q]>
         (core_finished_receiving noc2)) noc2 in
  let m4 := set_processed_timestamp (vec_get (core_finished_receiving noc3) dest_core) m3 in
  (m4, noc3, fmax last (processed_timestamp m4)).

(** One round of the [while (!priority.empty())] loop.  [None] stands
    for a reference that names no message of the container; the
    scheduler never holds one (see [schedule_messages_total]). *)
Definition schedule_step (scheduler : Scheduler) (st : SchedState) : option SchedState :=
  r ← pq_top (st_messages st) (st_priority st);
  m0 ← deref (st_messages st) r;
  let priority1 := pq_remove r (st_priority st) in
  let last1 := fmax (st_last_timestamp st) (sent_timestamp m0) in
  let '(ms1, noc1) := schedule_update_noc (sent_timestamp m0) (st_messages st) (st_noc st) in
  m ← deref ms1 r;
  let '(m', noc2, last2) :=
    if placeholder m then (m, noc1, last1) else schedule_send scheduler r m noc1 last1 in
  let ms2 := assign ms1 r (fun _ => m') in
  let src_core := Z.to_nat (src_core_id m') in
  match st_sent_per_core st !! src_core with
  | Some (next :: q') =>
      next_message ← deref ms2 next;
      let sent := (sent_timestamp m' + generation_delay next_message)%Q in
      Some (mkSchedState
              (assign ms2 next (set_sent_timestamp sent))
              (<[src_core := q']> (st_sent_per_core st))
              (pq_push next priority1)
              noc2
              (fmax last2 sent))
  | _ => Some (mkSchedState ms2 (st_sent_per_core st) priority1 noc2 last2)
  end.

Fixpoint schedule_loop (scheduler : Scheduler) (fuel : nat) (st : SchedState)
    : option SchedState :=
  match st_priority st with
  | [] => Some st
  | _ :: _ =>
      match fuel with
      | O => None
      | S fuel' =>
          st' ← schedule_step scheduler st;
          schedule_loop scheduler fuel' st'
      end
  end.

Definition schedule_start (ms : Messages) (scheduler : Scheduler) : SchedState :=
  let noc := noc_init scheduler in
  let '(priority, queues, ms1) :=
    schedule_init_timing_priority (messages_sent_per_core ms (core_count noc)) ms [] in
  mkSchedState ms1 queues priority noc 0%Q.

(** The references the scheduler still has to take off the priority
    queue: those in the queue and those in the per-core queues. *)
Definition pending (st : SchedState) : list MessageRef :=
  st_priority st ++ concat (st_sent_per_core st).

(** [schedule_messages]: the returned timestamp and the container as the
    scheduler leaves it.  Every round of the loop takes one reference
    off [pending], so as many rounds as it has references at the start
    are enough (see [schedule_messages_total]). *)
Definition schedule_messages (ms : Messages) (scheduler : Scheduler)
    : option (Q * Messages) :=
  let start := schedule_start ms scheduler in
  st ← schedule_loop scheduler (length (pending start)) start;
  Some (st_last_timestamp st, st_messages st).

End Scheduler.

(** ** The pipeline engine (pipeline.cpp) *)

Inductive NeuronStatus := INVALID_NEURON_STATE | IDLE | UPDATED | FIRED.

(** Modelled from the spec: the enumerators of [enum BufferPosition : int],
    declared in the missing [arch.hpp]; the spec (4.3) lists the three
    positions in pipeline order, and [pipeline_process_neuron] compares
    them with [<=]. *)
Definition BufferPosition : Type := Z.
Definition BUFFER_BEFORE_DENDRITE_UNIT : BufferPosition := 0.
Definition BUFFER_BEFORE_SOMA_UNIT : BufferPosition := 1.
Definition BUFFER_BEFORE_AXON_OUT_UNIT : BufferPosition := 2.

(** [pipeline_parse_buffer_pos_str]; [None] is the [std::invalid_argument]
    the source throws. *)
Definition pipeline_parse_buffer_pos_str (buffer_pos_str : string) : option BufferPosition :=
  if String.eqb buffer_pos_str "dendrite" then Some BUFFER_BEFORE_DENDRITE_UNIT
  else if String.eqb buffer_pos_str "soma" then Some BUFFER_BEFORE_SOMA_UNIT
  else if String.eqb buffer_pos_str "axon_out" then Some BUFFER_BEFORE_AXON_OUT_UNIT
  else None.

(** [abs_diff] on [size_t]. *)
Definition abs_diff (a b : Z) : Z := if b <? a then a - b else b - a.

(** The hardware units of a core, with the fields [pipeline.cpp] reads
    and writes. *)
Record AxonInUnit := mkAxonInUnit {
  spike_messages_in : Z;
  latency_spike_message : Q
}.

Record SynapseUnit := mkSynapseUnit {
  spikes_processed : Z;
  latency_spike_op : Q
}.

Record SomaUnit := mkSomaUnit {
  neuron_updates : Z;
  neurons_fired : Z;
  latency_access_neuron : Q;
  latency_update_neuron : Q;
  latency_spiking : Q
}.

Record AxonOutUnit := mkAxonOutUnit {
  packets_out : Z;
  latency_access : Q
}.

(** The pipeline stops on a failed [assert] and on an access the source
    does not guard (a null or dangling pointer, an index past the end of a
    vector), which is undefined behaviour in C++. *)
Inductive Fault :=
  | assert_dest_axon_id
  | assert_dest_axon_hw
  | assert_synapse_hw
  | assert_buffer_pos
  | invalid_access.

Inductive Result (A : Type) :=
  | Ok (a : A)
  | Abort (f : Fault).
Arguments Ok {A} a.
Arguments Abort {A} f.

(** The functions of the pipeline that stand for a hardware unit. *)
Inductive HwUnit := AxonInU | SynapseU | DendriteU | SomaU | AxonOutU.

(** The log of the pipeline: one [UnitCall] for every call of
    [pipeline_process_axon_in], [_synapse], [_dendrite], [_soma] and
    [_axon_out], made when the call returns, with the neuron (or, for
    the synapse and axon-in units, the synapse address or axon) it is
    on and the latency it returns; one [SomaModelUpdate] for every call
    of [soma_model->update], with its argument. *)
Inductive Event :=
  | UnitCall (u : HwUnit) (subject : Z) (latency : Q)
  | SomaModelUpdate (neuron : Z) (current_in : option Q).

Section Pipeline.

(** The neuron, dendrite and synapse models are plugins behind
    [soma_model], [dendrite_model] and [synapse_model]; a model is its
    state, and its [update] methods are parameters. *)
Context {SomaModel DendriteModel SynapseModel DendriteParams : Type}.

Record Synapse := mkSynapse {
  current : Q;
  dendrite_params : DendriteParams
}.

(** [soma_model->update(current_in)]. *)
Variable soma_update : SomaModel -> option Q -> NeuronStatus * SomaModel.
(** [dendrite_model->update()] and [dendrite_model->update(synapse, false)]. *)
Variable dendrite_update : DendriteModel -> option Synapse -> Q * DendriteModel.
(** [synapse_model->update()] and [synapse_model->update(address, false)]. *)
Variable synapse_update : SynapseModel -> option Z -> Q * SynapseModel.

Record Neuron := mkNeuron {
  id : Z;
  axon_out_addresses : list Z;
  soma_hw : nat;
  axon_out_hw : nat;
  soma_model : SomaModel;
  dendrite_model : DendriteModel;
  spike_count : Z;
  soma_last_updated : Z;
  dendrite_last_updated : Z;
  forced_spikes : Z;
  status : NeuronStatus;
  dendrite_input_synapses : list Synapse;
  soma_input_charge : Q;
  axon_out_input_spike : bool
}.

Record Connection := mkConnection {
  post_neuron : nat;
  synapse_hw : option nat;
  synapse_model : SynapseModel;
  con_dendrite_params : DendriteParams;
  last_updated : Z
}.

(** A core.  Its neurons and incoming connections are stored in the
    core; [n.core] of a neuron of the core is the core itself, a neuron
    or unit pointer is a position in the vector of the core it points
    into. *)
Record Core := mkCore {
  core_id : nat;
  timestep_buffer_pos : BufferPosition;
  next_message_generation_delay : Q;
  neurons : list Neuron;
  connections_in : list Connection;
  axons_in : list (list Z);
  axon_in_units : list AxonInUnit;
  synapse_units : list SynapseUnit;
  soma_units : list SomaUnit;
  axon_out_units : list AxonOutUnit
}.

(** The constructors of [Message] are defined in the missing [chip.cpp]:
    [Message(arch, n, timestep)] and [Message(arch, n, timestep,
    axon_address)], for a neuron [n] of a core. *)
Variable placeholder_message : Core -> Neuron -> Z -> Message.
Variable spike_message : Core -> Neuron -> Z -> Z -> Message.

Record PState := mkPState {
  ps_core : Core;
  ps_messages : Messages;
  ps_log : list Event
}.

Definition PM (A : Type) : Type := PState -> Result (A * PState).

Definition ret {A} (a : A) : PM A := fun s => Ok (a, s).

Definition bind {A B} (c : PM A) (k : A -> PM B) : PM B :=
  fun s =>
    match c s with
    | Ok (a, s') => k a s'
    | Abort f => Abort f
    end.

Notation "'let*' x := c 'in' k" := (bind c (fun x => k))
  (at level 10, x name, c at level 100, k at level 200).

Definition get_core : PM Core := fun s => Ok (ps_core s, s).

Definition modify_core (f : Core -> Core) : PM unit :=
  fun s => Ok (tt, mkPState (f (ps_core s)) (ps_messages s) (ps_log s)).

Definition record (e : Event) : PM unit :=
  fun s => Ok (tt, mkPState (ps_core s) (ps_messages s) (ps_log s ++ [e])).

(** [assert(b)] at the assertion [f]. *)
Definition assert (f : Fault) (b : bool) : PM unit :=
  fun s => if b then Ok (tt, s) else Abort f.

(** [assert(p != nullptr)] at the assertion [f], and the pointer. *)
Definition assert_not_null {A} (f : Fault) (o : option A) : PM A :=
  fun s =>
    match o with
    | Some a => Ok (a, s)
    | None => Abort f
    end.

(** Dereference of a position in a vector of the core. *)
Definition access {A} (o : option A) : PM A := assert_not_null invalid_access o.

Definition set_neurons (l : list Neuron) (c : Core) : Core :=
  mkCore (core_id c) (timestep_buffer_pos c) (next_message_generation_delay c)
    l (connections_in c) (axons_in c) (axon_in_units c) (synapse_units c)
    (soma_units c) (axon_out_units c).

Definition set_next_message_generation_delay (v : Q) (c : Core) : Core :=
  mkCore (core_id c) (timestep_buffer_pos c) v
    (neurons c) (connections_in c) (axons_in c) (axon_in_units c) (synapse_units c)
    (soma_units c) (axon_out_units c).

Definition set_connections_in (l : list Connection) (c : Core) : Core :=
  mkCore (core_id c) (timestep_buffer_pos c) (next_message_generation_delay c)
    (neurons c) l (axons_in c) (axon_in_units c) (synapse_units c)
    (soma_units c) (axon_out_units c).

Definition set_axon_in_units (l : list AxonInUnit) (c : Core) : Core :=
  mkCore (core_id c) (timestep_buffer_pos c) (next_message_generation_delay c)
    (neurons c) (connections_in c) (axons_in c) l (synapse_units c)
    (soma_units c) (axon_out_units c).

Definition set_synapse_units (l : list SynapseUnit) (c : Core) : Core :=
  mkCore (core_id c) (timestep_buffer_pos c) (next_message_generation_delay c)
    (neurons c) (connections_in c) (axons_in c) (axon_in_units c) l
    (soma_units c) (axon_out_units c).

Definition set_soma_units (l : list SomaUnit) (c : Core) : Core :=
  mkCore (core_id c) (timestep_buffer_pos c) (next_message_generation_delay c)
    (neurons c) (connections_in c) (axons_in c) (axon_in_units c) (synapse_units c)
    l (axon_out_units c).

Definition set_axon_out_units (l : list AxonOutUnit) (c : Core) : Core :=
  mkCore (core_id c) (timestep_buffer_pos c) (next_message_generation_delay c)
    (neurons c) (connections_in c) (axons_in c) (axon_in_units c) (synapse_units c)
    (soma_units c) l.

Definition get_neuron (i : nat) : PM Neuron :=
  let* c := get_core in access (neurons c !! i).

Definition put_neuron (i : nat) (n : Neuron) : PM unit :=
  modify_core (fun c => set_neurons (<[i := n]> (neurons c)) c).

Definition set_soma_model (v : SomaModel) (n : Neuron) : Neuron :=
  mkNeuron (id n) (axon_out_addresses n) (soma_hw n) (axon_out_hw n)
    v (dendrite_model n) (spike_count n) (soma_last_updated n)
    (dendrite_last_updated n) (forced_spikes n) (status n)
    (dendrite_input_synapses n) (soma_input_charge n) (axon_out_input_spike n).

Definition set_dendrite_model (v : DendriteModel) (n : Neuron) : Neuron :=
  mkNeuron (id n) (axon_out_addresses n) (soma_hw n) (axon_out_hw n)
    (soma_model n) v (spike_count n) (soma_last_updated n)
    (dendrite_last_updated n) (forced_spikes n) (status n)
    (dendrite_input_synapses n) (soma_input_charge n) (axon_out_input_spike n).

Definition set_spike_count (v : Z) (n : Neuron) : Neuron :=
  mkNeuron (id n) (axon_out_addresses n) (soma_hw n) (axon_out_hw n)
    (soma_model n) (dendrite_model n) v (soma_last_updated n)
    (dendrite_last_updated n) (forced_spikes n) (status n)
    (dendrite_input_synapses n) (soma_input_charge n) (axon_out_input_spike n).

Definition set_soma_last_updated (v : Z) (n : Neuron) : Neuron :=
  mkNeuron (id n) (axon_out_addresses n) (soma_hw n) (axon_out_hw n)
    (soma_model n) (dendrite_model n) (spike_count n) v
    (dendrite_last_updated n) (forced_spikes n) (status n)
    (dendrite_input_synapses n) (soma_input_charge n) (axon_out_input_spike n).

Definition set_dendrite_last_updated (v : Z) (n : Neuron) : Neuron :=
  mkNeuron (id n) (axon_out_addresses n) (soma_hw n) (axon_out_hw n)
    (soma_model n) (dendrite_model n) (spike_count n) (soma_last_updated n)
    v (forced_spikes n) (status n)
    (dendrite_input_synapses n) (soma_input_charge n) (axon_out_input_spike n).

Definition set_forced_spikes (v : Z) (n : Neuron) : Neuron :=
  mkNeuron (id n) (axon_out_addresses n) (soma_hw n) (axon_out_hw n)
    (soma_model n) (dendrite_model n) (spike_count n) (soma_last_updated n)
    (dendrite_last_updated n) v (status n)
    (dendrite_input_synapses n) (soma_input_charge n) (axon_out_input_spike n).

Definition set_status (v : NeuronStatus) (n : Neuron) : Neuron :=
  mkNeuron (id n) (axon_out_addresses n) (soma_hw n) (axon_out_hw n)
    (soma_model n) (dendrite_model n) (spike_count n) (soma_last_updated n)
    (dendrite_last_updated n) (forced_spikes n) v
    (dendrite_input_synapses n) (soma_input_charge n) (axon_out_input_spike n).

Definition set_dendrite_input_synapses (v : list Synapse) (n : Neuron) : Neuron :=
  mkNeuron (id n) (axon_out_addresses n) (soma_hw n) (axon_out_hw n)
    (soma_model n) (dendrite_model n) (spike_count n) (soma_last_updated n)
    (dendrite_last_updated n) (forced_spikes n) (status n)
    v (soma_input_charge n) (axon_out_input_spike n).

Definition set_soma_input_charge (v : Q) (n : Neuron) : Neuron :=
  mkNeuron (id n) (axon_out_addresses n) (soma_hw n) (axon_out_hw n)
    (soma_model n) (dendrite_model n) (spike_count n) (soma_last_updated n)
    (dendrite_last_updated n) (forced_spikes n) (status n)
    (dendrite_input_synapses n) v (axon_out_input_spike n).

Definition set_axon_out_input_spike (v : bool) (n : Neuron) : Neuron :=
  mkNeuron (id n) (axon_out_addresses n) (soma_hw n) (axon_out_hw n)
    (soma_model n) (dendrite_model n) (spike_count n) (soma_last_updated n)
    (dendrite_last_updated n) (forced_spikes n) (status n)
    (dendrite_input_synapses n) (soma_input_charge n) v.

(** [v[i]] for an [int] index [i]. *)
Definition at_index {A} (v : list A) (i : Z) : option A :=
  if i <? 0 then None else v !! Z.to_nat i.

(** [ts.messages[core.id].push_back(m)]. *)
Definition push_message (m : Message) : PM unit :=
  fun s =>
    let c := core_id (ps_core s) in
    match ps_messages s !! c with
    | Some q => Ok (tt, mkPState (ps_core s) (<[c := q ++ [m]]> (ps_messages s)) (ps_log s))
    | None => Abort invalid_access
    end.

(** *** pipeline_process_dendrite *)

(** The rounds of [while (n.dendrite_last_updated < ts.timestep)]: every
    round adds one to [dendrite_last_updated], so there are
    [ts.timestep - n.dendrite_last_updated] of them, or none. *)
Fixpoint dendrite_catch_up (rounds : nat) (n : Neuron) : Neuron :=
  match rounds with
  | O => n
  | S rounds' =>
      let '(charge, model) := dendrite_update (dendrite_model n) None in
      dendrite_catch_up rounds'
        (set_dendrite_last_updated (dendrite_last_updated n + 1)
           (set_soma_input_charge charge (set_dendrite_model model n)))
  end.

Definition dendrite_input (n : Neuron) (synapse : Synapse) : Neuron :=
  let '(charge, model) := dendrite_update (dendrite_model n) (Some synapse) in
  set_soma_input_charge charge (set_dendrite_model model n).

Definition pipeline_process_dendrite (ts : Z) (i : nat) : PM Q :=
  let* n := get_neuron i in
  let latency := 0%Q in
  let n1 := dendrite_catch_up (Z.to_nat (ts - dendrite_last_updated n)) n in
  let n2 := foldl dendrite_input n1 (dendrite_input_synapses n1) in
  let n3 := set_dendrite_input_synapses [] n2 in
  let* _ := put_neuron i n3 in
  let* _ := record (UnitCall DendriteU (Z.of_nat i) latency) in
  ret latency.

(** *** pipeline_process_soma *)

Definition is_updated_or_fired (s : NeuronStatus) : bool :=
  match s with
  | UPDATED | FIRED => true
  | _ => false
  end.

Definition is_fired (s : NeuronStatus) : bool :=
  match s with
  | FIRED => true
  | _ => false
  end.

(** The argument of [soma_model->update] in a round of the loop. *)
Definition soma_current_in (n : Neuron) : option Q :=
  if (0 <? spike_count n) || Qgt_bool (Qabs (soma_input_charge n)) 0
  then Some (soma_input_charge n)
  else None.

(** One round of [while (n.soma_last_updated < ts.timestep)] on the
    neuron [n] and its soma unit [hw]; [latency] is
    [soma_processing_latency]. *)
Definition soma_step (n : Neuron) (hw : SomaUnit) (latency : Q) : Neuron * SomaUnit * Q :=
  let current_in := soma_current_in n in
  let n1 :=
    match current_in with
    | Some _ => set_soma_input_charge 0%Q n
    | None => n
    end in
  let update := soma_update (soma_model n1) current_in in
  let n2 := set_status update.1 (set_soma_model update.2 n1) in
  let n3 :=
    if 0 <? forced_spikes n2
    then set_forced_spikes (forced_spikes n2 - 1) (set_status FIRED n2)
    else n2 in
  let latency1 := (latency + latency_access_neuron hw)%Q in
  let latency2 :=
    if is_updated_or_fired (status n3)
    then (latency1 + latency_update_neuron hw)%Q else latency1 in
  let hw1 :=
    if is_updated_or_fired (status n3)
    then mkSomaUnit (neuron_updates hw + 1) (neurons_fired hw)
           (latency_access_neuron hw) (latency_update_neuron hw) (latency_spiking hw)
    else hw in
  let latency3 :=
    if is_fired (status n3) then (latency2 + latency_spiking hw1)%Q else latency2 in
  let hw2 :=
    if is_fired (status n3)
    then mkSomaUnit (neuron_updates hw1) (neurons_fired hw1 + 1)
           (latency_access_neuron hw1) (latency_update_neuron hw1) (latency_spiking hw1)
    else hw1 in
  let n4 := if is_fired (status n3) then set_axon_out_input_spike true n3 else n3 in
  let n5 := set_soma_last_updated (soma_last_updated n4 + 1) n4 in
  (n5, hw2, latency3).

(** The round on neuron [i] of the core: [n.soma_hw] is dereferenced,
    the call of the soma model is logged, and the neuron and the unit
    are written back. *)
Definition soma_round (i : nat) (latency : Q) : PM Q :=
  let* n := get_neuron i in
  let* c := get_core in
  let* hw := access (soma_units c !! soma_hw n) in
  let* _ := record (SomaModelUpdate (Z.of_nat i) (soma_current_in n)) in
  let step := soma_step n hw latency in
  let* _ := modify_core (fun c =>
    set_soma_units (<[soma_hw n := step.1.2]> (soma_units c)) c) in
  let* _ := put_neuron i step.1.1 in
  ret step.2.

Fixpoint soma_rounds (rounds : nat) (i : nat) (latency : Q) : PM Q :=
  match rounds with
  | O => ret latency
  | S rounds' =>
      let* latency' := soma_round i latency in
      soma_rounds rounds' i latency'
  end.

Definition pipeline_process_soma (ts : Z) (i : nat) : PM Q :=
  let* n := get_neuron i in
  let* latency := soma_rounds (Z.to_nat (ts - soma_last_updated n)) i 0%Q in
  let* _ := record (UnitCall SomaU (Z.of_nat i) latency) in
  ret latency.

(** *** pipeline_process_axon_out *)

(** The body of [for (int axon_address : n.axon_out_addresses)]. *)
Definition axon_out_send (ts : Z) (i : nat) (axon_address : Z) : PM unit :=
  let* n := get_neuron i in
  let* c := get_core in
  let m := spike_message c n ts axon_address in
  let* hw := access (axon_out_units c !! axon_out_hw n) in
  let m1 := set_generation_delay (next_message_generation_delay c) m in
  let* _ := modify_core (set_next_message_generation_delay 0%Q) in
  let m2 := set_generation_delay (generation_delay m1 + latency_access hw)%Q m1 in
  let* _ := push_message m2 in
  modify_core (fun c =>
    set_axon_out_units
      (<[axon_out_hw n := mkAxonOutUnit (packets_out hw + 1) (latency_access hw)]>
         (axon_out_units c)) c).

Fixpoint for_each {A} (l : list A) (body : A -> PM unit) : PM unit :=
  match l with
  | [] => ret tt
  | a :: l' => let* _ := body a in for_each l' body
  end.

Definition pipeline_process_axon_out (ts : Z) (i : nat) : PM Q :=
  let* n := get_neuron i in
  if negb (axon_out_input_spike n)
  then
    let* _ := record (UnitCall AxonOutU (Z.of_nat i) 0%Q) in
    ret 0%Q
  else
    let* _ := for_each (axon_out_addresses n) (axon_out_send ts i) in
    let* _ := put_neuron i (set_axon_out_input_spike false n) in
    let* c := get_core in
    let* hw := access (axon_out_units c !! axon_out_hw n) in
    let* _ := record (UnitCall AxonOutU (Z.of_nat i) (latency_access hw)) in
    ret (latency_access hw).

(** *** pipeline_process_neuron *)

Definition pipeline_process_neuron (ts : Z) (i : nat) : PM unit :=
  let* c := get_core in
  let latency0 := 0%Q in
  let* latency1 :=
    if timestep_buffer_pos c <=? BUFFER_BEFORE_DENDRITE_UNIT
    then let* l := pipeline_process_dendrite ts i in ret (latency0 + l)%Q
    else ret latency0 in
  let* latency2 :=
    if timestep_buffer_pos c <=? BUFFER_BEFORE_SOMA_UNIT
    then let* l := pipeline_process_soma ts i in ret (latency1 + l)%Q
    else ret latency1 in
  let* latency3 :=
    if timestep_buffer_pos c <=? BUFFER_BEFORE_AXON_OUT_UNIT
    then let* l := pipeline_process_axon_out ts i in ret (latency2 + l)%Q
    else ret latency2 in
  let* _ := modify_core (fun c =>
    set_next_message_generation_delay
      (next_message_generation_delay c + latency3)%Q c) in
  let* n := get_neuron i in
  put_neuron i (set_spike_count 0 n).

(** *** pipeline_process_neurons *)

(** The body of the loop over the cores, for the core in the state. *)
Definition process_core_neurons (ts : Z) : PM unit :=
  let* c := get_core in
  let* _ := for_each (seq 0 (length (neurons c))) (pipeline_process_neuron ts) in
  let* c := get_core in
  if Qnonzero (next_message_generation_delay c)
  then
    let* last_neuron := access (last (neurons c)) in
    let m := placeholder_message c last_neuron ts in
    push_message (set_generation_delay (next_message_generation_delay c) m)
  else ret tt.

Fixpoint pipeline_process_neurons (ts : Z) (cores : list Core) (ms : Messages)
    (log : list Event) : Result (list Core * Messages * list Event) :=
  match cores with
  | [] => Ok ([], ms, log)
  | c :: cores' =>
      match process_core_neurons ts (mkPState c ms log) with
      | Ok (_, s) =>
          match pipeline_process_neurons ts cores' (ps_messages s) (ps_log s) with
          | Ok (cs, ms', log') => Ok (ps_core s :: cs, ms', log')
          | Abort f => Abort f
          end
      | Abort f => Abort f
      end
  end.

(** *** pipeline_process_axon_in *)

Definition pipeline_process_axon_in (m : Message) : PM Q :=
  let* c := get_core in
  let* _ := assert assert_dest_axon_hw (0 <=? dest_axon_hw m) in
  let* _ := assert assert_dest_axon_hw
              (dest_axon_hw m <? Z.of_nat (length (axon_in_units c))) in
  let* axon_unit := access (at_index (axon_in_units c) (dest_axon_hw m)) in
  let* _ := modify_core (fun c =>
    set_axon_in_units
      (<[Z.to_nat (dest_axon_hw m) :=
           mkAxonInUnit (spike_messages_in axon_unit + 1) (latency_spike_message axon_unit)]>
         (axon_in_units c)) c) in
  let* _ := record (UnitCall AxonInU (dest_axon_hw m) (latency_spike_message axon_unit)) in
  ret (latency_spike_message axon_unit).

(** *** pipeline_process_synapse *)

(** The rounds of [while (con.last_updated < ts.timestep)]. *)
Fixpoint synapse_catch_up (rounds : nat) (con : Connection) : Connection :=
  match rounds with
  | O => con
  | S rounds' =>
      let '(_, model) := synapse_update (synapse_model con) None in
      synapse_catch_up rounds'
        (mkConnection (post_neuron con) (synapse_hw con) model
           (con_dendrite_params con) (last_updated con + 1))
  end.

(** The connection after the catch-up rounds and the lookup
    [synapse_model->update(synapse_address, false)], and the
    [synapse_data] the lookup produces. *)
Definition synapse_lookup (ts : Z) (synapse_address : Z) (con : Connection)
    : Connection * Synapse :=
  let con1 := synapse_catch_up (Z.to_nat (ts - last_updated con)) con in
  let update := synapse_update (synapse_model con1) (Some synapse_address) in
  (mkConnection (post_neuron con1) (synapse_hw con1) update.2
     (con_dendrite_params con1) (last_updated con1),
   mkSynapse update.1 (con_dendrite_params con1)).

(** [con] is [*(core.connections_in[synapse_address])]. *)
Definition pipeline_process_synapse (ts : Z) (synapse_address : Z) : PM Q :=
  let* c := get_core in
  let* con := access (at_index (connections_in c) synapse_address) in
  let lookup := synapse_lookup ts synapse_address con in
  let* _ := modify_core (fun c =>
    set_connections_in (<[Z.to_nat synapse_address := lookup.1]> (connections_in c)) c) in
  let* post := get_neuron (post_neuron con) in
  let* _ := put_neuron (post_neuron con)
              (set_spike_count (spike_count post + 1)
                 (set_dendrite_input_synapses
                    (dendrite_input_synapses post ++ [lookup.2]) post)) in
  let* hw_ref := assert_not_null assert_synapse_hw (synapse_hw con) in
  let* c := get_core in
  let* hw := access (synapse_units c !! hw_ref) in
  let* _ := modify_core (fun c =>
    set_synapse_units
      (<[hw_ref := mkSynapseUnit (spikes_processed hw + 1) (latency_spike_op hw)]>
         (synapse_units c)) c) in
  let* _ := record (UnitCall SynapseU synapse_address (latency_spike_op hw)) in
  ret (latency_spike_op hw).

(** *** pipeline_process_message *)

(** The body of [for (const int synapse_address :
    axon_in.synapse_addresses)]; [latency] is
    [message_processing_latency]. *)
Definition process_message_synapse (ts : Z) (latency : Q) (synapse_address : Z) : PM Q :=
  let* c := get_core in
  let* con := access (at_index (connections_in c) synapse_address) in
  let* l := pipeline_process_synapse ts synapse_address in
  let latency1 := (latency + l)%Q in
  if timestep_buffer_pos c =? BUFFER_BEFORE_DENDRITE_UNIT
  then ret latency1
  else
    let* l := pipeline_process_dendrite ts (post_neuron con) in
    let latency2 := (latency1 + l)%Q in
    if timestep_buffer_pos c =? BUFFER_BEFORE_SOMA_UNIT
    then ret latency2
    else
      let* l := pipeline_process_soma ts (post_neuron con) in
      let latency3 := (latency2 + l)%Q in
      let* _ := assert assert_buffer_pos
                  (timestep_buffer_pos c =? BUFFER_BEFORE_AXON_OUT_UNIT) in
      ret latency3.

Fixpoint for_each_acc {A B} (l : list A) (acc : B) (body : B -> A -> PM B) : PM B :=
  match l with
  | [] => ret acc
  | a :: l' => let* acc' := body acc a in for_each_acc l' acc' body
  end.

Definition pipeline_process_message (ts : Z) (m : Message) : PM Q :=
  let* latency := pipeline_process_axon_in m in
  let* c := get_core in
  let* _ := assert assert_dest_axon_id
              ((0 <=? dest_axon_id m) && (dest_axon_id m <? Z.of_nat (length (axons_in c)))) in
  let* synapse_addresses := access (at_index (axons_in c) (dest_axon_id m)) in
  for_each_acc synapse_addresses latency (process_message_synapse ts).

End Pipeline.

(** * Properties

    What the theorems below say of the scheduler and of the pipeline. *)

(** ** The scheduler *)

(** A message with [in_noc] cleared: apart from that flag,
    [schedule_update_noc] leaves every message as it is. *)
Definition erase (m : Message) : Message := set_in_noc false m.

(** What the scheduler never writes of a message: everything but its
    three timestamps and [in_noc]. *)
Definition static (m : Message) : Message :=
  set_in_noc false
    (set_sent_timestamp 0%Q (set_received_timestamp 0%Q (set_processed_timestamp 0%Q m))).

Arguments erase : simpl never.
Arguments static : simpl never.

(** The receive delay of the message a reference points to. *)
Definition rd_of (ms : Messages) (r : MessageRef) : Q :=
  match deref ms r with
  | Some m => receive_delay m
  | None => 0%Q
  end.

(** The in-flight invariant of the rolling mean: the [n] messages [R]
    are in the NoC and [mean] is the mean of their receive delays [rd]. *)
Definition in_flight (rd : MessageRef -> Q) (mean : Q) (n : Z) (R : list MessageRef) : Prop :=
  n = Z.of_nat (length R) /\
  (inject_Z n * mean == Qsum (rd <$> R))%Q /\
  (n = 0 -> (mean == 0)%Q).

Arguments schedule_update_noc_message_counts : simpl never.

(** The time of the event a message stands for: a placeholder is sent,
    a spike message is processed. *)
Definition event_time (m : Message) : Q :=
  if placeholder m then sent_timestamp m else processed_timestamp m.

(** The messages [schedule_messages] is given: those of [messages[c]]
    come from core [c], there are no more queues than cores, network and
    receive delays are not negative and a spike message goes to a core
    of the chip. *)
Definition wf_message (n c : nat) (m : Message) : Prop :=
  src_core_id m = Z.of_nat c /\
  (0 <= network_delay m)%Q /\
  (0 <= receive_delay m)%Q /\
  (placeholder m = false -> 0 <= dest_core_id m < Z.of_nat n).

Definition wf_messages (n : nat) (ms : Messages) : Prop :=
  (length ms <= n)%nat /\
  forall c p m, deref ms (c, p) = Some m -> wf_message n c m.

(** The time [v] is 0, the time of the event of a message that was
    scheduled, or the sending time of a message in the priority
    queue. *)
Definition attained (st : SchedState) (v : Q) : Prop :=
  (v == 0)%Q \/
  (exists r m, deref (st_messages st) r = Some m /\ (r ∉ pending st) /\ (v == event_time m)%Q) \/
  (exists r, r ∈ st_priority st /\ (v == sent_of (st_messages st) r)%Q).

(** The invariant of the scheduler loop, for the messages [ms0] the
    scheduler is given and [n] cores. *)
Record Inv (ms0 : Messages) (n : nat) (st : SchedState) : Prop := mkInv {
  inv_static : forall r,
    static <$> deref (st_messages st) r = static <$> deref ms0 r;
  inv_nodup : NoDup (pending st);
  inv_valid : forall r, r ∈ pending st -> is_Some (deref ms0 r);
  inv_queue_core : forall c q r,
    st_sent_per_core st !! c = Some q -> r ∈ q -> r.1 = c;
  inv_cfr : length (core_finished_receiving (st_noc st)) = n;
  inv_mr : length (messages_received (st_noc st)) = n;
  inv_in_flight :
    in_flight (rd_of ms0) (mean_in_flight_receive_delay (st_noc st))
      (messages_in_noc (st_noc st)) (concat (messages_received (st_noc st)));
  inv_last : (0 <= st_last_timestamp st)%Q;
  inv_order : forall r m,
    deref (st_messages st) r = Some m -> r ∉ pending st -> placeholder m = false ->
    (sent_timestamp m <= received_timestamp m)%Q /\
    (received_timestamp m <= processed_timestamp m)%Q;
  inv_bound : forall r m,
    deref (st_messages st) r = Some m -> r ∉ pending st ->
    (event_time m <= st_last_timestamp st)%Q;
  inv_attained : attained st (st_last_timestamp st)
}.

(** Every core with messages left in its queue has a message in the
    priority queue. *)
Definition progress (st : SchedState) : Prop :=
  forall c q, st_sent_per_core st !! c = Some q -> q <> [] ->
    exists r, r ∈ st_priority st /\ r.1 = c.




(** An [idx] to run the scheduler with: the links of a router are
    consecutive, the routers in row-major order. *)
Definition row_major_idx (w h c x y link : Z) : nat :=
  Z.to_nat ((x * h + y) * (ndirections + c) + link).

(** A message with the given delays, hops, source and destination
    (x, y, core id and core offset), and all timestamps 0. *)
Definition example_message (gen net rcv : Q) (hop : Z) (sx sy sc so dx dy dc dof : Z)
    (ph : bool) : Message :=
  mkMessage gen net rcv 0%Q 0%Q 0%Q 0%Q 0 1 hop 0 "g" sx dx sy dy
    (sx + sy) sc so (dx + dy) dc dof 0 0 ph false.

(** Two tiles in a row with one core each. *)
Definition two_tiles (buffer : Z) : Scheduler := mkScheduler 2 1 2 1 buffer.

(** A spike message from core 0 to core 1, one hop east. *)
Definition one_hop (gen net rcv : Q) : Message :=
  example_message gen net rcv 1 0 0 0 0 1 0 1 0 false.

(** A placeholder of core 0. *)
Definition core0_placeholder (gen : Q) : Message :=
  example_message gen 0%Q 0%Q 0 0 0 0 0 0 0 0 0 true.

(** Core 0 sends a spike message and then a placeholder that stands for
    100 units of processing; core 1 sends nothing. *)
Definition mixed_run : Messages := [[one_hop 1%Q 0%Q 0%Q; core0_placeholder 100%Q]; []].

(** Two spike messages from core 0 to core 1 and no buffer: the second
    is sent while the first is in the NoC. *)
Definition congested_run : Messages :=
  [[one_hop 1%Q 5%Q 10%Q; one_hop 1%Q 5%Q 10%Q]; []].

(** The scheduler on [congested_run] after the first round of its loop,
    and after the second. *)
Definition congested_state : SchedState :=
  Eval vm_compute in
    default (schedule_start congested_run (two_tiles 0))
      (schedule_step row_major_idx (two_tiles 0) (schedule_start congested_run (two_tiles 0))).

Definition congested_next : SchedState :=
  Eval vm_compute in
    default congested_state (schedule_step row_major_idx (two_tiles 0) congested_state).

Definition congested_message : Message :=
  Eval vm_compute in
    default (one_hop 0%Q 0%Q 0%Q) (deref (st_messages congested_state) (0, 1)%nat).

(** ** The pipeline *)

(** The unit an event is a call of. *)
Definition unit_of (e : Event) : option HwUnit :=
  match e with
  | UnitCall u _ _ => Some u
  | SomaModelUpdate _ _ => None
  end.

(** The units that ran, in order. *)
Definition unit_calls (log : list Event) : list HwUnit := omap unit_of log.

(** The latency a call returned. *)
Definition latency_of (e : Event) : Q :=
  match e with
  | UnitCall _ _ l => l
  | SomaModelUpdate _ _ => 0%Q
  end.

(** The sum of the latencies the units reported. *)
Definition reported_latency (log : list Event) : Q := Qsum (latency_of <$> log).

(** The latency an axon-out call reports, once for every message the
    call materialised: [addresses] are the axon addresses of the
    neurons of the core. *)
Definition charge_of (addresses : list (list Z)) (e : Event) : Q :=
  match e with
  | UnitCall AxonOutU i l =>
      (inject_Z (Z.of_nat (length (default [] (addresses !! Z.to_nat i)))) * l)%Q
  | _ => 0%Q
  end.

(** The latencies the axon-out calls of a log added to the messages
    they sent. *)
Definition message_charges (addresses : list (list Z)) (log : list Event) : Q :=
  Qsum (charge_of addresses <$> log).

(** An event that is a call of a model, not of a unit. *)
Definition is_model_event (e : Event) : Prop := unit_of e = None.

(** The generation delays of the messages a firing neuron sends: the
    first carries the accumulated delay [acc]. *)
Definition axon_out_delays (acc la : Q) (addresses : list Z) : list Q :=
  match addresses with
  | [] => []
  | _ :: rest => (acc + la)%Q :: ((fun _ => (0 + la)%Q) <$> rest)
  end.

Section PipelineObservations.

Context {SomaModel DendriteModel SynapseModel DendriteParams : Type}.

Local Abbreviation State := (@PState SomaModel DendriteModel SynapseModel DendriteParams).
Local Abbreviation NeuronT := (@Neuron SomaModel DendriteModel DendriteParams).
Local Abbreviation CoreT := (@Core SomaModel DendriteModel SynapseModel DendriteParams).
Local Abbreviation Comp := (@PM SomaModel DendriteModel SynapseModel DendriteParams).

(** The queue [ts.messages[core.id]] of the core in the state. *)
Definition queue_of (s : State) : list Message :=
  default [] (ps_messages s !! core_id (ps_core s)).

(** What the pipeline never writes of a neuron. *)
Definition neuron_static (n : NeuronT) : Z * list Z * nat * nat :=
  (id n, axon_out_addresses n, soma_hw n, axon_out_hw n).

(** The axon addresses of the neurons of a core. *)
Definition addresses_of (c : CoreT) : list (list Z) :=
  axon_out_addresses <$> neurons c.

(** What a run of the pipeline on a core leaves as it is. *)
Definition frame (s s' : State) : Prop :=
  core_id (ps_core s') = core_id (ps_core s) /\
  timestep_buffer_pos (ps_core s') = timestep_buffer_pos (ps_core s) /\
  neuron_static <$> neurons (ps_core s') = neuron_static <$> neurons (ps_core s).

(** A run from [s] to [s'] appends the messages [new] to the queue of
    the core and the events [evs] to the log. *)
Definition effect (s s' : State) (new : list Message) (evs : list Event) : Prop :=
  frame s s' /\
  queue_of s' = queue_of s ++ new /\
  ps_log s' = ps_log s ++ evs.

(** What a run of part of [pipeline_process_neuron] does to the
    accounts of the core: to the generation delays of the messages in
    its queue, to the accumulator and to the latencies in the log.
    [latency] and [latency'] are [neuron_processing_latency] before
    and after. *)
Definition accounted (s s' : State) (new : list Message) (evs : list Event)
    (latency latency' : Q) : Prop :=
  effect s s' new evs /\
  (latency' == latency + reported_latency evs)%Q /\
  (Qsum (generation_delay <$> new) + next_message_generation_delay (ps_core s') ==
   next_message_generation_delay (ps_core s) +
   message_charges (addresses_of (ps_core s)) evs)%Q.


(** The sizes of the vectors the process-neurons phase indexes. *)
Definition sizes (s : State) : nat * nat * nat :=
  (length (soma_units (ps_core s)), length (axon_out_units (ps_core s)),
   length (ps_messages s)).

(** A state the process-neurons phase runs on without a fault: the
    core has a neuron and a queue, and the unit pointers of its neurons
    point into the core. *)
Definition valid_state (s : State) : Prop :=
  neurons (ps_core s) <> [] /\
  (core_id (ps_core s) < length (ps_messages s))%nat /\
  forall n, n ∈ neurons (ps_core s) ->
    (soma_hw n < length (soma_units (ps_core s)))%nat /\
    (axon_out_hw n < length (axon_out_units (ps_core s)))%nat.

(** The computation [c] on neuron [i] returns on every valid state,
    and leaves the state valid. *)
Definition runs_ok {A} (i : nat)
    (c : @PM SomaModel DendriteModel SynapseModel DendriteParams A) : Prop :=
  forall s : State,
    valid_state s ->
    (i < length (neurons (ps_core s)))%nat ->
    exists a s', c s = Ok (a, s') /\ sizes s' = sizes s /\ frame s s'.

End PipelineObservations.

(** The units [pipeline_process_neuron] runs on a core whose buffer is
    at [pos]. *)
Definition send_side_units (pos : BufferPosition) : list HwUnit :=
  (if pos <=? BUFFER_BEFORE_DENDRITE_UNIT then [DendriteU] else []) ++
  (if pos <=? BUFFER_BEFORE_SOMA_UNIT then [SomaU] else []) ++
  (if pos <=? BUFFER_BEFORE_AXON_OUT_UNIT then [AxonOutU] else []).

(** The units the receive loop runs for one synapse address on a core
    whose buffer is at [pos]. *)
Definition receive_side_units (pos : BufferPosition) : list HwUnit :=
  if pos =? BUFFER_BEFORE_DENDRITE_UNIT then [SynapseU]
  else if pos =? BUFFER_BEFORE_SOMA_UNIT then [SynapseU; DendriteU]
  else [SynapseU; DendriteU; SomaU].

(** The positions [pipeline_parse_buffer_pos_str] returns. *)
Definition valid_buffer_pos (pos : BufferPosition) : Prop :=
  pos = BUFFER_BEFORE_DENDRITE_UNIT \/ pos = BUFFER_BEFORE_SOMA_UNIT \/
  pos = BUFFER_BEFORE_AXON_OUT_UNIT.


(** ** A core to run the pipeline on *)

(** Models without state: the soma stays idle, the dendrite passes no
    charge, a synaptic lookup reads the weight one. *)
Definition idle_soma (_ : unit) (_ : option Q) : NeuronStatus * unit := (IDLE, tt).
Definition silent_dendrite (_ : unit) (_ : option (@Synapse unit)) : Q * unit := (0%Q, tt).
Definition unit_synapse (_ : unit) (_ : option Z) : Q * unit := (1%Q, tt).

(** Neurons, cores and pipeline states over these models. *)
Definition ExampleNeuron : Type := @Neuron unit unit unit.
Definition ExampleCore : Type := @Core unit unit unit unit.
Definition ExampleState : Type := @PState unit unit unit unit.

(** The constructors of [Message] as [chip.hpp] declares them: the
    defaults of the struct, the source from the neuron and its core. *)
Definition example_placeholder (c : ExampleCore) (n : ExampleNeuron) (ts : Z) : Message :=
  mkMessage 0 0 0 0 0 0 0 ts 0 0 (id n) "g" 0 0 0 0 0 (Z.of_nat (core_id c)) 0 0 0 0
    (-1) (-1) true false.

Definition example_spike (c : ExampleCore) (n : ExampleNeuron) (ts : Z) (axon_address : Z)
    : Message :=
  mkMessage 0 0 0 0 0 0 0 ts 1 0 (id n) "g" 0 0 0 0 0 (Z.of_nat (core_id c)) 0 0 0 0
    0 axon_address false false.

(** A neuron that was last updated at timestep 0. *)
Definition example_neuron (forced : Z) (addresses : list Z) : ExampleNeuron :=
  mkNeuron 7 addresses 0 0 tt tt 0 0 0 forced IDLE [] 0 false.

(** A core with one neuron, one incoming connection on one axon, and
    one unit of each kind, each with latency one for every
    operation. *)
Definition example_core (pos : BufferPosition) (acc : Q) (n : ExampleNeuron) : ExampleCore :=
  mkCore 0 pos acc [n] [mkConnection 0 (Some 0%nat) tt tt 0] [[0]]
    [mkAxonInUnit 0 1] [mkSynapseUnit 0 1] [mkSomaUnit 0 0 1 1 1] [mkAxonOutUnit 0 1].

(** The core with an empty queue and an empty log. *)
Definition example_state (pos : BufferPosition) (acc : Q) (n : ExampleNeuron) : ExampleState :=
  mkPState (example_core pos acc n) [[]] [].

(** A neuron the soma marked as firing. *)
Definition spiking_neuron (addresses : list Z) : ExampleNeuron :=
  mkNeuron 7 addresses 0 0 tt tt 0 1 1 0 FIRED [] 0 true.

(** The process-neurons phase on such a core. *)
Definition example_process_core (ts : Z) (s : ExampleState) :=
  process_core_neurons idle_soma silent_dendrite example_placeholder example_spike ts s.

(** The state a run ends in; the state it started in when it stops on
    a fault. *)
Definition final_state {A} (s : ExampleState) (r : Result (A * ExampleState)) : ExampleState :=
  match r with
  | Ok (_, s') => s'
  | Abort _ => s
  end.

(** At timestep 1, a core with the buffer before the soma whose neuron
    is forced to spike on its one axon. *)
Definition forced_before : ExampleState :=
  example_state BUFFER_BEFORE_SOMA_UNIT 0 (example_neuron 1 [0]).
Definition forced_after : ExampleState :=
  final_state forced_before (example_process_core 1 forced_before).

(** A core with the buffer before the dendrite whose neuron stays
    idle. *)
Definition quiet_before : ExampleState :=
  example_state BUFFER_BEFORE_DENDRITE_UNIT 0 (example_neuron 0 [0]).
Definition quiet_after : ExampleState :=
  final_state quiet_before (example_process_core 1 quiet_before).

(** The receive loop on the synapse address 0 of that core. *)
Definition example_receive_synapse (s : ExampleState) :=
  process_message_synapse idle_soma silent_dendrite unit_synapse 1 0 0 s.
Definition received_after : ExampleState :=
  final_state quiet_before (example_receive_synapse quiet_before).

(** A message for the axon 0 of a core with the buffer before the axon
    output. *)
Definition incoming_message : Message :=
  example_spike (example_core BUFFER_BEFORE_AXON_OUT_UNIT 0 (example_neuron 0 []))
    (example_neuron 0 []) 1 0.
Definition receiving_state : ExampleState :=
  example_state BUFFER_BEFORE_AXON_OUT_UNIT 0 (example_neuron 0 []).

(** A core with the accumulated delay 5 whose neuron fired and has
    three axon addresses. *)
Definition three_axons : ExampleNeuron := spiking_neuron [0; 1; 2].
Definition spiking_before : ExampleState :=
  example_state BUFFER_BEFORE_AXON_OUT_UNIT 5 three_axons.

(** ** The scheduler: sending and receiving in turn, and the links of a route *)

(** What the scheduler has established of the messages it has taken off
    the priority queue, when they are spike messages: a message is
    processed [receive_delay] after it is received, it is received no
    earlier than its sending plus its network delay, its destination is
    busy until it is processed, and two messages for one core are not
    received at the same time. *)
Definition received_in_turn (st : SchedState) : Prop :=
  forall r m,
    deref (st_messages st) r = Some m -> r ∉ pending st -> placeholder m = false ->
    (processed_timestamp m == received_timestamp m + receive_delay m)%Q /\
    (sent_timestamp m + network_delay m <= received_timestamp m)%Q /\
    (processed_timestamp m <=
     vec_get (core_finished_receiving (st_noc st)) (Z.to_nat (dest_core_id m)))%Q /\
    forall r2 m2,
      r2 <> r -> deref (st_messages st) r2 = Some m2 -> r2 ∉ pending st ->
      placeholder m2 = false -> dest_core_id m2 = dest_core_id m ->
      (processed_timestamp m <= received_timestamp m2)%Q \/
      (processed_timestamp m2 <= received_timestamp m)%Q.

(** The positions in the density vector that the two route loops and
    the statement for the last tile visit for a message, in order:
    the state of the loops is the positions so far and
    [prev_direction]. *)
Definition links_x_body (idx : Z -> Z -> Z -> Z -> Z -> Z -> nat) (m : Message)
    (noc : NocInfo) (s : list nat * Z) (x : Z) : list nat * Z :=
  let direction := if 0 <? increment (src_x m) (dest_x m) then east else west in
  let i :=
    if x =? src_x m
    then noc_idx idx noc x (src_y m) (ndirections + src_core_offset m)
    else noc_idx idx noc x (src_y m) direction in
  (s.1 ++ [i], direction).

Definition links_y_body (idx : Z -> Z -> Z -> Z -> Z -> Z -> nat) (m : Message)
    (noc : NocInfo) (s : list nat * Z) (y : Z) : list nat * Z :=
  let direction := if 0 <? increment (src_y m) (dest_y m) then north else south in
  let i :=
    if (src_x m =? dest_x m) && (y =? src_y m)
    then noc_idx idx noc (dest_x m) y (ndirections + src_core_offset m)
    else noc_idx idx noc (dest_x m) y s.2 in
  (s.1 ++ [i], direction).

Definition route_links (idx : Z -> Z -> Z -> Z -> Z -> Z -> nat) (m : Message)
    (noc : NocInfo) : list nat :=
  let s0 := ([], ndirections + src_core_offset m) in
  let s1 := foldl (links_x_body idx m noc) s0 (loop_values (src_x m) (dest_x m)) in
  let s2 := foldl (links_y_body idx m noc) s1 (loop_values (src_y m) (dest_y m)) in
  s2.1 ++
  [if (src_x m =? dest_x m) && (src_y m =? dest_y m)
   then noc_idx idx noc (dest_x m) (dest_y m) (ndirections + src_core_offset m)
   else noc_idx idx noc (dest_x m) (dest_y m) s2.2].

(** [v[i] += a] for the positions [links], in order. *)
Definition add_along (a : Q) (links : list nat) (v : list Q) : list Q :=
  foldl (fun v i => vec_add a i v) v links.

(** [flow_density += v[i]] for the positions [links], in order. *)
Definition sum_along (v : list Q) (links : list nat) : Q :=
  foldl (fun s i => (s + vec_get v i)%Q) 0%Q links.

(** How often the position [i] is among [links]. *)
Definition visits (i : nat) (links : list nat) : nat :=
  length (filter (fun j => j = i) links).

(** The message under [r] is in the NoC and received by the time
    [t]: the condition [m.in_noc && (t >= m.received_timestamp)] of
    [schedule_update_noc]. *)
Definition delivered_by (t : Q) (ms : Messages) (r : MessageRef) : bool :=
  match deref ms r with
  | Some m => in_noc m && Qle_bool (received_timestamp m) t
  | None => false
  end.

(** The NoC after the density of the message under [r] is taken back:
    the call [schedule_update_noc_message_counts(m, noc, false)] of
    [schedule_update_noc], made after [m.in_noc] is cleared. *)
Definition take_back (idx : Z -> Z -> Z -> Z -> Z -> Z -> nat) (ms : Messages)
    (noc : NocInfo) (r : MessageRef) : NocInfo :=
  match deref ms r with
  | Some m => schedule_update_noc_message_counts idx (set_in_noc false m) noc false
  | None => noc
  end.

(** What the scheduler has established of the sending times: the
    per-core queues hold the references of a core in the order of its
    messages, the reference of a core in the priority queue is the one
    before the head of the queue of the core, the first message of a
    core is sent no earlier than its generation delay, and a message
    that has left the queue of its core is sent at least its generation
    delay after the message before it, which has been scheduled. *)
Definition sent_in_turn (st : SchedState) : Prop :=
  (forall c q, st_sent_per_core st !! c = Some q ->
     exists k, q = (fun p : nat => (c, p)) <$> seq k (length q)) /\
  (forall c p next q',
     (c, p) ∈ st_priority st -> st_sent_per_core st !! c = Some (next :: q') ->
     next = (c, S p)) /\
  (forall c m, deref (st_messages st) (c, 0%nat) = Some m ->
     (generation_delay m <= sent_timestamp m)%Q) /\
  (forall c p m m2,
     deref (st_messages st) (c, p) = Some m ->
     deref (st_messages st) (c, S p) = Some m2 ->
     ((c, S p) ∉ concat (st_sent_per_core st)) ->
     ((c, p) ∉ pending st) /\
     (sent_timestamp m + generation_delay m2 <= sent_timestamp m2)%Q).

(** ** The pipeline: what the units count and what they leave alone *)

(** The units of the pipeline, in the order a spike goes through
    them on its way from an incoming axon to an outgoing one. *)
Definition pipeline_units : list HwUnit := [SynapseU; DendriteU; SomaU; AxonOutU].

(** The sum of a list of counters. *)
Definition Zsum (l : list Z) : Z := foldr Z.add 0 l.

Section PipelineMeasures.

Context {SomaModel DendriteModel SynapseModel DendriteParams : Type}.

Local Abbreviation State := (@PState SomaModel DendriteModel SynapseModel DendriteParams).
Local Abbreviation NeuronT := (@Neuron SomaModel DendriteModel DendriteParams).
Local Abbreviation CoreT := (@Core SomaModel DendriteModel SynapseModel DendriteParams).

(** What a run of the send side of a core leaves as it is: the number
    of neurons, what the receive side of the core owns (connections,
    axons, axon-in and synapse units) and the queues of the other
    cores. *)
Definition keeps_receive_side (s s' : State) : Prop :=
  length (neurons (ps_core s')) = length (neurons (ps_core s)) /\
  connections_in (ps_core s') = connections_in (ps_core s) /\
  axons_in (ps_core s') = axons_in (ps_core s) /\
  axon_in_units (ps_core s') = axon_in_units (ps_core s) /\
  synapse_units (ps_core s') = synapse_units (ps_core s) /\
  core_id (ps_core s') = core_id (ps_core s) /\
  length (ps_messages s') = length (ps_messages s) /\
  (forall k, k <> core_id (ps_core s) -> ps_messages s' !! k = ps_messages s !! k).

(** A run that, of the neurons of the core, writes neuron [i] only. *)
Definition touches_only (i : nat) (s s' : State) : Prop :=
  (forall j, j <> i -> neurons (ps_core s') !! j = neurons (ps_core s) !! j) /\
  keeps_receive_side s s'.

(** What the process-neurons phase makes of a core: every spike count
    is reset, and the receive side of the core is as it was. *)
Definition processed_core (c c' : CoreT) : Prop :=
  core_id c' = core_id c /\
  length (neurons c') = length (neurons c) /\
  (forall n', n' ∈ neurons c' -> spike_count n' = 0) /\
  connections_in c' = connections_in c /\
  axons_in c' = axons_in c /\
  axon_in_units c' = axon_in_units c /\
  synapse_units c' = synapse_units c.

(** The spikes buffered at the neurons of a core, and the counters of
    its synapse and axon-out units. *)
Definition total_spike_count (c : CoreT) : Z := Zsum (spike_count <$> neurons c).
Definition total_spikes_processed (c : CoreT) : Z :=
  Zsum (spikes_processed <$> synapse_units c).
Definition total_packets_out (c : CoreT) : Z := Zsum (packets_out <$> axon_out_units c).




End PipelineMeasures.

(** A spike message from core 1 back to core 0, one hop west. *)
Definition one_hop_back (gen net rcv : Q) : Message :=
  example_message gen net rcv 1 1 0 1 0 0 0 0 0 false.

(** The states the units leave the example cores in. *)
Definition dendrite_after : ExampleState :=
  final_state quiet_before (pipeline_process_dendrite silent_dendrite 1 0 quiet_before).
Definition soma_after : ExampleState :=
  final_state forced_before (pipeline_process_soma idle_soma 1 0 forced_before).
Definition axon_out_after : ExampleState :=
  final_state spiking_before (pipeline_process_axon_out example_spike 1 0 spiking_before).
Definition message_after : ExampleState :=
  final_state receiving_state
    (pipeline_process_message idle_soma silent_dendrite unit_synapse 1 incoming_message
       receiving_state).
Definition neuron_after : ExampleState :=
  final_state quiet_before
    (pipeline_process_neuron idle_soma silent_dendrite example_spike 1 0 quiet_before).

(** The process-neurons phase on the core of [forced_before], with an
    empty queue for the core. *)
Definition example_phase : list ExampleCore * list (list Message) * list Event :=
  match pipeline_process_neurons idle_soma silent_dendrite example_placeholder
          example_spike 1 [ps_core forced_before] [[]] [] with
  | Ok r => r
  | Abort _ => ([], [], [])
  end.

(** * Proofs *)

(** ** Doubles *)

Lemma fmax_spec (a b : Q) :
  (a <= b /\ fmax a b = b)%Q \/ (b < a /\ fmax a b = a)%Q.
Proof.
  unfold fmax. destruct (Qle_bool a b) eqn:E.
  - left. split; [by apply Qle_bool_iff | done].
  - right. split; [| done].
    apply Qnot_le_lt. intros H. apply Qle_bool_iff in H. congruence.
Qed.

Lemma fmax_l (a b : Q) : (a <= fmax a b)%Q.
Proof. destruct (fmax_spec a b) as [[? ->] | [? ->]]; lra. Qed.

Lemma fmax_r (a b : Q) : (b <= fmax a b)%Q.
Proof. destruct (fmax_spec a b) as [[? ->] | [? ->]]; lra. Qed.

Lemma Qgt_bool_true (a b : Q) : Qgt_bool a b = true <-> (b < a)%Q.
Proof.
  unfold Qgt_bool. rewrite negb_true_iff. split.
  - intros E. apply Qnot_le_lt. intros H. apply Qle_bool_iff in H. congruence.
  - intros H. destruct (Qle_bool a b) eqn:E; [| done].
    apply Qle_bool_iff in E. exfalso. lra.
Qed.

Lemma Qgt_bool_false (a b : Q) : Qgt_bool a b = false <-> (a <= b)%Q.
Proof.
  unfold Qgt_bool. rewrite negb_false_iff. apply Qle_bool_iff.
Qed.

Lemma Qsum_app (l1 l2 : list Q) : (Qsum (l1 ++ l2) == Qsum l1 + Qsum l2)%Q.
Proof.
  induction l1 as [| a l1 IH]; simpl.
  - change (Qsum []) with 0%Q. lra.
  - change (Qsum (a :: l1 ++ l2)) with (a + Qsum (l1 ++ l2))%Q.
    change (Qsum (a :: l1)) with (a + Qsum l1)%Q. lra.
Qed.

(** ** References into the container *)

Lemma deref_assign (ms : Messages) (r r' : MessageRef) (f : Message -> Message) :
  deref (assign ms r f) r' =
  if decide (r = r') then f <$> deref ms r' else deref ms r'.
Proof.
  unfold deref, assign. destruct r as [c p], r' as [c' p']; simpl.
  destruct (decide (c = c')) as [-> | Hc].
  - rewrite list_lookup_alter_eq. destruct (ms !! c') as [q |] eqn:Hq; simpl.
    + destruct (decide (p = p')) as [-> | Hp].
      * rewrite decide_True by done. by rewrite list_lookup_alter_eq.
      * rewrite decide_False by congruence. by rewrite list_lookup_alter_ne.
    + by case_decide.
  - rewrite list_lookup_alter_ne by done.
    rewrite decide_False by congruence. done.
Qed.

Lemma deref_assign_eq ms r f : deref (assign ms r f) r = f <$> deref ms r.
Proof. rewrite deref_assign. by rewrite decide_True. Qed.

Lemma deref_assign_ne ms r r' f : r <> r' -> deref (assign ms r f) r' = deref ms r'.
Proof. intros. rewrite deref_assign. by rewrite decide_False. Qed.

(** ** The scheduler: the state of the NoC *)

Lemma static_erase m : static (erase m) = static m.
Proof. reflexivity. Qed.

Lemma erase_assign ms r f r' :
  (forall m, erase (f m) = erase m) ->
  erase <$> deref (assign ms r f) r' = erase <$> deref ms r'.
Proof.
  intros Hf. rewrite deref_assign. case_decide; [| done].
  destruct (deref ms r'); simpl; [| done]. by rewrite Hf.
Qed.

Lemma static_assign ms r f r' :
  (forall m, static (f m) = static m) ->
  static <$> deref (assign ms r f) r' = static <$> deref ms r'.
Proof.
  intros Hf. rewrite deref_assign. case_decide; [| done].
  destruct (deref ms r'); simpl; [| done]. by rewrite Hf.
Qed.

Lemma erase_static_fmap (o o' : option Message) :
  erase <$> o = erase <$> o' -> static <$> o = static <$> o'.
Proof.
  destruct o as [m |], o' as [m' |]; simpl; intros H; try done.
  assert (erase m = erase m') as H' by congruence.
  change (Some (static (erase m)) = Some (static (erase m'))).
  by rewrite H'.
Qed.

Lemma rd_of_static ms ms' r :
  static <$> deref ms' r = static <$> deref ms r -> rd_of ms' r = rd_of ms r.
Proof.
  unfold rd_of. destruct (deref ms' r) as [m' |], (deref ms r) as [m |]; simpl; try done.
  intros H. assert (static m' = static m) as H' by congruence.
  by apply (f_equal receive_delay) in H'.
Qed.

Lemma inject_Z_sub (n m : Z) : (inject_Z (n - m) == inject_Z n - inject_Z m)%Q.
Proof. unfold Z.sub, Qminus. by rewrite inject_Z_plus, inject_Z_opp. Qed.

Lemma inject_Z_pos (n : Z) : 0 < n -> (0 < inject_Z n)%Q.
Proof. intros H. change 0%Q with (inject_Z 0). by rewrite <- Zlt_Qlt. Qed.

Section NocFacts.

Variable idx : Z -> Z -> Z -> Z -> Z -> Z -> nat.

Lemma counts_fields m noc b :
  let noc' := schedule_update_noc_message_counts idx m noc b in
  core_finished_receiving noc' = core_finished_receiving noc /\
  messages_received noc' = messages_received noc /\
  core_count noc' = core_count noc.
Proof.
  unfold schedule_update_noc_message_counts. simpl.
  destruct b; [done |]. by destruct (1 <? _).
Qed.

Lemma counts_out rd m noc others r q :
  receive_delay m = rd r ->
  in_flight rd (mean_in_flight_receive_delay noc) (messages_in_noc noc) (others ++ r :: q) ->
  let noc' := schedule_update_noc_message_counts idx m noc false in
  in_flight rd (mean_in_flight_receive_delay noc') (messages_in_noc noc') (others ++ q).
Proof.
  intros Hrd (Hn & Hsum & Hz). unfold schedule_update_noc_message_counts. simpl.
  rewrite fmap_app, Qsum_app in Hsum. rewrite fmap_cons in Hsum.
  change (Qsum (rd r :: (rd <$> q))) with (rd r + Qsum (rd <$> q))%Q in Hsum.
  rewrite length_app in Hn. simpl in Hn.
  destruct (1 <? messages_in_noc noc) eqn:E; simpl.
  - apply Z.ltb_lt in E. split; [| split].
    + rewrite length_app. lia.
    + rewrite fmap_app, Qsum_app. rewrite Hrd.
      set (N := inject_Z (messages_in_noc noc)) in *.
      set (mean := mean_in_flight_receive_delay noc) in *.
      assert (HN : (N - 1 > 0)%Q).
      { unfold N. change 1%Q with (inject_Z 1). rewrite <- inject_Z_sub.
        apply inject_Z_pos. lia. }
      assert (HE : ((N - 1) * ((mean - rd r) / (N - 1)) == mean - rd r)%Q).
      { field. lra. }
      rewrite inject_Z_sub. fold N. change (inject_Z 1) with 1%Q.
      set (x := ((mean - rd r) / (N - 1))%Q) in *.
      lra.
    + lia.
  - apply Z.ltb_ge in E. split; [| split].
    + rewrite length_app. lia.
    + assert (others = []) as -> by (destruct others; [done | simpl in Hn; lia]).
      assert (q = []) as -> by (destruct q; [done | simpl in Hn; lia]).
      simpl. change (Qsum []) with 0%Q. lra.
    + done.
Qed.

Lemma counts_in rd m noc R :
  in_flight rd (mean_in_flight_receive_delay noc) (messages_in_noc noc) R ->
  let noc' := schedule_update_noc_message_counts idx m noc true in
  messages_in_noc noc' = messages_in_noc noc + 1 /\
  (inject_Z (messages_in_noc noc') * mean_in_flight_receive_delay noc' ==
   Qsum (rd <$> R) + receive_delay m)%Q.
Proof.
  intros (Hn & Hsum & Hz). unfold schedule_update_noc_message_counts. simpl.
  split; [done |].
  set (N := inject_Z (messages_in_noc noc)) in *.
  set (mean := mean_in_flight_receive_delay noc) in *.
  assert (HN : (N + 1 > 0)%Q).
  { unfold N. change 1%Q with (inject_Z 1). rewrite <- inject_Z_plus.
    apply inject_Z_pos. lia. }
  assert (HE : ((N + 1) * ((receive_delay m - mean) / (N + 1)) == receive_delay m - mean)%Q).
  { field. lra. }
  rewrite inject_Z_plus. fold N. change (inject_Z 1) with 1%Q.
  set (x := ((receive_delay m - mean) / (N + 1))%Q) in *.
  lra.
Qed.

Lemma Qsum_nonneg (l : list Q) : Forall (fun x => 0 <= x)%Q l -> (0 <= Qsum l)%Q.
Proof.
  induction 1 as [| x l Hx Hl IH]; [done |].
  change (Qsum (x :: l)) with (x + Qsum l)%Q. lra.
Qed.

Lemma in_flight_mean_nonneg rd mean n R :
  (forall r, 0 <= rd r)%Q -> in_flight rd mean n R -> (0 <= mean)%Q.
Proof.
  intros Hrd (Hn & Hsum & Hz).
  destruct (decide (n = 0)) as [-> | Hne].
  - rewrite Hz by done. lra.
  - assert (0 < inject_Z n)%Q as HN by (apply inject_Z_pos; lia).
    assert (0 <= Qsum (rd <$> R))%Q as HS.
    { apply Qsum_nonneg, Forall_fmap, Forall_forall. intros r _. apply Hrd. }
    destruct (Qlt_le_dec mean 0) as [Hlt | Hle]; [| done].
    exfalso. set (N := inject_Z n) in *. nra.
Qed.

(** *** schedule_update_noc *)

Lemma update_noc_queue_spec rd t q : forall ms noc kept ms' noc' others rest,
  update_noc_queue idx t q ms noc = (kept, ms', noc') ->
  (forall r, rd_of ms r = rd r) ->
  (forall r, erase <$> deref ms' r = erase <$> deref ms r) /\
  core_finished_receiving noc' = core_finished_receiving noc /\
  core_count noc' = core_count noc /\
  (in_flight rd (mean_in_flight_receive_delay noc) (messages_in_noc noc)
     (others ++ q ++ rest) ->
   in_flight rd (mean_in_flight_receive_delay noc') (messages_in_noc noc')
     (others ++ kept ++ rest)).
Proof.
  induction q as [| r q IH]; intros ms noc kept ms' noc' others rest Hrun Hrd.
  - simpl in Hrun. by simplify_eq.
  - simpl in Hrun.
    assert (Hkeep : forall k m1 n1,
      update_noc_queue idx t q ms noc = (k, m1, n1) ->
      (r :: k, m1, n1) = (kept, ms', noc') ->
      (forall r, erase <$> deref ms' r = erase <$> deref ms r) /\
      core_finished_receiving noc' = core_finished_receiving noc /\
      core_count noc' = core_count noc /\
      (in_flight rd (mean_in_flight_receive_delay noc) (messages_in_noc noc)
         (others ++ (r :: q) ++ rest) ->
       in_flight rd (mean_in_flight_receive_delay noc') (messages_in_noc noc')
         (others ++ kept ++ rest))).
    { intros k m1 n1 Hq Heq. simplify_eq.
      destruct (IH _ _ _ _ _ (others ++ [r]) rest Hq Hrd) as (H1 & H2 & H3 & H4).
      split; [done | split; [done | split; [done |]]].
      intros HI. simpl. rewrite <- !(app_assoc others [r]) in H4. simpl in H4. by apply H4. }
    destruct (deref ms r) as [m |] eqn:Hm.
    + destruct (in_noc m && Qle_bool (received_timestamp m) t) eqn:Hc.
      * destruct (IH _ _ _ _ _ others rest Hrun) as (H1 & H2 & H3 & H4).
        { intros r'. rewrite <- (Hrd r'). apply rd_of_static, erase_static_fmap.
          by apply erase_assign. }
        pose proof (counts_fields (set_in_noc false m) noc false) as (F1 & F2 & F3).
        split; [| split; [| split]].
        -- intros r'. rewrite H1. by apply erase_assign.
        -- by rewrite H2.
        -- by rewrite H3.
        -- intros HI. apply H4. simpl in HI.
           apply (counts_out rd _ noc others r (q ++ rest)); [| done].
           rewrite <- Hrd. unfold rd_of. by rewrite Hm.
      * destruct (update_noc_queue idx t q ms noc) as [[k m1] n1] eqn:Hq.
        by eapply Hkeep.
    + destruct (update_noc_queue idx t q ms noc) as [[k m1] n1] eqn:Hq.
      by eapply Hkeep.
Qed.

Lemma update_noc_queues_spec rd t qs : forall ms noc qs' ms' noc' others,
  update_noc_queues idx t qs ms noc = (qs', ms', noc') ->
  (forall r, rd_of ms r = rd r) ->
  (forall r, erase <$> deref ms' r = erase <$> deref ms r) /\
  core_finished_receiving noc' = core_finished_receiving noc /\
  core_count noc' = core_count noc /\
  length qs' = length qs /\
  (in_flight rd (mean_in_flight_receive_delay noc) (messages_in_noc noc)
     (others ++ concat qs) ->
   in_flight rd (mean_in_flight_receive_delay noc') (messages_in_noc noc')
     (others ++ concat qs')).
Proof.
  induction qs as [| q qs IH]; intros ms noc qs' ms' noc' others Hrun Hrd.
  - simpl in Hrun. by simplify_eq.
  - simpl in Hrun.
    destruct (update_noc_queue idx t q ms noc) as [[q1 ms1] noc1] eqn:Hq.
    destruct (update_noc_queues idx t qs ms1 noc1) as [[qs2 ms2] noc2] eqn:Hqs.
    simplify_eq.
    destruct (update_noc_queue_spec rd t q _ _ _ _ _ others (concat qs) Hq Hrd)
      as (A1 & A2 & A3 & A4).
    destruct (IH _ _ _ _ _ (others ++ q1) Hqs) as (B1 & B2 & B3 & B4 & B5).
    { intros r. rewrite <- (Hrd r). apply rd_of_static, erase_static_fmap, A1. }
    split; [| split; [| split; [| split]]].
    + intros r. by rewrite B1, A1.
    + by rewrite B2.
    + by rewrite B3.
    + simpl. by rewrite B4.
    + intros HI. simpl. rewrite app_assoc. apply B5. rewrite <- app_assoc.
      apply A4. by simpl in HI.
Qed.

Lemma schedule_update_noc_spec rd t ms noc ms' noc' :
  schedule_update_noc idx t ms noc = (ms', noc') ->
  (forall r, rd_of ms r = rd r) ->
  (forall r, erase <$> deref ms' r = erase <$> deref ms r) /\
  core_finished_receiving noc' = core_finished_receiving noc /\
  length (messages_received noc') = length (messages_received noc) /\
  (in_flight rd (mean_in_flight_receive_delay noc) (messages_in_noc noc)
     (concat (messages_received noc)) ->
   in_flight rd (mean_in_flight_receive_delay noc') (messages_in_noc noc')
     (concat (messages_received noc'))).
Proof.
  unfold schedule_update_noc. intros Hrun Hrd.
  destruct (update_noc_queues idx t (messages_received noc) ms noc)
    as [[qs1 ms1] noc1] eqn:Hqs.
  simplify_eq.
  destruct (update_noc_queues_spec rd t _ _ _ _ _ _ [] Hqs Hrd) as (A1 & A2 & A3 & A4 & A5).
  simpl. done.
Qed.

End NocFacts.

(** ** The scheduler: sending a message *)

Lemma concat_alter_snoc {A} (f : A -> Q) (r : A) (qs : list (list A)) : forall dest : nat,
  (dest < length qs)%nat ->
  length (concat (alter (fun q => q ++ [r]) dest qs)) = S (length (concat qs)) /\
  (Qsum (f <$> concat (alter (fun q => q ++ [r]) dest qs)) ==
   Qsum (f <$> concat qs) + f r)%Q.
Proof.
  induction qs as [| q qs IH]; intros dest Hd; simpl in Hd; [lia |].
  destruct dest as [| dest].
  - change (concat (alter (fun q => q ++ [r]) 0%nat (q :: qs)))
      with ((q ++ [r]) ++ concat qs).
    change (concat (q :: qs)) with (q ++ concat qs).
    rewrite !length_app. simpl. split; [lia |].
    rewrite !fmap_app, !Qsum_app.
    change (Qsum (f <$> [r])) with (f r + 0)%Q. lra.
  - change (concat (alter (fun q => q ++ [r]) (S dest) (q :: qs)))
      with (q ++ concat (alter (fun q => q ++ [r]) dest qs)).
    change (concat (q :: qs)) with (q ++ concat qs).
    destruct (IH dest) as [IH1 IH2]; [lia |].
    rewrite !length_app, IH1. split; [lia |].
    rewrite !fmap_app, !Qsum_app, IH2. lra.
Qed.

Section SendFacts.

Variable idx : Z -> Z -> Z -> Z -> Z -> Z -> nat.

Lemma schedule_send_spec rd scheduler r m noc last m' noc' last' :
  schedule_send idx scheduler r m noc last = (m', noc', last') ->
  (forall r, 0 <= rd r)%Q ->
  receive_delay m = rd r ->
  (0 <= network_delay m)%Q ->
  (Z.to_nat (dest_core_id m) < length (core_finished_receiving noc))%nat ->
  (Z.to_nat (dest_core_id m) < length (messages_received noc))%nat ->
  in_flight rd (mean_in_flight_receive_delay noc) (messages_in_noc noc)
    (concat (messages_received noc)) ->
  static m' = static m /\
  (sent_timestamp m <= sent_timestamp m')%Q /\
  (sent_timestamp m' <= received_timestamp m')%Q /\
  (received_timestamp m' <= processed_timestamp m')%Q /\
  last' = fmax last (processed_timestamp m') /\
  length (core_finished_receiving noc') = length (core_finished_receiving noc) /\
  length (messages_received noc') = length (messages_received noc) /\
  in_flight rd (mean_in_flight_receive_delay noc') (messages_in_noc noc')
    (concat (messages_received noc')).
Proof.
  intros Hrun Hrd Hm Hnd Hcfr Hmr HI.
  pose proof (in_flight_mean_nonneg _ _ _ _ Hrd HI) as Hmean.
  unfold schedule_send in Hrun.
  remember (Z.to_nat (dest_core_id m)) as dest eqn:Hdest.
  remember (schedule_calculate_messages_along_route idx m noc) as route eqn:Hroute.
  remember (inject_Z (path_capacity scheduler m)) as cap eqn:Hcap.
  remember (if Qgt_bool route cap
            then set_sent_timestamp
                   (sent_timestamp m + (route - cap) * mean_in_flight_receive_delay noc)%Q m
            else m) as m1 eqn:Hm1.
  remember (set_messages_received
              (alter (fun q => q ++ [r]) dest (messages_received noc)) noc) as noc1 eqn:Hnoc1.
  remember (schedule_update_noc_message_counts idx (set_in_noc true m1) noc1 true)
    as noc2 eqn:Hnoc2.
  pose proof (counts_fields idx (set_in_noc true m1) noc1 true) as (F1 & F2 & F3).
  rewrite <- Hnoc2 in F1, F2, F3.
  assert (Hstat : static m1 = static m) by (subst m1; by destruct (Qgt_bool route cap)).
  assert (Hsent : (sent_timestamp m <= sent_timestamp m1)%Q).
  { subst m1. destruct (Qgt_bool route cap) eqn:E; simpl; [| lra].
    apply Qgt_bool_true in E.
    set (mean := mean_in_flight_receive_delay noc) in *. nra. }
  assert (Hnd1 : network_delay m1 = network_delay m)
    by (subst m1; by destruct (Qgt_bool route cap)).
  assert (Hrd1 : receive_delay m1 = receive_delay m)
    by (subst m1; by destruct (Qgt_bool route cap)).
  clear Hm1.
  simpl in Hrun. rewrite Hnd1, Hrd1 in Hrun.
  remember (route * mean_in_flight_receive_delay noc2 / (inject_Z (hops m1) + 1))%Q
    as delay eqn:Hdelay.
  remember (sent_timestamp m1 + fmax (network_delay m) delay)%Q as earliest eqn:Hearliest.
  remember (vec_get (core_finished_receiving noc2) dest) as finished eqn:Hfinished.
  injection Hrun as <- <- <-. simpl.
  assert (Hget : vec_get
      (<[dest := fmax (finished + receive_delay m) (earliest + receive_delay m)]>
         (core_finished_receiving noc2)) dest =
      fmax (finished + receive_delay m) (earliest + receive_delay m)).
  { unfold vec_get. rewrite list_lookup_insert_eq; [done |]. rewrite F1. by subst noc1. }
  rewrite Hget.
  assert (Hrdm : (0 <= receive_delay m)%Q) by (rewrite Hm; apply Hrd).
  assert (He : (sent_timestamp m1 <= earliest)%Q).
  { subst earliest. pose proof (fmax_l (network_delay m) delay). lra. }
  split; [done |]. split; [done |]. split.
  { pose proof (fmax_r finished earliest). lra. }
  split.
  { destruct (fmax_spec finished earliest) as [[? ->] | [? ->]];
      destruct (fmax_spec (finished + receive_delay m) (earliest + receive_delay m))
        as [[? ->] | [? ->]]; lra. }
  split; [done |]. split.
  { rewrite length_insert. rewrite F1. by subst noc1. }
  split.
  { rewrite F2. subst noc1. simpl. by rewrite length_alter. }
  destruct (counts_in idx rd (set_in_noc true m1) noc1 (concat (messages_received noc)))
    as [C1 C2].
  { by subst noc1. }
  rewrite <- Hnoc2 in C1, C2. simpl in C2. rewrite Hrd1 in C2.
  destruct (concat_alter_snoc rd r (messages_received noc) dest Hmr) as [L1 L2].
  destruct HI as (Hn & Hsum & Hz).
  rewrite F2. replace (messages_received noc1)
    with (alter (fun q => q ++ [r]) dest (messages_received noc)) by (by subst noc1).
  replace (messages_in_noc noc1) with (messages_in_noc noc) in C1 by (by subst noc1).
  split; [| split].
  - rewrite C1, L1. lia.
  - rewrite C2, L2, Hm. reflexivity.
  - rewrite C1. lia.
Qed.

End SendFacts.

(** ** The scheduler: a round of the loop *)

(** *** The priority queue *)

Lemma pq_min_elem ms rest : forall best, pq_min ms best rest ∈ best :: rest.
Proof.
  induction rest as [| r rest IH]; intros best; simpl.
  - apply list_elem_of_here.
  - destruct (Qgt_bool _ _).
    + apply list_elem_of_further, IH.
    + specialize (IH best). apply elem_of_cons in IH as [-> | IH].
      * apply list_elem_of_here.
      * by do 2 apply list_elem_of_further.
Qed.

Lemma pq_top_elem ms pq r : pq_top ms pq = Some r -> r ∈ pq.
Proof.
  destruct pq as [| b rest]; simpl; [done |]. intros [= <-]. apply pq_min_elem.
Qed.

Lemma pq_remove_perm r pq : r ∈ pq -> pq ≡ₚ r :: pq_remove r pq.
Proof.
  induction pq as [| r' pq IH]; intros Hin.
  - by apply elem_of_nil in Hin.
  - simpl. case_decide as Heq.
    + by subst.
    + apply elem_of_cons in Hin as [-> | Hin]; [done |].
      rewrite (IH Hin) at 1. apply Permutation_swap.
Qed.

Lemma concat_insert_tail {A} (qs : list (list A)) : forall (c : nat) x q',
  qs !! c = Some (x :: q') -> concat qs ≡ₚ x :: concat (<[c := q']> qs).
Proof.
  induction qs as [| q qs IH]; intros c x q' Hc; [done |].
  destruct c as [| c]; simpl in *.
  - by simplify_eq.
  - rewrite (IH c x q' Hc). by rewrite Permutation_middle.
Qed.

Section StepFacts.

Variable idx : Z -> Z -> Z -> Z -> Z -> Z -> nat.

(** What one round of the loop does, step by step. *)
Lemma schedule_step_inv scheduler st st' :
  schedule_step idx scheduler st = Some st' ->
  exists r m0 ms1 noc1 m m' noc2 last2,
    pq_top (st_messages st) (st_priority st) = Some r /\
    deref (st_messages st) r = Some m0 /\
    schedule_update_noc idx (sent_timestamp m0) (st_messages st) (st_noc st) = (ms1, noc1) /\
    deref ms1 r = Some m /\
    (if placeholder m
     then (m, noc1, fmax (st_last_timestamp st) (sent_timestamp m0))
     else schedule_send idx scheduler r m noc1
            (fmax (st_last_timestamp st) (sent_timestamp m0))) = (m', noc2, last2) /\
    let ms2 := assign ms1 r (fun _ => m') in
    let src_core := Z.to_nat (src_core_id m') in
    ((exists next q' next_message,
        st_sent_per_core st !! src_core = Some (next :: q') /\
        deref ms2 next = Some next_message /\
        let sent := (sent_timestamp m' + generation_delay next_message)%Q in
        st' = mkSchedState (assign ms2 next (set_sent_timestamp sent))
                (<[src_core := q']> (st_sent_per_core st))
                (pq_push next (pq_remove r (st_priority st))) noc2 (fmax last2 sent)) \/
     ((forall next q', st_sent_per_core st !! src_core <> Some (next :: q')) /\
      st' = mkSchedState ms2 (st_sent_per_core st) (pq_remove r (st_priority st)) noc2 last2)).
Proof.
  unfold schedule_step. intros H.
  destruct (pq_top _ _) as [r |] eqn:Hr; simpl in H; [| done].
  destruct (deref (st_messages st) r) as [m0 |] eqn:Hm0; simpl in H; [| done].
  destruct (schedule_update_noc idx _ _ _) as [ms1 noc1] eqn:Hu.
  destruct (deref ms1 r) as [m |] eqn:Hm; simpl in H; [| done].
  destruct (if placeholder m then _ else _) as [[m' noc2] last2] eqn:Hs.
  exists r, m0, ms1, noc1, m, m', noc2, last2.
  do 5 (split; [done |]). simpl.
  destruct (st_sent_per_core st !! Z.to_nat (src_core_id m')) as [[| next q'] |] eqn:Hq.
  - right. split; [intros ???; done |]. by simplify_eq.
  - destruct (deref (assign ms1 r (fun _ => m')) next) as [nm |] eqn:Hn; simpl in H; [| done].
    left. exists next, q', nm. do 2 (split; [done |]). by simplify_eq.
  - right. split; [intros ???; done |]. by simplify_eq.
Qed.

Lemma schedule_step_pending scheduler st st' :
  schedule_step idx scheduler st = Some st' ->
  exists r, pq_top (st_messages st) (st_priority st) = Some r /\
            pending st ≡ₚ r :: pending st'.
Proof.
  intros H. apply schedule_step_inv in H
    as (r & m0 & ms1 & noc1 & m & m' & noc2 & last2 & Hr & _ & _ & _ & _ & Hnext).
  exists r. split; [done |]. unfold pending.
  pose proof (pq_remove_perm r _ (pq_top_elem _ _ _ Hr)) as Hp.
  simpl in Hnext. destruct Hnext as [(next & q' & nm & Hq & _ & ->) | [_ ->]]; simpl.
  - rewrite (concat_insert_tail _ _ _ _ Hq). unfold pq_push.
    rewrite Hp at 1. simpl. f_equiv. by rewrite <- app_assoc.
  - rewrite Hp at 1. done.
Qed.

End StepFacts.

(** ** The scheduler: the invariant of the loop *)

Lemma erase_deref ms ms' r m' :
  erase <$> deref ms' r = erase <$> deref ms r ->
  deref ms' r = Some m' ->
  exists m, deref ms r = Some m /\ erase m' = erase m.
Proof.
  intros H Hm'. rewrite Hm' in H. destruct (deref ms r) as [m |]; [| done].
  exists m. split; [done |]. simpl in H. congruence.
Qed.

Lemma erase_fields m m' :
  erase m' = erase m ->
  sent_timestamp m' = sent_timestamp m /\
  received_timestamp m' = received_timestamp m /\
  processed_timestamp m' = processed_timestamp m /\
  placeholder m' = placeholder m /\
  event_time m' = event_time m /\
  static m' = static m.
Proof.
  intros H.
  pose proof (f_equal sent_timestamp H) as H1.
  pose proof (f_equal received_timestamp H) as H2.
  pose proof (f_equal processed_timestamp H) as H3.
  pose proof (f_equal placeholder H) as H4.
  pose proof (f_equal static H) as H5.
  simpl in *. unfold event_time. rewrite H1, H3, H4. done.
Qed.

Lemma static_fields m m' :
  static m' = static m ->
  src_core_id m' = src_core_id m /\
  network_delay m' = network_delay m /\
  receive_delay m' = receive_delay m /\
  generation_delay m' = generation_delay m /\
  placeholder m' = placeholder m /\
  dest_core_id m' = dest_core_id m.
Proof.
  intros H.
  pose proof (f_equal src_core_id H). pose proof (f_equal network_delay H).
  pose proof (f_equal receive_delay H). pose proof (f_equal generation_delay H).
  pose proof (f_equal placeholder H). pose proof (f_equal dest_core_id H).
  done.
Qed.

Lemma static_deref ms ms' r m' :
  static <$> deref ms' r = static <$> deref ms r ->
  deref ms' r = Some m' ->
  exists m, deref ms r = Some m /\ static m' = static m.
Proof.
  intros H Hm'. rewrite Hm' in H. destruct (deref ms r) as [m |]; [| done].
  exists m. split; [done |]. simpl in H. congruence.
Qed.

Lemma attained_proper st v w : (v == w)%Q -> attained st v -> attained st w.
Proof.
  intros E [H | [(r & m & ? & ? & H) | (r & ? & H)]].
  - left. by rewrite <- E.
  - right. left. exists r, m. by rewrite <- E.
  - right. right. exists r. by rewrite <- E.
Qed.

Lemma rd_of_wf n ms0 : wf_messages n ms0 -> forall r, (0 <= rd_of ms0 r)%Q.
Proof.
  intros [_ Hwf] [c p]. unfold rd_of. destruct (deref ms0 (c, p)) as [m |] eqn:E; [| lra].
  by destruct (Hwf c p m E) as (_ & _ & ? & _).
Qed.

Section InvariantFacts.

Variable idx : Z -> Z -> Z -> Z -> Z -> Z -> nat.

(** Pushing the next message of a core. *)
Lemma push_next_inv ms0 n st src next q' nm v :
  Inv ms0 n st ->
  st_sent_per_core st !! src = Some (next :: q') ->
  deref (st_messages st) next = Some nm ->
  let st' := mkSchedState (assign (st_messages st) next (set_sent_timestamp v))
               (<[src := q']> (st_sent_per_core st))
               (pq_push next (st_priority st)) (st_noc st)
               (fmax (st_last_timestamp st) v) in
  Inv ms0 n st' /\ pending st ≡ₚ pending st' /\
  (forall c q, st_sent_per_core st' !! c = Some q -> q <> [] -> c <> src ->
     st_sent_per_core st !! c = Some q).
Proof.
  intros HI Hq Hnm st'.
  assert (Hp : pending st ≡ₚ pending st').
  { unfold pending, st', pq_push. simpl.
    rewrite (concat_insert_tail _ _ _ _ Hq). by rewrite <- app_assoc. }
  assert (Hnext : next ∈ concat (st_sent_per_core st)).
  { rewrite (concat_insert_tail _ _ _ _ Hq). apply list_elem_of_here. }
  assert (Hnp : next ∈ pending st) by (unfold pending; apply elem_of_app; by right).
  assert (Hnh : next ∉ st_priority st).
  { pose proof (inv_nodup _ _ _ HI) as Hnd. unfold pending in Hnd.
    apply NoDup_app in Hnd as (_ & Hdis & _). intros Hin. by apply (Hdis next). }
  split; [| split; [done |]].
  - constructor; simpl.
    + intros r. rewrite static_assign by done. apply (inv_static _ _ _ HI).
    + rewrite <- Hp. apply (inv_nodup _ _ _ HI).
    + intros r Hr. rewrite <- Hp in Hr. by apply (inv_valid _ _ _ HI).
    + intros c q r Hc Hr.
      destruct (decide (c = src)) as [-> | Hne].
      * rewrite list_lookup_insert_eq in Hc by (by eapply lookup_lt_Some).
        simplify_eq. eapply (inv_queue_core _ _ _ HI); [done |].
        by apply list_elem_of_further.
      * rewrite list_lookup_insert_ne in Hc by done.
        by eapply (inv_queue_core _ _ _ HI).
    + apply (inv_cfr _ _ _ HI).
    + apply (inv_mr _ _ _ HI).
    + apply (inv_in_flight _ _ _ HI).
    + pose proof (inv_last _ _ _ HI). pose proof (fmax_l (st_last_timestamp st) v). lra.
    + intros r m Hm Hr Hph. rewrite <- Hp in Hr.
      rewrite deref_assign_ne in Hm by (intros ->; done).
      by eapply (inv_order _ _ _ HI).
    + intros r m Hm Hr. rewrite <- Hp in Hr.
      rewrite deref_assign_ne in Hm by (intros ->; done).
      pose proof (inv_bound _ _ _ HI r m Hm Hr).
      pose proof (fmax_l (st_last_timestamp st) v). lra.
    + unfold attained. simpl.
      destruct (fmax_spec (st_last_timestamp st) v) as [[_ ->] | [_ ->]].
      * right. right. exists next.
        split; [unfold pq_push; apply elem_of_app; right; apply list_elem_of_here |].
        unfold sent_of. rewrite deref_assign_eq, Hnm. simpl. reflexivity.
      * destruct (inv_attained _ _ _ HI) as [H | [(r & m & Hm & Hr & H) | (r & Hr & H)]].
        -- by left.
        -- right. left. exists r, m.
           rewrite deref_assign_ne by (intros ->; done).
           split; [done |]. split; [| done]. by rewrite <- Hp.
        -- right. right. exists r.
           split; [unfold pq_push; apply elem_of_app; by left |].
           unfold sent_of. rewrite deref_assign_ne by (intros ->; done). done.
  - simpl. intros c q Hc _ Hne. by rewrite list_lookup_insert_ne in Hc.
Qed.

End InvariantFacts.

Lemma fmax_absorb (a b : Q) : fmax (fmax a b) b = fmax a b.
Proof.
  unfold fmax. destruct (Qle_bool a b) eqn:E.
  - assert (Qle_bool b b = true) as -> by (apply Qle_bool_iff; lra). done.
  - by rewrite E.
Qed.

Section PopFacts.

Variable idx : Z -> Z -> Z -> Z -> Z -> Z -> nat.

(** Taking the earliest message off the priority queue and sending it. *)
Lemma pop_inv ms0 n scheduler st r m0 ms1 noc1 m m' noc2 last2 :
  wf_messages n ms0 ->
  Inv ms0 n st ->
  pq_top (st_messages st) (st_priority st) = Some r ->
  deref (st_messages st) r = Some m0 ->
  schedule_update_noc idx (sent_timestamp m0) (st_messages st) (st_noc st) = (ms1, noc1) ->
  deref ms1 r = Some m ->
  (if placeholder m
   then (m, noc1, fmax (st_last_timestamp st) (sent_timestamp m0))
   else schedule_send idx scheduler r m noc1
          (fmax (st_last_timestamp st) (sent_timestamp m0))) = (m', noc2, last2) ->
  let st2 := mkSchedState (assign ms1 r (fun _ => m')) (st_sent_per_core st)
               (pq_remove r (st_priority st)) noc2 last2 in
  Inv ms0 n st2 /\ pending st ≡ₚ r :: pending st2 /\ Z.to_nat (src_core_id m') = r.1.
Proof.
  intros Hwf HI Hr Hm0 Hu Hm Hs st2.
  pose proof (pq_top_elem _ _ _ Hr) as Hin.
  assert (Hp : pending st ≡ₚ r :: pending st2).
  { unfold pending, st2. simpl. by rewrite (pq_remove_perm r _ Hin) at 1. }
  pose proof (inv_nodup _ _ _ HI) as Hnd. rewrite Hp in Hnd.
  apply NoDup_cons in Hnd as [Hr2 Hnd2].
  assert (Hrd : forall r, rd_of (st_messages st) r = rd_of ms0 r).
  { intros r'. apply rd_of_static, (inv_static _ _ _ HI). }
  destruct (schedule_update_noc_spec idx (rd_of ms0) _ _ _ _ _ Hu Hrd) as (E1 & U2 & U3 & U4).
  specialize (U4 (inv_in_flight _ _ _ HI)).
  assert (Hst1 : forall r', static <$> deref ms1 r' = static <$> deref ms0 r').
  { intros r'. rewrite <- (inv_static _ _ _ HI). apply erase_static_fmap, E1. }
  destruct (erase_deref _ _ _ _ (E1 r) Hm) as (m0' & Hm0' & Em).
  assert (m0' = m0) as -> by congruence. clear Hm0'.
  destruct (erase_fields _ _ Em) as (Es & Ercv & Eproc & Eph & Eev & Est).
  destruct (static_deref _ _ _ _ (Hst1 r) Hm) as (m00 & Hm00 & Est0).
  destruct r as [c p].
  destruct Hwf as [Hlen Hwf]. destruct (Hwf c p m00 Hm00) as (W1 & W2 & W3 & W4).
  destruct (static_fields _ _ Est0) as (S1 & S2 & S3 & S4 & S5 & S6).
  (* what the round does to the message *)
  assert (Hsend :
    static m' = static m /\
    (sent_timestamp m0 <= sent_timestamp m')%Q /\
    (placeholder m = false ->
       (sent_timestamp m' <= received_timestamp m')%Q /\
       (received_timestamp m' <= processed_timestamp m')%Q) /\
    (sent_timestamp m0 <= event_time m')%Q /\
    last2 = fmax (fmax (st_last_timestamp st) (sent_timestamp m0)) (event_time m') /\
    length (core_finished_receiving noc2) = n /\
    length (messages_received noc2) = n /\
    in_flight (rd_of ms0) (mean_in_flight_receive_delay noc2) (messages_in_noc noc2)
      (concat (messages_received noc2))).
  { destruct (placeholder m) eqn:Hph.
    - injection Hs as <- <- <-. unfold event_time. rewrite Hph, Es.
      split; [done |]. split; [lra |]. split; [done |]. split; [lra |].
      split; [by rewrite fmax_absorb |].
      rewrite U2, U3. split; [apply (inv_cfr _ _ _ HI) |].
      split; [apply (inv_mr _ _ _ HI) | done].
    - assert (Hdest : (Z.to_nat (dest_core_id m) < n)%nat).
      { rewrite S6. specialize (W4 (eq_sym S5)). lia. }
      destruct (schedule_send_spec idx (rd_of ms0) _ _ _ _ _ _ _ _ Hs)
        as (T1 & T2 & T3 & T4 & T5 & T6 & T7 & T8).
      + by apply (rd_of_wf n).
      + rewrite S3. unfold rd_of. by rewrite Hm00.
      + by rewrite S2.
      + rewrite U2, (inv_cfr _ _ _ HI). done.
      + rewrite U3, (inv_mr _ _ _ HI). done.
      + done.
      + destruct (static_fields _ _ T1) as (_ & _ & _ & _ & P5 & _).
        unfold event_time. rewrite P5, Hph. rewrite Es in T2.
        split; [done |]. split; [done |]. split; [done |]. split; [lra |].
        split; [done |].
        rewrite T6, T7, U2, U3.
        split; [apply (inv_cfr _ _ _ HI) |]. split; [apply (inv_mr _ _ _ HI) | done]. }
  destruct Hsend as (T1 & T2 & T3 & T4 & T5 & T6 & T7 & T8).
  assert (Hold : forall r' mm, r' <> (c, p) ->
    deref (assign ms1 (c, p) (fun _ => m')) r' = Some mm ->
    exists mo, deref (st_messages st) r' = Some mo /\ erase mm = erase mo).
  { intros r' mm Hne Hmm. rewrite deref_assign_ne in Hmm by done.
    by apply (erase_deref _ _ _ _ (E1 r')). }
  assert (Hnew : forall r' mo, r' <> (c, p) ->
    deref (st_messages st) r' = Some mo ->
    exists mm, deref (assign ms1 (c, p) (fun _ => m')) r' = Some mm /\ erase mm = erase mo).
  { intros r' mo Hne Hmo. rewrite deref_assign_ne by done.
    pose proof (E1 r') as E. rewrite Hmo in E.
    destruct (deref ms1 r') as [mm |]; [| done]. exists mm. split; [done |].
    simpl in E. congruence. }
  assert (Hnotin : forall r', r' ∉ pending st2 -> r' <> (c, p) -> r' ∉ pending st).
  { intros r' H1 H2. rewrite Hp. intros [-> | H]%elem_of_cons; done. }
  assert (Hself : deref (assign ms1 (c, p) (fun _ => m')) (c, p) = Some m').
  { by rewrite deref_assign_eq, Hm. }
  pose proof (fmax_l (st_last_timestamp st) (sent_timestamp m0)) as L1.
  pose proof (fmax_r (st_last_timestamp st) (sent_timestamp m0)) as L2.
  pose proof (fmax_l (fmax (st_last_timestamp st) (sent_timestamp m0)) (event_time m')) as L3.
  pose proof (fmax_r (fmax (st_last_timestamp st) (sent_timestamp m0)) (event_time m')) as L4.
  rewrite <- T5 in L3, L4.
  split; [| split; [done |]].
  - constructor; simpl.
    + intros r'. rewrite deref_assign. case_decide as Heq.
      * subst r'. rewrite Hm. simpl. rewrite T1. rewrite <- (Hst1 (c, p)), Hm. done.
      * apply Hst1.
    + done.
    + intros r' Hr'. apply (inv_valid _ _ _ HI). rewrite Hp. by apply list_elem_of_further.
    + apply (inv_queue_core _ _ _ HI).
    + done.
    + done.
    + done.
    + pose proof (inv_last _ _ _ HI). lra.
    + intros r' mm Hmm Hr' Hph.
      destruct (decide (r' = (c, p))) as [-> | Hne].
      * rewrite Hself in Hmm. assert (mm = m') as -> by congruence.
        destruct (static_fields _ _ T1) as (_ & _ & _ & _ & P5 & _).
        apply T3. by rewrite <- P5.
      * destruct (Hold r' mm Hne Hmm) as (mo & Hmo & Eo).
        destruct (erase_fields _ _ Eo) as (-> & -> & -> & Eph' & _ & _).
        apply (inv_order _ _ _ HI r' mo Hmo); [by apply Hnotin | by rewrite <- Eph'].
    + intros r' mm Hmm Hr'.
      destruct (decide (r' = (c, p))) as [-> | Hne].
      * rewrite Hself in Hmm. by assert (mm = m') as -> by congruence.
      * destruct (Hold r' mm Hne Hmm) as (mo & Hmo & Eo).
        destruct (erase_fields _ _ Eo) as (_ & _ & _ & _ & -> & _).
        pose proof (inv_bound _ _ _ HI r' mo Hmo (Hnotin r' Hr' Hne)). lra.
    + (* the new last timestamp is the time of an event *)
      assert (Aself : attained st2 (event_time m')).
      { right. left. exists (c, p), m'. split; [done |]. split; [done | reflexivity]. }
      assert (Aold : attained st (st_last_timestamp st) ->
                     (st_last_timestamp st <= event_time m')%Q \/
                     attained st2 (st_last_timestamp st)).
      { intros [H | [(r' & mo & Hmo & Hr' & H) | (r' & Hr' & H)]].
        - right. by left.
        - right. right. left.
          assert (r' <> (c, p)) as Hne.
          { intros ->. apply Hr'. rewrite Hp. apply list_elem_of_here. }
          destruct (Hnew r' mo Hne Hmo) as (mm & Hmm & Eo).
          destruct (erase_fields _ _ Eo) as (_ & _ & _ & _ & Eev' & _).
          exists r', mm. split; [done |]. split; [| by rewrite Eev'].
          intros Hin2. apply Hr'. rewrite Hp. by apply list_elem_of_further.
        - destruct (decide (r' = (c, p))) as [-> | Hne].
          + left. unfold sent_of in H. rewrite Hm0 in H. lra.
          + right. right. right. exists r'. split.
            * simpl. rewrite (pq_remove_perm _ _ Hin) in Hr'.
              by apply elem_of_cons in Hr' as [-> | Hr'].
            * unfold sent_of in *. simpl.
              destruct (deref (st_messages st) r') as [mo |] eqn:Hmo.
              -- destruct (Hnew r' mo Hne Hmo) as (mm & Hmm & Eo).
                 destruct (erase_fields _ _ Eo) as (Es' & _).
                 rewrite Hmm, Es'. done.
              -- rewrite deref_assign_ne by done.
                 pose proof (E1 r') as E. rewrite Hmo in E.
                 destruct (deref ms1 r'); [done | done]. }
      rewrite T5.
      destruct (fmax_spec (fmax (st_last_timestamp st) (sent_timestamp m0)) (event_time m'))
        as [[_ ->] | [Hlt ->]]; [done |].
      destruct (fmax_spec (st_last_timestamp st) (sent_timestamp m0)) as [[Hle E] | [Hlt2 E]];
        rewrite E in *.
      * exfalso. lra.
      * destruct (Aold (inv_attained _ _ _ HI)) as [H | H]; [exfalso; lra | done].
  - simpl. destruct (static_fields _ _ T1) as (P1 & _). rewrite P1, S1, W1. lia.
Qed.

End PopFacts.

(** ** The scheduler: the loop ends *)

Lemma is_Some_fmap_eq {A B} (f : A -> B) (o o' : option A) :
  f <$> o = f <$> o' -> is_Some o' -> is_Some o.
Proof. destruct o, o'; simpl; intros H [? ?]; by eauto. Qed.

Lemma concat_nil_queues {A} (qs : list (list A)) :
  (forall c q, qs !! c = Some q -> q = []) -> concat qs = [].
Proof.
  induction qs as [| q qs IH]; intros H; [done |].
  simpl. rewrite (H 0%nat q eq_refl). simpl. apply IH.
  intros c q' Hc. by apply (H (S c)).
Qed.

Lemma elem_of_concat {A} (x : A) (l : list (list A)) :
  x ∈ concat l <-> exists q, q ∈ l /\ x ∈ q.
Proof.
  rewrite list_elem_of_In, in_concat. split; intros (q & H1 & H2); exists q.
  - by rewrite !list_elem_of_In.
  - by rewrite <- !list_elem_of_In.
Qed.

Section LoopFacts.

Variable idx : Z -> Z -> Z -> Z -> Z -> Z -> nat.

Lemma schedule_step_preserves ms0 n scheduler st st' :
  wf_messages n ms0 -> Inv ms0 n st -> progress st ->
  schedule_step idx scheduler st = Some st' ->
  Inv ms0 n st' /\ progress st' /\ length (pending st) = S (length (pending st')).
Proof.
  intros Hwf HI Hpr Hstep.
  destruct (schedule_step_inv idx _ _ _ Hstep)
    as (r & m0 & ms1 & noc1 & m & m' & noc2 & last2 & Hr & Hm0 & Hu & Hm & Hs & Hnext).
  destruct (pop_inv idx _ _ _ _ _ _ _ _ _ _ _ _ Hwf HI Hr Hm0 Hu Hm Hs) as (HI2 & Hp & Hsrc).
  pose proof (pq_top_elem _ _ _ Hr) as Hin.
  assert (Hother : forall c q, st_sent_per_core st !! c = Some q -> q <> [] -> c <> r.1 ->
            exists r', r' ∈ pq_remove r (st_priority st) /\ r'.1 = c).
  { intros c q Hc Hq Hne. destruct (Hpr c q Hc Hq) as (r' & Hr' & Hc').
    exists r'. split; [| done]. rewrite (pq_remove_perm _ _ Hin) in Hr'.
    apply elem_of_cons in Hr' as [-> | Hr']; [congruence | done]. }
  simpl in Hnext. rewrite Hsrc in Hnext.
  destruct Hnext as [(next & q' & nm & Hq & Hnm & ->) | [Hnone ->]].
  - set (st2 := mkSchedState (assign ms1 r (fun _ => m')) (st_sent_per_core st)
                  (pq_remove r (st_priority st)) noc2 last2) in *.
    destruct (push_next_inv _ _ st2 r.1 next q' nm
                (sent_timestamp m' + generation_delay nm)%Q HI2 Hq Hnm) as (HI3 & Hp3 & Hq3).
    split; [done |]. split.
    + intros c q Hc Hne. simpl in Hc.
      destruct (decide (c = r.1)) as [-> | Hcne].
      * exists next. split.
        -- simpl. unfold pq_push. apply elem_of_app. right. apply list_elem_of_here.
        -- apply (inv_queue_core _ _ _ HI r.1 (next :: q') next Hq), list_elem_of_here.
      * rewrite list_lookup_insert_ne in Hc by done.
        destruct (Hother c q Hc Hne Hcne) as (r' & Hr' & Hc').
        exists r'. split; [| done]. simpl. unfold pq_push. apply elem_of_app. by left.
    + rewrite Hp. simpl. f_equal. by rewrite Hp3.
  - split; [done |]. split.
    + intros c q Hc Hne. simpl in Hc.
      destruct (decide (c = r.1)) as [-> | Hcne].
      * destruct q as [| next q']; [done |]. by destruct (Hnone next q').
      * by apply (Hother c q).
    + rewrite Hp. done.
Qed.

Lemma schedule_step_total ms0 n scheduler st :
  Inv ms0 n st -> st_priority st <> [] -> is_Some (schedule_step idx scheduler st).
Proof.
  intros HI Hne. unfold schedule_step.
  destruct (pq_top (st_messages st) (st_priority st)) as [r |] eqn:Hr;
    [| by destruct (st_priority st)].
  simpl.
  assert (Hvalid : forall r', r' ∈ pending st -> is_Some (deref (st_messages st) r')).
  { intros r' Hr'. eapply is_Some_fmap_eq; [apply (inv_static _ _ _ HI) |].
    by apply (inv_valid _ _ _ HI). }
  destruct (Hvalid r) as [m0 Hm0].
  { unfold pending. apply elem_of_app. left. by eapply pq_top_elem. }
  rewrite Hm0. simpl.
  destruct (schedule_update_noc idx _ _ _) as [ms1 noc1] eqn:Hu.
  destruct (schedule_update_noc_spec idx (rd_of (st_messages st)) _ _ _ _ _ Hu)
    as (E1 & _); [done |].
  assert (Hvalid1 : forall r', r' ∈ pending st -> is_Some (deref ms1 r')).
  { intros r' Hr'. eapply is_Some_fmap_eq; [apply E1 |]. by apply Hvalid. }
  destruct (Hvalid1 r) as [m Hm].
  { unfold pending. apply elem_of_app. left. by eapply pq_top_elem. }
  rewrite Hm. simpl.
  destruct (if placeholder m then _ else _) as [[m' noc2] last2].
  destruct (st_sent_per_core st !! Z.to_nat (src_core_id m')) as [[| next q'] |] eqn:Hq;
    [done | | done].
  destruct (Hvalid1 next) as [nm Hnm].
  { unfold pending. apply elem_of_app. right. apply elem_of_concat.
    exists (next :: q'). split; [by eapply list_elem_of_lookup_2 |].
    apply list_elem_of_here. }
  assert (is_Some (deref (assign ms1 r (fun _ => m')) next)) as [nm' ->].
  { rewrite deref_assign. case_decide; [| by eauto]. rewrite Hnm. by eauto. }
  done.
Qed.

Lemma schedule_loop_spec ms0 n scheduler fuel : forall st,
  wf_messages n ms0 -> Inv ms0 n st -> progress st ->
  (length (pending st) <= fuel)%nat ->
  exists st', schedule_loop idx scheduler fuel st = Some st' /\
              Inv ms0 n st' /\ pending st' = [].
Proof.
  induction fuel as [| fuel IH]; intros st Hwf HI Hpr Hlen.
  - exists st. destruct (pending st) eqn:Hp; [| simpl in Hlen; lia].
    unfold pending in Hp. apply app_eq_nil in Hp as [Hp1 Hp2].
    simpl. rewrite Hp1. done.
  - simpl. destruct (st_priority st) as [| r pq] eqn:Hpq.
    + exists st. split; [done |]. split; [done |].
      unfold pending. rewrite Hpq. simpl. apply concat_nil_queues.
      intros c q Hc. destruct q as [| x q]; [done |].
      destruct (Hpr c (x :: q) Hc) as (r' & Hr' & _); [done |].
      rewrite Hpq in Hr'. by apply elem_of_nil in Hr'.
    + destruct (schedule_step_total ms0 n scheduler st HI) as [st1 Hst1];
        [by rewrite Hpq |].
      rewrite Hst1. simpl.
      destruct (schedule_step_preserves _ _ _ _ _ Hwf HI Hpr Hst1) as (HI1 & Hpr1 & Hl1).
      apply IH; [done | done | done | lia].
Qed.

End LoopFacts.

(** ** The scheduler: the first state *)

Lemma deref_is_Some (ms : Messages) (r : MessageRef) :
  is_Some (deref ms r) <-> (r.2 < length (default [] (ms !! r.1)))%nat.
Proof.
  unfold deref. destruct (ms !! r.1) as [q |]; simpl.
  - apply lookup_lt_is_Some.
  - split; [intros [? ?]; done | lia].
Qed.

Lemma elem_of_refs_of_core ms c r :
  r ∈ refs_of_core ms c <-> r.1 = c /\ is_Some (deref ms r).
Proof.
  unfold refs_of_core. rewrite list_elem_of_fmap. split.
  - intros (p & -> & Hp). apply elem_of_seq in Hp. split; [done |].
    apply deref_is_Some. simpl. lia.
  - intros [<- H]. apply deref_is_Some in H. exists r.2. split; [by destruct r |].
    apply elem_of_seq. lia.
Qed.

Lemma elem_of_sent_per_core ms (n k : nat) r :
  r ∈ concat (refs_of_core ms <$> seq k n) <->
  (k <= r.1 < k + n)%nat /\ is_Some (deref ms r).
Proof.
  rewrite elem_of_concat. split.
  - intros (q & Hq & Hr). apply list_elem_of_fmap in Hq as (c & -> & Hc).
    apply elem_of_seq in Hc. apply elem_of_refs_of_core in Hr as [<- ?]. done.
  - intros [Hc Hr]. exists (refs_of_core ms r.1). split.
    + apply list_elem_of_fmap. exists r.1. split; [done |]. by apply elem_of_seq.
    + by apply elem_of_refs_of_core.
Qed.

Lemma NoDup_sent_per_core ms (n : nat) : forall k : nat,
  NoDup (concat (refs_of_core ms <$> seq k n)).
Proof.
  induction n as [| n IH]; intros k; simpl; [constructor |].
  apply NoDup_app. split; [| split].
  - unfold refs_of_core. apply NoDup_fmap_2; [| apply NoDup_seq].
    intros p p' H. by injection H.
  - intros r Hr Hr'. apply elem_of_refs_of_core in Hr as [Hc _].
    apply elem_of_sent_per_core in Hr' as [Hc' _]. lia.
  - apply IH.
Qed.

Lemma concat_replicate_nil {A} (n : nat) : concat (replicate n ([] : list A)) = [].
Proof. induction n; simpl; done. Qed.

Lemma elem_of_concat_deref (ms : Messages) (m : Message) :
  m ∈ concat ms <-> exists r, deref ms r = Some m.
Proof.
  rewrite elem_of_concat. split.
  - intros (q & Hq & Hm). apply list_elem_of_lookup in Hq as [c Hc].
    apply list_elem_of_lookup in Hm as [p Hp].
    exists (c, p). unfold deref. simpl. by rewrite Hc.
  - intros ([c p] & Hr). unfold deref in Hr. simpl in Hr.
    destruct (ms !! c) as [q |] eqn:Hc; [| done].
    exists q. split; by eapply list_elem_of_lookup_2.
Qed.

Lemma init_spec qs : forall ms p (k : nat) p' qs' ms',
  schedule_init_timing_priority qs ms p = (p', qs', ms') ->
  (forall (i : nat) q r, qs !! i = Some q -> r ∈ q -> r.1 = (k + i)%nat) ->
  p' ++ concat qs' ≡ₚ p ++ concat qs /\
  (forall r, static <$> deref ms' r = static <$> deref ms r) /\
  (forall (i : nat) q r, qs' !! i = Some q -> r ∈ q -> r.1 = (k + i)%nat) /\
  (forall (i : nat) q, qs' !! i = Some q -> q <> [] ->
     exists r, r ∈ p' /\ r.1 = (k + i)%nat) /\
  (forall r, r ∈ p -> r ∈ p').
Proof.
  induction qs as [| q qs IH]; intros ms p k p' qs' ms' Hrun Hcore.
  - simpl in Hrun. injection Hrun as <- <- <-. by repeat split.
  - simpl in Hrun. destruct q as [| r q'].
    + destruct (schedule_init_timing_priority qs ms p) as [[p1 qs1] ms1] eqn:Hrec.
      injection Hrun as <- <- <-.
      destruct (IH ms p (S k) _ _ _ Hrec) as (A1 & A2 & A3 & A4 & A5).
      { intros i q r Hq Hr. pose proof (Hcore (S i) q r Hq Hr). lia. }
      split; [done |]. split; [done |]. split; [| split; [| done]].
      * intros [| i] q r Hq Hr; simpl in Hq.
        -- injection Hq as <-. by apply elem_of_nil in Hr.
        -- pose proof (A3 i q r Hq Hr). lia.
      * intros [| i] q Hq Hne; simpl in Hq.
        -- by injection Hq as <-.
        -- destruct (A4 i q Hq Hne) as (r & Hr & Hc). exists r. split; [done | lia].
    + destruct (schedule_init_timing_priority qs _ _) as [[p1 qs1] ms1] eqn:Hrec.
      injection Hrun as <- <- <-.
      destruct (IH _ _ (S k) _ _ _ Hrec) as (A1 & A2 & A3 & A4 & A5).
      { intros i q r0 Hq Hr. pose proof (Hcore (S i) q r0 Hq Hr). lia. }
      assert (Hr1 : r.1 = (k + 0)%nat) by (apply (Hcore 0%nat (r :: q')); [done | apply list_elem_of_here]).
      split; [| split; [| split; [| split]]].
      * simpl. rewrite (Permutation_app_swap_app p1 q'). rewrite A1.
        unfold pq_push. rewrite <- !app_assoc. simpl.
        rewrite (Permutation_app_swap_app q' p). f_equiv.
        by rewrite Permutation_middle.
      * intros r0. rewrite A2. by apply static_assign.
      * intros [| i] q r0 Hq Hr; simpl in Hq.
        -- injection Hq as <-. apply (Hcore 0%nat (r :: q')); [done |].
           by apply list_elem_of_further.
        -- pose proof (A3 i q r0 Hq Hr). lia.
      * intros [| i] q Hq Hne; simpl in Hq.
        -- exists r. split; [| done]. apply A5. unfold pq_push.
           apply elem_of_app. right. apply list_elem_of_here.
        -- destruct (A4 i q Hq Hne) as (r0 & Hr0 & Hc). exists r0. split; [done | lia].
      * intros r0 Hr0. apply A5. unfold pq_push. apply elem_of_app. by left.
Qed.

Section StartFacts.

Variable idx : Z -> Z -> Z -> Z -> Z -> Z -> nat.

Lemma schedule_start_inv ms0 scheduler :
  wf_messages (sched_core_count scheduler) ms0 ->
  Inv ms0 (sched_core_count scheduler) (schedule_start ms0 scheduler) /\
  progress (schedule_start ms0 scheduler).
Proof.
  intros Hwf. unfold schedule_start. simpl.
  set (n := sched_core_count scheduler) in *.
  destruct (schedule_init_timing_priority (messages_sent_per_core ms0 n) ms0 [])
    as [[p qs] ms1] eqn:Hinit.
  destruct (init_spec _ _ _ 0%nat _ _ _ Hinit) as (A1 & A2 & A3 & A4 & A5).
  { intros i q r Hq Hr. unfold messages_sent_per_core in Hq.
    rewrite list_lookup_fmap in Hq. destruct (seq 0 n !! i) as [c |] eqn:Hc; [| done].
    apply lookup_seq in Hc as [-> _]. injection Hq as <-.
    by apply elem_of_refs_of_core in Hr as [-> _]. }
  simpl in A1.
  assert (Hpend : forall r, r ∈ p ++ concat qs <-> is_Some (deref ms0 r)).
  { intros r. rewrite A1. unfold messages_sent_per_core.
    rewrite elem_of_sent_per_core. split; [by intros [_ ?] |].
    intros Hr. split; [| done]. destruct Hwf as [Hlen _].
    apply deref_is_Some in Hr. destruct (ms0 !! r.1) as [q |] eqn:Hq; simpl in Hr; [| lia].
    apply lookup_lt_Some in Hq. lia. }
  assert (Hdone : forall r m, deref ms1 r = Some m -> r ∉ p ++ concat qs -> False).
  { intros r m Hm Hr. apply Hr, Hpend. eapply is_Some_fmap_eq; [symmetry; apply A2 |].
    by rewrite Hm. }
  split.
  - constructor; simpl; unfold pending; simpl.
    + done.
    + rewrite A1. apply NoDup_sent_per_core.
    + intros r. apply Hpend.
    + intros c q r Hq Hr. pose proof (A3 c q r Hq Hr). lia.
    + apply length_replicate.
    + apply length_replicate.
    + rewrite concat_replicate_nil. split; [done |]. split; [| done].
      simpl. change (Qsum []) with 0%Q. lra.
    + lra.
    + intros r m Hm Hr. by destruct (Hdone r m Hm Hr).
    + intros r m Hm Hr. by destruct (Hdone r m Hm Hr).
    + by left.
  - intros c q Hq Hne. simpl in *. destruct (A4 c q Hq Hne) as (r & Hr & Hc).
    exists r. split; [done | lia].
Qed.

(** What [schedule_messages] returns, for well-formed messages. *)
Lemma schedule_messages_spec ms0 scheduler :
  wf_messages (sched_core_count scheduler) ms0 ->
  exists t out,
    schedule_messages idx ms0 scheduler = Some (t, out) /\
    (forall r, static <$> deref out r = static <$> deref ms0 r) /\
    (forall r m, deref out r = Some m -> placeholder m = false ->
       (sent_timestamp m <= received_timestamp m)%Q /\
       (received_timestamp m <= processed_timestamp m)%Q) /\
    (0 <= t)%Q /\
    (forall r m, deref out r = Some m -> (event_time m <= t)%Q) /\
    ((t == 0)%Q \/ exists r m, deref out r = Some m /\ (t == event_time m)%Q).
Proof.
  intros Hwf. destruct (schedule_start_inv ms0 scheduler Hwf) as [HI Hpr].
  destruct (schedule_loop_spec idx ms0 _ scheduler
              (length (pending (schedule_start ms0 scheduler))) _ Hwf HI Hpr)
    as (st & Hloop & HIst & Hpend); [done |].
  exists (st_last_timestamp st), (st_messages st).
  unfold schedule_messages. rewrite Hloop. simpl. split; [done |].
  split; [apply (inv_static _ _ _ HIst) |].
  split.
  { intros r m Hm Hph. apply (inv_order _ _ _ HIst r m Hm); [| done].
    rewrite Hpend. apply not_elem_of_nil. }
  split; [apply (inv_last _ _ _ HIst) |].
  split.
  { intros r m Hm. apply (inv_bound _ _ _ HIst r m Hm).
    rewrite Hpend. apply not_elem_of_nil. }
  destruct (inv_attained _ _ _ HIst) as [H | [(r & m & Hm & _ & H) | (r & Hr & _)]].
  - by left.
  - right. by exists r, m.
  - unfold pending in Hpend. apply app_eq_nil in Hpend as [Hp _].
    rewrite Hp in Hr. by apply elem_of_nil in Hr.
Qed.

End StartFacts.

(** ** The scheduler: what [schedule_messages] returns *)





Section SchedulerTheorems.

Variable idx : Z -> Z -> Z -> Z -> Z -> Z -> nat.

(** [schedule_messages] returns on every well-formed input: its loop
    ends within the rounds the model gives it. *)
Theorem schedule_messages_total ms scheduler :
  wf_messages (sched_core_count scheduler) ms ->
  is_Some (schedule_messages idx ms scheduler).
Proof.
  intros Hwf. destruct (schedule_messages_spec idx ms scheduler Hwf) as (t & out & H & _).
  by rewrite H.
Qed.


End SchedulerTheorems.

Lemma mixed_run_wf : wf_messages 2 mixed_run.
Proof.
  split; [simpl; lia |].
  intros c p m Hm. unfold deref in Hm. simpl in Hm.
  destruct c as [| [| c]]; simpl in Hm; [| by destruct p | done].
  destruct p as [| [| p]]; simpl in Hm; [| | done]; injection Hm as <-;
    (split; [done |]); simpl; (split; [lra |]); (split; [lra |]); intros _; try lia; done.
Qed.



(** ** The scheduler: back-pressure and link densities *)

Section BackPressure.

Variable idx : Z -> Z -> Z -> Z -> Z -> Z -> nat.

Lemma schedule_send_sent scheduler r m noc last :
  sent_timestamp (schedule_send idx scheduler r m noc last).1.1 =
  if Qgt_bool (schedule_calculate_messages_along_route idx m noc)
       (inject_Z (path_capacity scheduler m))
  then (sent_timestamp m +
        (schedule_calculate_messages_along_route idx m noc -
         inject_Z (path_capacity scheduler m)) * mean_in_flight_receive_delay noc)%Q
  else sent_timestamp m.
Proof.
  unfold schedule_send. simpl. by destruct (Qgt_bool _ _).
Qed.

Lemma route_erase m noc :
  schedule_calculate_messages_along_route idx m noc =
  schedule_calculate_messages_along_route idx (erase m) noc.
Proof. reflexivity. Qed.

(** C6.  A round of the loop that pops the spike message [m0], not yet
    sent, leaves it with its sending delayed by the density of its
    route in excess of (hops + 1) * buffer_size, times the mean receive
    delay of the messages in flight, when the density exceeds that
    capacity, and with its sending time as it was otherwise. *)
Theorem schedule_step_back_pressure scheduler st st' r m0 :
  pq_top (st_messages st) (st_priority st) = Some r ->
  deref (st_messages st) r = Some m0 ->
  placeholder m0 = false ->
  r ∉ concat (st_sent_per_core st) ->
  0 <= (hops m0 + 1) * buffer_size scheduler < size_t_modulus ->
  schedule_step idx scheduler st = Some st' ->
  let noc := (schedule_update_noc idx (sent_timestamp m0) (st_messages st) (st_noc st)).2 in
  let route_density := schedule_calculate_messages_along_route idx m0 noc in
  let capacity := inject_Z ((hops m0 + 1) * buffer_size scheduler) in
  exists m, deref (st_messages st') r = Some m /\
    ((capacity < route_density)%Q ->
     (sent_timestamp m ==
      sent_timestamp m0 + (route_density - capacity) * mean_in_flight_receive_delay noc)%Q) /\
    ((route_density <= capacity)%Q -> (sent_timestamp m == sent_timestamp m0)%Q).
Proof.
  intros Hr Hm0 Hph Hq Hcap Hstep.
  destruct (schedule_step_inv idx _ _ _ Hstep)
    as (r' & m0' & ms1 & noc1 & m & m' & noc2 & last2 & Hr' & Hm0' & Hu & Hm & Hs & Hnext).
  assert (r' = r) as -> by congruence. assert (m0' = m0) as -> by congruence.
  rewrite Hu. simpl.
  destruct (schedule_update_noc_spec idx (rd_of (st_messages st)) _ _ _ _ _ Hu)
    as (E1 & _); [done |].
  destruct (erase_deref _ _ _ _ (E1 r) Hm) as (m0' & Hm0'' & Em).
  assert (m0' = m0) as -> by congruence.
  destruct (erase_fields _ _ Em) as (Es & _ & _ & Eph & _ & _).
  rewrite Eph, Hph in Hs.
  pose proof (schedule_send_sent scheduler r m noc1
                (fmax (st_last_timestamp st) (sent_timestamp m0))) as Hsent.
  rewrite Hs in Hsent. simpl in Hsent.
  assert (Hpc : path_capacity scheduler m = (hops m0 + 1) * buffer_size scheduler).
  { unfold path_capacity. rewrite (f_equal hops Em : hops m = hops m0).
    by apply Z.mod_small. }
  rewrite Hpc, route_erase, Em, <- route_erase, Es in Hsent.
  exists m'. split.
  - simpl in Hnext. destruct Hnext as [(next & q' & nm & Hnq & _ & ->) | [_ ->]]; simpl.
    + rewrite deref_assign_ne.
      * by rewrite deref_assign_eq, Hm.
      * intros Heq. subst next. apply Hq. apply elem_of_concat. exists (r :: q').
        split; [by eapply list_elem_of_lookup_2 | apply list_elem_of_here].
    + by rewrite deref_assign_eq, Hm.
  - rewrite Hsent. split; intros H.
    + apply Qgt_bool_true in H. rewrite H. reflexivity.
    + apply Qgt_bool_false in H. rewrite H. reflexivity.
Qed.

End BackPressure.

Lemma schedule_step_back_pressure_witness :
  exists m, deref (st_messages congested_next) (0, 1)%nat = Some m /\
            (sent_timestamp m == 2 + (2 # 3) * 10)%Q.
Proof.
  destruct (schedule_step_back_pressure row_major_idx (two_tiles 0)
              congested_state congested_next (0, 1)%nat congested_message)
    as (m & Hm & Hyes & _).
  - vm_compute. reflexivity.
  - vm_compute. reflexivity.
  - reflexivity.
  - rewrite list_elem_of_In. vm_compute. intros H. exact H.
  - vm_compute. split; [discriminate | reflexivity].
  - vm_compute. reflexivity.
  - exists m. split; [exact Hm |]. rewrite Hyes.
    + vm_compute. reflexivity.
    + vm_compute. reflexivity.
Defined.

(** C1.  A message that goes one hop adds 1/3 to two entries of the
    density vector, 2/3 in all, and nothing to the link into the
    destination core; the comment in the source says the densities it
    adds sum to one. *)
Theorem density_update_one_hop :
  let noc := noc_init (two_tiles 1) in
  let m := one_hop 1%Q 0%Q 0%Q in
  let noc' := schedule_update_noc_message_counts row_major_idx m noc true in
  hops m = 1 /\
  (density_adjust m true == 1 # 3)%Q /\
  (Qsum (message_density noc') == 2 # 3)%Q /\
  (vec_get (message_density noc')
     (noc_idx row_major_idx noc (dest_x m) (dest_y m) (ndirections + dest_core_offset m)) == 0)%Q.
Proof. vm_compute. repeat split. Qed.

Lemma congested_run_wf : wf_messages 2 congested_run.
Proof.
  split; [simpl; lia |].
  intros c p m Hm. unfold deref in Hm. simpl in Hm.
  destruct c as [| [| c]]; simpl in Hm; [| by destruct p | done].
  destruct p as [| [| p]]; simpl in Hm; [| | done]; injection Hm as <-;
    (split; [done |]); simpl; (split; [lra |]); (split; [lra |]); intros _; lia.
Qed.

(** The scheduler on [congested_run]: the first message is sent at 1,
    received at 6 and processed at 16; the second waits for the first
    and is sent at 26/3, received at 16 and processed at 26. *)
Lemma schedule_messages_congested_run :
  match schedule_messages row_major_idx congested_run (two_tiles 0) with
  | Some (t, out) =>
      (fun m => (sent_timestamp m, received_timestamp m, processed_timestamp m)) <$> concat out
        = [(1%Q, 6%Q, 16%Q); ((78 # 9)%Q, 16%Q, 26%Q)] /\ t = 26%Q
  | None => False
  end.
Proof. vm_compute. split; reflexivity. Qed.

(** ** The pipeline: a round of the soma *)


Section SomaFacts.

Context {SomaModel DendriteModel SynapseModel DendriteParams : Type}.
Variable soma_update : SomaModel -> option Q -> NeuronStatus * SomaModel.
Variable dendrite_update :
  DendriteModel -> option (@Synapse DendriteParams) -> Q * DendriteModel.
Variable synapse_update : SynapseModel -> option Z -> Q * SynapseModel.

Local Abbreviation State := (@PState SomaModel DendriteModel SynapseModel DendriteParams).
Local Abbreviation NeuronT := (@Neuron SomaModel DendriteModel DendriteParams).



End SomaFacts.

(** ** What the log says *)

Lemma fmap_insert_static {A B} (f : A -> B) (l : list A) (i : nat) (x y : A) :
  l !! i = Some x -> f y = f x -> f <$> <[i := y]> l = f <$> l.
Proof.
  intros Hx Hf. rewrite list_fmap_insert. apply list_insert_id.
  rewrite list_lookup_fmap, Hx. simpl. congruence.
Qed.

Lemma reported_latency_app l1 l2 :
  (reported_latency (l1 ++ l2) == reported_latency l1 + reported_latency l2)%Q.
Proof. unfold reported_latency. by rewrite fmap_app, Qsum_app. Qed.

Lemma message_charges_app a l1 l2 :
  (message_charges a (l1 ++ l2) == message_charges a l1 + message_charges a l2)%Q.
Proof. unfold message_charges. by rewrite fmap_app, Qsum_app. Qed.

Lemma unit_calls_app l1 l2 : unit_calls (l1 ++ l2) = unit_calls l1 ++ unit_calls l2.
Proof. apply omap_app. Qed.

Lemma model_events_silent a evs :
  Forall is_model_event evs ->
  unit_calls evs = [] /\ (reported_latency evs == 0)%Q /\ (message_charges a evs == 0)%Q.
Proof.
  induction 1 as [| e evs He _ (IH1 & IH2 & IH3)]; [by repeat split |].
  destruct e as [u i l | i c]; [done |].
  split; [done |]. split.
  - change (reported_latency (SomaModelUpdate i c :: evs))
      with (0 + reported_latency evs)%Q. lra.
  - change (message_charges a (SomaModelUpdate i c :: evs))
      with (0 + message_charges a evs)%Q. lra.
Qed.

Section MonadFacts.

Context {SomaModel DendriteModel SynapseModel DendriteParams : Type}.
Variable soma_update : SomaModel -> option Q -> NeuronStatus * SomaModel.
Variable dendrite_update :
  DendriteModel -> option (@Synapse DendriteParams) -> Q * DendriteModel.
Variable synapse_update : SynapseModel -> option Z -> Q * SynapseModel.

Local Abbreviation State := (@PState SomaModel DendriteModel SynapseModel DendriteParams).
Local Abbreviation NeuronT := (@Neuron SomaModel DendriteModel DendriteParams).
Local Abbreviation CoreT := (@Core SomaModel DendriteModel SynapseModel DendriteParams).
Local Abbreviation Comp := (@PM SomaModel DendriteModel SynapseModel DendriteParams).

(** *** Inversion of the monad *)

Lemma bind_inv {A B} (c : Comp A) (k : A -> Comp B) (s : State) r :
  bind c k s = Ok r -> exists a s1, c s = Ok (a, s1) /\ k a s1 = Ok r.
Proof.
  unfold bind. destruct (c s) as [[a s1] | f]; [| done]. intros H. by exists a, s1.
Qed.

Lemma ret_inv {A} (a b : A) (s s' : State) : ret a s = Ok (b, s') -> b = a /\ s' = s.
Proof. unfold ret. by intros [= -> ->]. Qed.

Lemma get_core_inv (s s' : State) c : get_core s = Ok (c, s') -> c = ps_core s /\ s' = s.
Proof. unfold get_core. by intros [= <- <-]. Qed.

Lemma modify_core_inv f (s s' : State) u :
  modify_core f s = Ok (u, s') ->
  s' = mkPState (f (ps_core s)) (ps_messages s) (ps_log s).
Proof. unfold modify_core. by intros [= _ <-]. Qed.

Lemma record_inv e (s s' : State) u :
  record e s = Ok (u, s') ->
  s' = mkPState (ps_core s) (ps_messages s) (ps_log s ++ [e]).
Proof. unfold record. by intros [= _ <-]. Qed.

Lemma assert_not_null_inv {A} f (o : option A) (s s' : State) a :
  assert_not_null f o s = Ok (a, s') -> o = Some a /\ s' = s.
Proof. unfold assert_not_null. destruct o; [| done]. by intros [= -> ->]. Qed.

Lemma access_inv {A} (o : option A) (s s' : State) a :
  access o s = Ok (a, s') -> o = Some a /\ s' = s.
Proof. apply assert_not_null_inv. Qed.

Lemma assert_inv f b (s s' : State) u :
  assert f b s = Ok (u, s') -> b = true /\ s' = s.
Proof. unfold assert. destruct b; [| done]. by intros [= _ <-]. Qed.

Lemma get_neuron_inv i (s s' : State) n :
  get_neuron i s = Ok (n, s') -> neurons (ps_core s) !! i = Some n /\ s' = s.
Proof.
  unfold get_neuron. intros H. apply bind_inv in H as (c & s1 & H1 & H2).
  apply get_core_inv in H1 as [-> ->]. by apply access_inv in H2.
Qed.

Lemma put_neuron_inv i n (s s' : State) u :
  put_neuron i n s = Ok (u, s') ->
  s' = mkPState (set_neurons (<[i := n]> (neurons (ps_core s))) (ps_core s))
         (ps_messages s) (ps_log s).
Proof. unfold put_neuron. intros H. by apply modify_core_inv in H. Qed.

Lemma push_message_inv m (s s' : State) u :
  push_message m s = Ok (u, s') ->
  exists q, ps_messages s !! core_id (ps_core s) = Some q /\
    s' = mkPState (ps_core s) (<[core_id (ps_core s) := q ++ [m]]> (ps_messages s)) (ps_log s).
Proof.
  unfold push_message. destruct (ps_messages s !! core_id (ps_core s)) as [q |]; [| done].
  intros [= _ <-]. by exists q.
Qed.

End MonadFacts.

Ltac monad_inv :=
  repeat match goal with
  | H : bind _ _ _ = Ok _ |- _ =>
      let a := fresh "a" in let s := fresh "s" in let H1 := fresh "H" in
      apply bind_inv in H as (a & s & H1 & H); cbv beta zeta in H
  | H : ret _ _ = Ok _ |- _ => apply ret_inv in H as [? ?]; subst
  | H : get_core _ = Ok _ |- _ => apply get_core_inv in H as [? ?]; subst
  | H : modify_core _ _ = Ok _ |- _ => apply modify_core_inv in H; subst
  | H : record _ _ = Ok _ |- _ => apply record_inv in H; subst
  | H : access _ _ = Ok _ |- _ => apply access_inv in H as [H ?]; subst
  | H : assert_not_null _ _ _ = Ok _ |- _ => apply assert_not_null_inv in H as [H ?]; subst
  | H : assert _ _ _ = Ok _ |- _ => apply assert_inv in H as [H ?]; subst
  | H : get_neuron _ _ = Ok _ |- _ => apply get_neuron_inv in H as [H ?]; subst
  | H : put_neuron _ _ _ = Ok _ |- _ => apply put_neuron_inv in H; subst
  end.

(** ** The pipeline: the units *)

Section UnitFacts.

Context {SomaModel DendriteModel SynapseModel DendriteParams : Type}.
Variable soma_update : SomaModel -> option Q -> NeuronStatus * SomaModel.
Variable dendrite_update :
  DendriteModel -> option (@Synapse DendriteParams) -> Q * DendriteModel.
Variable synapse_update : SynapseModel -> option Z -> Q * SynapseModel.

Local Abbreviation State := (@PState SomaModel DendriteModel SynapseModel DendriteParams).
Local Abbreviation NeuronT := (@Neuron SomaModel DendriteModel DendriteParams).
Local Abbreviation CoreT := (@Core SomaModel DendriteModel SynapseModel DendriteParams).

Lemma frame_refl (s : State) : frame s s.
Proof. done. Qed.

Lemma frame_trans (s1 s2 s3 : State) : frame s1 s2 -> frame s2 s3 -> frame s1 s3.
Proof. intros (A1 & A2 & A3) (B1 & B2 & B3). repeat split; congruence. Qed.

Lemma frame_addresses (s s' : State) :
  frame s s' -> addresses_of (ps_core s') = addresses_of (ps_core s).
Proof.
  intros (_ & _ & H). unfold addresses_of.
  assert (E : forall l : list NeuronT,
    axon_out_addresses <$> l = (fun t : Z * list Z * nat * nat => t.1.1.2) <$> (neuron_static <$> l)).
  { intros l. rewrite <- list_fmap_compose. done. }
  by rewrite !E, H.
Qed.

Lemma effect_refl (s : State) : effect s s [] [].
Proof. split; [done |]. by rewrite !app_nil_r. Qed.

Lemma effect_trans (s1 s2 s3 : State) new1 new2 evs1 evs2 :
  effect s1 s2 new1 evs1 -> effect s2 s3 new2 evs2 ->
  effect s1 s3 (new1 ++ new2) (evs1 ++ evs2).
Proof.
  intros (F1 & Q1 & L1) (F2 & Q2 & L2). split; [by eapply frame_trans |].
  rewrite Q2, Q1, L2, L1. by rewrite !app_assoc.
Qed.

(** Writing a neuron back. *)
Lemma put_neuron_effect (s : State) (i : nat) (n n' : NeuronT) :
  neurons (ps_core s) !! i = Some n ->
  neuron_static n' = neuron_static n ->
  effect s (mkPState (set_neurons (<[i := n']> (neurons (ps_core s))) (ps_core s))
              (ps_messages s) (ps_log s)) [] [].
Proof.
  intros Hn Hs. split; [| by rewrite !app_nil_r].
  split; [done |]. split; [done |]. simpl. by eapply fmap_insert_static.
Qed.

Lemma record_effect (s : State) e :
  effect s (mkPState (ps_core s) (ps_messages s) (ps_log s ++ [e])) [] [e].
Proof. split; [done |]. split; [by rewrite app_nil_r | done]. Qed.

(** *** The dendrite *)

Lemma dendrite_catch_up_static rounds : forall n : NeuronT,
  neuron_static (dendrite_catch_up dendrite_update rounds n) = neuron_static n.
Proof.
  induction rounds as [| k IH]; intros n; [done |].
  simpl. destruct (dendrite_update (dendrite_model n) None) as [c m]. by rewrite IH.
Qed.

Lemma dendrite_inputs_static synapses : forall n : NeuronT,
  neuron_static (foldl (dendrite_input dendrite_update) n synapses) = neuron_static n.
Proof.
  induction synapses as [| x l IH]; intros n; [done |].
  simpl. rewrite IH. unfold dendrite_input.
  by destruct (dendrite_update (dendrite_model n) (Some x)).
Qed.

Lemma pipeline_process_dendrite_spec ts i (s s' : State) l :
  pipeline_process_dendrite dendrite_update ts i s = Ok (l, s') ->
  l = 0%Q /\
  next_message_generation_delay (ps_core s') = next_message_generation_delay (ps_core s) /\
  effect s s' [] [UnitCall DendriteU (Z.of_nat i) 0%Q].
Proof.
  unfold pipeline_process_dendrite. intros H. monad_inv.
  split; [done |]. split; [done |].
  eapply (effect_trans _ _ _ [] [] [] [_]); [| apply record_effect].
  eapply put_neuron_effect; [done |].
  change (neuron_static (set_dendrite_input_synapses [] ?n)) with (neuron_static n).
  by rewrite dendrite_inputs_static, dendrite_catch_up_static.
Qed.

(** *** The soma *)

Lemma soma_step_static (n : NeuronT) hw latency :
  neuron_static (soma_step soma_update n hw latency).1.1 = neuron_static n.
Proof.
  unfold soma_step. simpl.
  destruct (soma_current_in n); simpl;
    destruct (soma_update _ _) as [st m]; simpl;
    destruct (0 <? forced_spikes n); simpl; by destruct st.
Qed.

Lemma soma_round_spec i latency (s s' : State) l :
  soma_round soma_update i latency s = Ok (l, s') ->
  next_message_generation_delay (ps_core s') = next_message_generation_delay (ps_core s) /\
  exists (n : NeuronT) hw,
    neurons (ps_core s) !! i = Some n /\
    soma_units (ps_core s) !! soma_hw n = Some hw /\
    l = (soma_step soma_update n hw latency).2 /\
    neurons (ps_core s') !! i = Some (soma_step soma_update n hw latency).1.1 /\
    effect s s' [] [SomaModelUpdate (Z.of_nat i) (soma_current_in n)].
Proof.
  unfold soma_round. intros H. monad_inv.
  split; [done |]. exists a, a1. split; [done |]. split; [done |]. split; [done |].
  split.
  { cbn [ps_core neurons set_neurons]. apply list_lookup_insert_eq.
    cbn [ps_core neurons set_soma_units]. by eapply lookup_lt_Some. }
  eapply (effect_trans _ _ _ [] [] [_] []); [apply record_effect |].
  split; [| by rewrite !app_nil_r].
  split; [done |]. split; [done |]. cbn [ps_core neurons set_neurons set_soma_units].
  apply (fmap_insert_static _ _ _ a); [done |]. apply soma_step_static.
Qed.

Lemma soma_rounds_spec rounds i : forall latency (s s' : State) l,
  soma_rounds soma_update rounds i latency s = Ok (l, s') ->
  next_message_generation_delay (ps_core s') = next_message_generation_delay (ps_core s) /\
  exists evs, Forall is_model_event evs /\ length evs = rounds /\ effect s s' [] evs.
Proof.
  induction rounds as [| k IH]; intros latency s s' l H.
  - simpl in H. monad_inv. split; [done |]. exists []. split; [done |]. split; [done |].
    apply effect_refl.
  - simpl in H. monad_inv.
    destruct (soma_round_spec _ _ _ _ _ H0) as (A1 & n & hw & _ & _ & _ & _ & A2).
    destruct (IH _ _ _ _ H) as (B1 & evs & B2 & B3 & B4).
    split; [congruence |].
    exists (SomaModelUpdate (Z.of_nat i) (soma_current_in n) :: evs).
    split; [by constructor |].
    split; [simpl; congruence |].
    apply (effect_trans s s0 s' [] [] [SomaModelUpdate (Z.of_nat i) (soma_current_in n)] evs);
      done.
Qed.

Lemma pipeline_process_soma_spec ts i (s s' : State) l :
  pipeline_process_soma soma_update ts i s = Ok (l, s') ->
  next_message_generation_delay (ps_core s') = next_message_generation_delay (ps_core s) /\
  exists evs, Forall is_model_event evs /\
    effect s s' [] (evs ++ [UnitCall SomaU (Z.of_nat i) l]).
Proof.
  unfold pipeline_process_soma. intros H. monad_inv.
  destruct (soma_rounds_spec _ _ _ _ _ _ H1) as (A1 & evs & A2 & _ & A3).
  split; [done |]. exists evs. split; [done |].
  eapply (effect_trans _ _ _ [] []); [done | apply record_effect].
Qed.

End UnitFacts.

Section AxonOutFacts.

Context {SomaModel DendriteModel SynapseModel DendriteParams : Type}.
Variable soma_update : SomaModel -> option Q -> NeuronStatus * SomaModel.
Variable dendrite_update :
  DendriteModel -> option (@Synapse DendriteParams) -> Q * DendriteModel.
Variable synapse_update : SynapseModel -> option Z -> Q * SynapseModel.

Local Abbreviation State := (@PState SomaModel DendriteModel SynapseModel DendriteParams).
Local Abbreviation NeuronT := (@Neuron SomaModel DendriteModel DendriteParams).
Local Abbreviation CoreT := (@Core SomaModel DendriteModel SynapseModel DendriteParams).

Variable placeholder_message : CoreT -> NeuronT -> Z -> Message.
Variable spike_message : CoreT -> NeuronT -> Z -> Z -> Message.

(** *** The axon output *)

Lemma push_message_effect (s s' : State) m u :
  push_message m s = Ok (u, s') ->
  ps_core s' = ps_core s /\ effect s s' [m] [].
Proof.
  intros H. apply push_message_inv in H as (q & Hq & ->).
  split; [done |]. split; [done |]. split; [| by rewrite app_nil_r].
  unfold queue_of. simpl. rewrite Hq. simpl.
  rewrite list_lookup_insert_eq by (by eapply lookup_lt_Some). done.
Qed.

Lemma axon_out_send_spec ts i address (s s' : State) u :
  axon_out_send spike_message ts i address s = Ok (u, s') ->
  exists (n : NeuronT) hw m,
    neurons (ps_core s) !! i = Some n /\
    axon_out_units (ps_core s) !! axon_out_hw n = Some hw /\
    neurons (ps_core s') = neurons (ps_core s) /\
    axon_out_units (ps_core s') !! axon_out_hw n =
      Some (mkAxonOutUnit (packets_out hw + 1) (latency_access hw)) /\
    next_message_generation_delay (ps_core s') = 0%Q /\
    generation_delay m =
      (next_message_generation_delay (ps_core s) + latency_access hw)%Q /\
    effect s s' [m] [].
Proof.
  unfold axon_out_send. intros H. monad_inv.
  apply push_message_effect in H4 as [Hc He].
  match type of He with effect _ _ [?m] _ => exists a, a1, m end.
  split; [done |]. split; [done |].
  split; [cbn; by rewrite Hc |].
  split.
  { cbn. rewrite Hc. cbn. apply list_lookup_insert_eq. by eapply lookup_lt_Some. }
  split; [cbn; by rewrite Hc |].
  split; [reflexivity |].
  destruct He as (F & Q1 & L1). split; [| split].
  - destruct F as (F1 & F2 & F3). split; [| split]; cbn; rewrite Hc; done.
  - unfold queue_of in *. cbn in *. rewrite Hc. rewrite Hc in Q1. exact Q1.
  - cbn in *. by rewrite L1.
Qed.

Lemma axon_out_loop_spec ts i (n : NeuronT) la addresses : forall (s s' : State) u,
  for_each addresses (axon_out_send spike_message ts i) s = Ok (u, s') ->
  neurons (ps_core s) !! i = Some n ->
  (exists hw, axon_out_units (ps_core s) !! axon_out_hw n = Some hw /\ latency_access hw = la) ->
  neurons (ps_core s') = neurons (ps_core s) /\
  (exists hw, axon_out_units (ps_core s') !! axon_out_hw n = Some hw /\ latency_access hw = la) /\
  next_message_generation_delay (ps_core s') =
    match addresses with
    | [] => next_message_generation_delay (ps_core s)
    | _ => 0%Q
    end /\
  exists new,
    effect s s' new [] /\
    generation_delay <$> new =
      axon_out_delays (next_message_generation_delay (ps_core s)) la addresses.
Proof.
  induction addresses as [| a rest IH]; intros s s' u H Hn Hhw.
  - simpl in H. monad_inv. split; [done |]. split; [done |]. split; [done |].
    exists []. split; [apply effect_refl | done].
  - simpl in H. monad_inv.
    destruct (axon_out_send_spec _ _ _ _ _ _ H0)
      as (n' & hw & m & A1 & A2 & A3 & A4 & A5 & A6 & A8).
    assert (n' = n) as -> by congruence.
    destruct Hhw as (hw0 & Hhw0 & Hla). assert (hw0 = hw) as -> by congruence.
    destruct (IH _ _ _ H) as (B1 & B2 & B3 & new & B4 & B5).
    { by rewrite A3. }
    { eexists. split; [exact A4 | done]. }
    split; [congruence |]. split; [done |].
    split; [rewrite B3; destruct rest; [exact A5 | done] |].
    exists (m :: new). split; [by apply (effect_trans s s0 s' [m] new [] []) |].
    rewrite fmap_cons, B5, A5, A6, Hla.
    unfold axon_out_delays. by destruct rest.
Qed.

Lemma pipeline_process_axon_out_spec ts i (s s' : State) l :
  pipeline_process_axon_out spike_message ts i s = Ok (l, s') ->
  exists n : NeuronT,
    neurons (ps_core s) !! i = Some n /\
    ((axon_out_input_spike n = false /\ l = 0%Q /\
      next_message_generation_delay (ps_core s') =
        next_message_generation_delay (ps_core s) /\
      effect s s' [] [UnitCall AxonOutU (Z.of_nat i) 0%Q]) \/
     (axon_out_input_spike n = true /\
      exists hw new,
        axon_out_units (ps_core s) !! axon_out_hw n = Some hw /\
        l = latency_access hw /\
        next_message_generation_delay (ps_core s') =
          match axon_out_addresses n with
          | [] => next_message_generation_delay (ps_core s)
          | _ => 0%Q
          end /\
        generation_delay <$> new =
          axon_out_delays (next_message_generation_delay (ps_core s)) (latency_access hw)
            (axon_out_addresses n) /\
        effect s s' new [UnitCall AxonOutU (Z.of_nat i) (latency_access hw)])).
Proof.
  unfold pipeline_process_axon_out. intros H. monad_inv.
  exists a. split; [done |].
  destruct (axon_out_input_spike a) eqn:Hspike; simpl in H.
  - right. split; [done |]. monad_inv.
    cbn [ps_core neurons set_neurons axon_out_units] in H4.
    cbn [ps_core ps_messages ps_log set_neurons next_message_generation_delay].
    assert (Hhw : exists hw, axon_out_units (ps_core s) !! axon_out_hw a = Some hw).
    { destruct (axon_out_addresses a) as [| a5 rest].
      - simpl in H1. monad_inv. by exists a3.
      - simpl in H1. monad_inv.
        match goal with
        | Hs : axon_out_send _ _ _ _ _ = Ok _ |- _ =>
            destruct (axon_out_send_spec _ _ _ _ _ _ Hs) as (n' & hw & _ & A1 & A2 & _)
        end.
        assert (n' = a) as -> by congruence. by exists hw. }
    destruct Hhw as [hw Hhw].
    destruct (axon_out_loop_spec ts i a (latency_access hw) _ _ _ _ H1 H0)
      as (B1 & (hw' & B2 & B2') & B3 & new & B4 & B5); [by exists hw |].
    assert (hw' = a3) as -> by congruence.
    exists hw, new. split; [done |]. split; [done |]. split; [done |].
    split; [done |]. rewrite B2'.
    pose proof (put_neuron_effect s0 i a (set_axon_out_input_spike false a)) as E1.
    rewrite B1 in E1. specialize (E1 H0 eq_refl).
    pose proof (effect_trans _ _ _ _ _ _ _ B4
                  (effect_trans _ _ _ _ _ _ _ E1
                     (record_effect _ (UnitCall AxonOutU (Z.of_nat i) (latency_access hw)))))
      as E.
    rewrite !app_nil_r in E. rewrite B1. exact E.
  - left. monad_inv. split; [done |]. split; [done |]. split; [done |].
    apply record_effect.
Qed.

End AxonOutFacts.

(** ** The pipeline: a neuron *)

Lemma Qsum_later_delays la (rest : list Z) :
  (Qsum ((fun _ => (0 + la)%Q) <$> rest) == inject_Z (Z.of_nat (length rest)) * la)%Q.
Proof.
  induction rest as [| a rest IH].
  - change (Qsum _) with 0%Q. change (inject_Z _) with 0%Q. lra.
  - rewrite fmap_cons.
    change (Qsum ((0 + la)%Q :: ?l)) with ((0 + la) + Qsum l)%Q.
    rewrite IH. cbn [length]. rewrite Nat2Z.inj_succ. unfold Z.succ.
    rewrite inject_Z_plus. change (inject_Z 1) with 1%Q. lra.
Qed.

Lemma Qsum_axon_out_delays acc la (addresses : list Z) :
  (Qsum (axon_out_delays acc la addresses) +
   match addresses with [] => acc | _ => 0 end ==
   acc + inject_Z (Z.of_nat (length addresses)) * la)%Q.
Proof.
  destruct addresses as [| a rest]; unfold axon_out_delays.
  - change (Qsum []) with 0%Q. change (inject_Z _) with 0%Q. lra.
  - change (Qsum ((acc + la)%Q :: ?l)) with ((acc + la) + Qsum l)%Q.
    rewrite Qsum_later_delays. cbn [length]. rewrite Nat2Z.inj_succ. unfold Z.succ.
    rewrite inject_Z_plus. change (inject_Z 1) with 1%Q. lra.
Qed.

Section NeuronFacts.

Context {SomaModel DendriteModel SynapseModel DendriteParams : Type}.
Variable soma_update : SomaModel -> option Q -> NeuronStatus * SomaModel.
Variable dendrite_update :
  DendriteModel -> option (@Synapse DendriteParams) -> Q * DendriteModel.
Variable synapse_update : SynapseModel -> option Z -> Q * SynapseModel.

Local Abbreviation State := (@PState SomaModel DendriteModel SynapseModel DendriteParams).
Local Abbreviation NeuronT := (@Neuron SomaModel DendriteModel DendriteParams).
Local Abbreviation CoreT := (@Core SomaModel DendriteModel SynapseModel DendriteParams).

Variable placeholder_message : CoreT -> NeuronT -> Z -> Message.
Variable spike_message : CoreT -> NeuronT -> Z -> Z -> Message.

Lemma accounted_refl (s : State) latency : accounted s s [] [] latency latency.
Proof.
  split; [apply effect_refl |]. unfold reported_latency, message_charges.
  change (Qsum (_ <$> [])) with 0%Q. split; lra.
Qed.

Lemma accounted_trans (s1 s2 s3 : State) new1 new2 evs1 evs2 l1 l2 l3 :
  accounted s1 s2 new1 evs1 l1 l2 -> accounted s2 s3 new2 evs2 l2 l3 ->
  accounted s1 s3 (new1 ++ new2) (evs1 ++ evs2) l1 l3.
Proof.
  intros (E1 & L1 & B1) (E2 & L2 & B2).
  split; [by eapply effect_trans |].
  rewrite reported_latency_app, message_charges_app, fmap_app, Qsum_app.
  destruct E1 as (F1 & _). rewrite (frame_addresses _ _ F1) in B2.
  split; lra.
Qed.

Lemma dendrite_stage (b : bool) ts i latency (s s' : State) l :
  (if b
   then bind (pipeline_process_dendrite dendrite_update ts i)
          (fun l => ret (latency + l)%Q)
   else ret latency) s = Ok (l, s') ->
  exists evs, unit_calls evs = (if b then [DendriteU] else []) /\
              accounted s s' [] evs latency l.
Proof.
  destruct b; intros H; monad_inv.
  - destruct (pipeline_process_dendrite_spec _ _ _ _ _ _ H0) as (-> & A1 & A2).
    exists [UnitCall DendriteU (Z.of_nat i) 0%Q]. split; [reflexivity |]. split; [done |].
    unfold reported_latency, message_charges. rewrite A1. simpl.
    change (Qsum []) with 0%Q. unfold Qsum. simpl. split; lra.
  - exists []. split; [done |]. apply accounted_refl.
Qed.

Lemma soma_stage (b : bool) ts i latency (s s' : State) l :
  (if b
   then bind (pipeline_process_soma soma_update ts i)
          (fun l => ret (latency + l)%Q)
   else ret latency) s = Ok (l, s') ->
  exists evs, unit_calls evs = (if b then [SomaU] else []) /\
              accounted s s' [] evs latency l.
Proof.
  destruct b; intros H; monad_inv.
  - destruct (pipeline_process_soma_spec _ _ _ _ _ _ H0) as (A1 & evs & A2 & A3).
    destruct (model_events_silent (addresses_of (ps_core s)) evs A2) as (M1 & M2 & M3).
    exists (evs ++ [UnitCall SomaU (Z.of_nat i) a]). split; [| split; [exact A3 |]].
    + by rewrite unit_calls_app, M1.
    + rewrite reported_latency_app, message_charges_app, M2, M3, A1.
      unfold reported_latency, message_charges. simpl.
      change (Qsum []) with 0%Q. unfold Qsum. simpl. split; lra.
  - exists []. split; [done |]. apply accounted_refl.
Qed.

Lemma axon_out_stage (b : bool) ts i latency (s s' : State) l :
  (if b
   then bind (pipeline_process_axon_out spike_message ts i)
          (fun l => ret (latency + l)%Q)
   else ret latency) s = Ok (l, s') ->
  exists new evs, unit_calls evs = (if b then [AxonOutU] else []) /\
                  accounted s s' new evs latency l.
Proof.
  destruct b; intros H; monad_inv.
  - destruct (pipeline_process_axon_out_spec _ _ _ _ _ _ H0)
      as (n & Hn & [(_ & -> & A1 & A2) | (_ & hw & new & A1 & -> & A2 & A3 & A4)]).
    + exists [], [UnitCall AxonOutU (Z.of_nat i) 0%Q]. split; [done |]. split; [done |].
      unfold reported_latency, message_charges. rewrite A1. simpl.
      change (Qsum []) with 0%Q. unfold Qsum. simpl. split; lra.
    + exists new, [UnitCall AxonOutU (Z.of_nat i) (latency_access hw)].
      split; [done |]. split; [done |].
      rewrite A3, A2.
      pose proof (Qsum_axon_out_delays (next_message_generation_delay (ps_core s))
                    (latency_access hw) (axon_out_addresses n)) as E.
      unfold reported_latency, message_charges. simpl. rewrite Nat2Z.id.
      unfold addresses_of. rewrite list_lookup_fmap, Hn. simpl.
      unfold Qsum. simpl. unfold Qsum in E. split; lra.
  - exists [], []. split; [done |]. apply accounted_refl.
Qed.

Lemma pipeline_process_neuron_spec ts i (s s' : State) u :
  pipeline_process_neuron soma_update dendrite_update spike_message ts i s = Ok (u, s') ->
  exists new evs,
    effect s s' new evs /\
    unit_calls evs = send_side_units (timestep_buffer_pos (ps_core s)) /\
    (Qsum (generation_delay <$> new) + next_message_generation_delay (ps_core s') ==
     next_message_generation_delay (ps_core s) + reported_latency evs +
     message_charges (addresses_of (ps_core s)) evs)%Q.
Proof.
  unfold pipeline_process_neuron. intros H. monad_inv.
  match goal with
  | Hd : (if _ then bind (pipeline_process_dendrite _ _ _) _ else _) _ = Ok _ |- _ =>
      destruct (dendrite_stage _ _ _ _ _ _ _ Hd) as (evs1 & U1 & C1)
  end.
  match goal with
  | Hd : (if _ then bind (pipeline_process_soma _ _ _) _ else _) _ = Ok _ |- _ =>
      destruct (soma_stage _ _ _ _ _ _ _ Hd) as (evs2 & U2 & C2)
  end.
  match goal with
  | Hd : (if _ then bind (pipeline_process_axon_out _ _ _) _ else _) _ = Ok _ |- _ =>
      destruct (axon_out_stage _ _ _ _ _ _ _ Hd) as (new & evs3 & U3 & C3)
  end.
  pose proof (accounted_trans _ _ _ _ _ _ _ _ _ _ (accounted_trans _ _ _ _ _ _ _ _ _ _ C1 C2) C3)
    as (E & L & B).
  destruct C1 as ((F1 & _) & _). destruct C2 as ((F2 & _) & _).
  exists new, ((evs1 ++ evs2) ++ evs3). split; [| split].
  - match goal with
    | Hn : neurons _ !! i = Some ?n |- _ =>
        pose proof (put_neuron_effect _ i n (set_spike_count 0 n) Hn eq_refl) as E2
    end.
    match type of E2 with
    | effect ?sa _ _ _ =>
        assert (E1 : effect s sa (([] ++ []) ++ new) ((evs1 ++ evs2) ++ evs3))
    end.
    { destruct E as (F & Q1 & L1). split; [| split]; [| exact Q1 | exact L1].
      destruct F as (G1 & G2 & G3). by split. }
    pose proof (effect_trans _ _ _ _ _ _ _ E1 E2) as E3.
    simpl in E3. rewrite !app_nil_r in E3. exact E3.
  - rewrite !unit_calls_app, U1, U2, U3. unfold send_side_units.
    destruct F1 as (_ & P1 & _). destruct F2 as (_ & P2 & _).
    cbn in P1, P2 |- *. rewrite ?P2, ?P1. by rewrite app_assoc.
  - cbn. simpl in B. lra.
Qed.

End NeuronFacts.

(** ** The pipeline: the neurons of a core *)

Section CoreFacts.

Context {SomaModel DendriteModel SynapseModel DendriteParams : Type}.
Variable soma_update : SomaModel -> option Q -> NeuronStatus * SomaModel.
Variable dendrite_update :
  DendriteModel -> option (@Synapse DendriteParams) -> Q * DendriteModel.
Variable synapse_update : SynapseModel -> option Z -> Q * SynapseModel.

Local Abbreviation State := (@PState SomaModel DendriteModel SynapseModel DendriteParams).
Local Abbreviation NeuronT := (@Neuron SomaModel DendriteModel DendriteParams).
Local Abbreviation CoreT := (@Core SomaModel DendriteModel SynapseModel DendriteParams).

Variable placeholder_message : CoreT -> NeuronT -> Z -> Message.
Variable spike_message : CoreT -> NeuronT -> Z -> Z -> Message.

Local Abbreviation process_neuron :=
  (pipeline_process_neuron soma_update dendrite_update spike_message).

(** The loop over the neurons of the core. *)
Lemma process_neurons_loop_spec ts (l : list nat) : forall (s s' : State) u,
  for_each l (process_neuron ts) s = Ok (u, s') ->
  exists new evs,
    effect s s' new evs /\
    unit_calls evs =
      concat (replicate (length l) (send_side_units (timestep_buffer_pos (ps_core s)))) /\
    (Qsum (generation_delay <$> new) + next_message_generation_delay (ps_core s') ==
     next_message_generation_delay (ps_core s) + reported_latency evs +
     message_charges (addresses_of (ps_core s)) evs)%Q.
Proof.
  induction l as [| i l IH]; intros s s' u H.
  - simpl in H. monad_inv. exists [], []. split; [apply effect_refl |]. split; [done |].
    unfold reported_latency, message_charges. change (Qsum (_ <$> [])) with 0%Q. lra.
  - simpl in H. monad_inv.
    match goal with
    | Hn : pipeline_process_neuron _ _ _ _ _ _ = Ok _ |- _ =>
        destruct (pipeline_process_neuron_spec _ _ _ _ _ _ _ _ Hn)
          as (new1 & evs1 & E1 & U1 & B1)
    end.
    destruct (IH _ _ _ H) as (new2 & evs2 & E2 & U2 & B2).
    exists (new1 ++ new2), (evs1 ++ evs2).
    split; [by eapply effect_trans |].
    destruct E1 as (F1 & _). pose proof F1 as (_ & P1 & _).
    split.
    + rewrite unit_calls_app, U1, U2, P1. done.
    + rewrite (frame_addresses _ _ F1) in B2.
      rewrite fmap_app, Qsum_app, reported_latency_app, message_charges_app. lra.
Qed.

Lemma Qnonzero_true (a : Q) : Qnonzero a = true <-> ~ (a == 0)%Q.
Proof.
  unfold Qnonzero. rewrite negb_true_iff. split.
  - intros E H. apply Qeq_bool_iff in H. congruence.
  - intros H. destruct (Qeq_bool a 0) eqn:E; [| done].
    apply Qeq_bool_iff in E. done.
Qed.

Lemma Qnonzero_false (a : Q) : Qnonzero a = false <-> (a == 0)%Q.
Proof.
  unfold Qnonzero. rewrite negb_false_iff. apply Qeq_bool_iff.
Qed.

(** What [process_core_neurons] does after the loop over the neurons. *)
Lemma process_core_neurons_inv ts (s s' : State) u :
  process_core_neurons soma_update dendrite_update placeholder_message spike_message ts s
    = Ok (u, s') ->
  exists s1 : State,
    for_each (seq 0 (length (neurons (ps_core s)))) (process_neuron ts) s = Ok (tt, s1) /\
    ps_core s' = ps_core s1 /\
    ps_log s' = ps_log s1 /\
    (((next_message_generation_delay (ps_core s1) == 0)%Q /\ s' = s1) \/
     (~ (next_message_generation_delay (ps_core s1) == 0)%Q /\
      exists last_neuron,
        last (neurons (ps_core s1)) = Some last_neuron /\
        queue_of s' =
          queue_of s1 ++
          [set_generation_delay (next_message_generation_delay (ps_core s1))
             (placeholder_message (ps_core s1) last_neuron ts)])).
Proof.
  unfold process_core_neurons. intros H. monad_inv.
  destruct a0. exists s1. split; [done |].
  destruct (Qnonzero (next_message_generation_delay (ps_core s1))) eqn:E.
  - apply Qnonzero_true in E. monad_inv.
    match goal with
    | Hp : push_message _ _ = Ok _ |- _ =>
        apply push_message_effect in Hp as (Hc & _ & Hq & Hl)
    end.
    split; [done |]. split; [by rewrite Hl, app_nil_r |].
    right. split; [done |]. eexists. split; [done |]. exact Hq.
  - apply Qnonzero_false in E. monad_inv. split; [done |]. split; [done |].
    left. done.
Qed.

End CoreFacts.

Section PhaseFacts.

Context {SomaModel DendriteModel SynapseModel DendriteParams : Type}.
Variable soma_update : SomaModel -> option Q -> NeuronStatus * SomaModel.
Variable dendrite_update :
  DendriteModel -> option (@Synapse DendriteParams) -> Q * DendriteModel.
Variable synapse_update : SynapseModel -> option Z -> Q * SynapseModel.

Local Abbreviation State := (@PState SomaModel DendriteModel SynapseModel DendriteParams).
Local Abbreviation NeuronT := (@Neuron SomaModel DendriteModel DendriteParams).
Local Abbreviation CoreT := (@Core SomaModel DendriteModel SynapseModel DendriteParams).

Variable placeholder_message : CoreT -> NeuronT -> Z -> Message.
Variable spike_message : CoreT -> NeuronT -> Z -> Z -> Message.

Local Abbreviation process_neuron :=
  (pipeline_process_neuron soma_update dendrite_update spike_message).
Local Abbreviation process_core :=
  (process_core_neurons soma_update dendrite_update placeholder_message spike_message).

(** The whole phase on a core: the messages it appends, the units it
    runs and the balance of the delays. *)
Lemma process_core_neurons_spec ts (s s' : State) u :
  process_core ts s = Ok (u, s') ->
  exists new evs,
    effect s s' new evs /\
    unit_calls evs =
      concat (replicate (length (neurons (ps_core s)))
                (send_side_units (timestep_buffer_pos (ps_core s)))) /\
    (Qsum (generation_delay <$> new) ==
     next_message_generation_delay (ps_core s) + reported_latency evs +
     message_charges (addresses_of (ps_core s)) evs)%Q.
Proof.
  intros H.
  destruct (process_core_neurons_inv _ _ _ _ _ _ _ _ H) as (s1 & L & Hc & Hl & Hcase).
  destruct (process_neurons_loop_spec _ _ _ _ _ _ _ _ L) as (new & evs & E & U & B).
  rewrite length_seq in U.
  assert (F : frame s1 s') by (unfold frame; rewrite Hc; done).
  destruct Hcase as [(Z0 & ->) | (NZ & n & _ & Q1)].
  - exists new, evs. split; [done |]. split; [done |]. lra.
  - pose (m := set_generation_delay (next_message_generation_delay (ps_core s1))
                 (placeholder_message (ps_core s1) n ts)).
    exists (new ++ [m]), evs. split.
    + pose proof (effect_trans s s1 s' new [m] evs [] E) as T.
      rewrite app_nil_r in T. apply T. split; [done |]. split; [done |].
      by rewrite app_nil_r.
    + split; [done |]. rewrite fmap_app, Qsum_app.
      change (Qsum (generation_delay <$> [m]))
        with (next_message_generation_delay (ps_core s1) + 0)%Q. lra.
Qed.

Lemma for_each_cons {A} (a : A) (l : list A) (body : A -> PM unit) (s s' : State) u :
  for_each (a :: l) body s = Ok (u, s') ->
  exists s1, body a s = Ok (tt, s1) /\ for_each l body s1 = Ok (u, s').
Proof.
  simpl. intros H. apply bind_inv in H as ([] & s1 & H1 & H2). by exists s1.
Qed.

Lemma send_side_units_no_synapse pos k :
  SynapseU ∉ concat (replicate k (send_side_units pos)).
Proof.
  induction k as [| k IH]; simpl.
  - apply not_elem_of_nil.
  - rewrite elem_of_app. intros [H | H]; [| done].
    unfold send_side_units in H.
    destruct (pos <=? BUFFER_BEFORE_DENDRITE_UNIT), (pos <=? BUFFER_BEFORE_SOMA_UNIT),
      (pos <=? BUFFER_BEFORE_AXON_OUT_UNIT); simpl in H;
      repeat (apply elem_of_cons in H as [H | H]; [discriminate H |]);
      by apply elem_of_nil in H.
Qed.

End PhaseFacts.

(** ** The pipeline: faults *)

Section FaultFacts.

Context {SomaModel DendriteModel SynapseModel DendriteParams : Type}.
Variable soma_update : SomaModel -> option Q -> NeuronStatus * SomaModel.
Variable dendrite_update :
  DendriteModel -> option (@Synapse DendriteParams) -> Q * DendriteModel.
Variable synapse_update : SynapseModel -> option Z -> Q * SynapseModel.

Local Abbreviation State := (@PState SomaModel DendriteModel SynapseModel DendriteParams).
Local Abbreviation NeuronT := (@Neuron SomaModel DendriteModel DendriteParams).
Local Abbreviation CoreT := (@Core SomaModel DendriteModel SynapseModel DendriteParams).
Local Abbreviation Comp := (@PM SomaModel DendriteModel SynapseModel DendriteParams).












End FaultFacts.


Section UnitFaults.

Context {SomaModel DendriteModel SynapseModel DendriteParams : Type}.
Variable soma_update : SomaModel -> option Q -> NeuronStatus * SomaModel.
Variable dendrite_update :
  DendriteModel -> option (@Synapse DendriteParams) -> Q * DendriteModel.
Variable synapse_update : SynapseModel -> option Z -> Q * SynapseModel.

Local Abbreviation State := (@PState SomaModel DendriteModel SynapseModel DendriteParams).
Local Abbreviation NeuronT := (@Neuron SomaModel DendriteModel DendriteParams).
Local Abbreviation CoreT := (@Core SomaModel DendriteModel SynapseModel DendriteParams).
Local Abbreviation Comp := (@PM SomaModel DendriteModel SynapseModel DendriteParams).






End UnitFaults.

(** A buffer position read from a description of the architecture is
    one of the three. *)
Lemma pipeline_parse_buffer_pos_str_valid buffer_pos_str pos :
  pipeline_parse_buffer_pos_str buffer_pos_str = Some pos -> valid_buffer_pos pos.
Proof.
  unfold pipeline_parse_buffer_pos_str, valid_buffer_pos.
  destruct (String.eqb buffer_pos_str "dendrite"); [intros [= <-]; by left |].
  destruct (String.eqb buffer_pos_str "soma"); [intros [= <-]; right; by left |].
  destruct (String.eqb buffer_pos_str "axon_out"); [intros [= <-]; right; by right |].
  discriminate.
Qed.

(** ** The pipeline: receiving a message *)

Section ReceiveFacts.

Context {SomaModel DendriteModel SynapseModel DendriteParams : Type}.
Variable soma_update : SomaModel -> option Q -> NeuronStatus * SomaModel.
Variable dendrite_update :
  DendriteModel -> option (@Synapse DendriteParams) -> Q * DendriteModel.
Variable synapse_update : SynapseModel -> option Z -> Q * SynapseModel.

Local Abbreviation State := (@PState SomaModel DendriteModel SynapseModel DendriteParams).
Local Abbreviation NeuronT := (@Neuron SomaModel DendriteModel DendriteParams).
Local Abbreviation CoreT := (@Core SomaModel DendriteModel SynapseModel DendriteParams).
Local Abbreviation Comp := (@PM SomaModel DendriteModel SynapseModel DendriteParams).

Lemma pipeline_process_synapse_spec ts address (s s' : State) l :
  pipeline_process_synapse synapse_update ts address s = Ok (l, s') ->
  effect s s' [] [UnitCall SynapseU address l].
Proof.
  unfold pipeline_process_synapse. intros H. monad_inv.
  split; [| by rewrite app_nil_r].
  split; [done |]. split; [done |].
  cbn [ps_core neurons set_neurons set_connections_in set_synapse_units].
  by eapply fmap_insert_static.
Qed.

Lemma pipeline_process_axon_in_spec m (s s' : State) l :
  pipeline_process_axon_in m s = Ok (l, s') ->
  effect s s' [] [UnitCall AxonInU (dest_axon_hw m) l] /\
  axons_in (ps_core s') = axons_in (ps_core s).
Proof.
  unfold pipeline_process_axon_in. intros H. monad_inv.
  split; [| done]. split; [done |]. by rewrite app_nil_r.
Qed.

Lemma reported_latency_single u i l : (reported_latency [UnitCall u i l] == l)%Q.
Proof. unfold reported_latency. change (Qsum _) with (l + 0)%Q. lra. Qed.

(** One round of the loop over the synapse addresses. *)
Lemma process_message_synapse_ok ts latency address (s s' : State) l :
  process_message_synapse soma_update dendrite_update synapse_update ts latency address s
    = Ok (l, s') ->
  exists evs,
    effect s s' [] evs /\
    unit_calls evs = receive_side_units (timestep_buffer_pos (ps_core s)) /\
    (l == latency + reported_latency evs)%Q.
Proof.
  unfold process_message_synapse, receive_side_units. intros H.
  apply bind_inv in H as (c & s0 & H0 & H). apply get_core_inv in H0 as [-> ->].
  apply bind_inv in H as (con & s0 & H0 & H). apply access_inv in H0 as [Hcon ->].
  apply bind_inv in H as (l1 & s1 & H1 & H). cbv beta zeta in H.
  pose proof (pipeline_process_synapse_spec _ _ _ _ _ H1) as E1.
  destruct (timestep_buffer_pos (ps_core s) =? BUFFER_BEFORE_DENDRITE_UNIT).
  { apply ret_inv in H as [-> ->]. eexists. split; [exact E1 |]. split; [done |].
    rewrite reported_latency_single. lra. }
  apply bind_inv in H as (l2 & s2 & H2 & H). cbv beta zeta in H.
  destruct (pipeline_process_dendrite_spec _ _ _ _ _ _ H2) as (-> & _ & E2).
  pose proof (effect_trans _ _ _ _ _ _ _ E1 E2) as E12. simpl in E12.
  destruct (timestep_buffer_pos (ps_core s) =? BUFFER_BEFORE_SOMA_UNIT).
  { apply ret_inv in H as [-> ->]. eexists. split; [exact E12 |]. split; [done |].
    change [?a; ?b] with ([a] ++ [b]).
    rewrite reported_latency_app, !reported_latency_single. lra. }
  apply bind_inv in H as (l3 & s3 & H3 & H). cbv beta zeta in H.
  destruct (pipeline_process_soma_spec _ _ _ _ _ _ H3) as (_ & evs & M & E3).
  pose proof (effect_trans _ _ _ _ _ _ _ E12 E3) as E. simpl in E.
  apply bind_inv in H as ([] & s4 & H4 & H). apply assert_inv in H4 as [_ ->].
  apply ret_inv in H as [-> ->].
  destruct (model_events_silent [] evs M) as (U & R & _).
  eexists. split; [exact E |]. split.
  - change (?a :: ?b :: ?l) with ([a; b] ++ l).
    rewrite !unit_calls_app, U. done.
  - change (?a :: ?b :: ?l) with ([a] ++ [b] ++ l).
    rewrite !reported_latency_app, !reported_latency_single, R. lra.
Qed.


(** The loop over the synapse addresses of the axon. *)
Lemma receive_loop_ok ts addresses : forall latency (s s' : State) l,
  for_each_acc addresses latency
    (process_message_synapse soma_update dendrite_update synapse_update ts) s = Ok (l, s') ->
  exists evs,
    effect s s' [] evs /\
    unit_calls evs =
      concat (replicate (length addresses)
                (receive_side_units (timestep_buffer_pos (ps_core s)))) /\
    (l == latency + reported_latency evs)%Q.
Proof.
  induction addresses as [| a addresses IH]; intros latency s s' l H; simpl in H.
  - apply ret_inv in H as [-> ->]. exists []. split; [apply effect_refl |].
    split; [done |]. unfold reported_latency. change (Qsum _) with 0%Q. lra.
  - apply bind_inv in H as (l1 & s1 & H1 & H).
    destruct (process_message_synapse_ok _ _ _ _ _ _ H1) as (evs1 & E1 & U1 & L1).
    destruct (IH _ _ _ _ H) as (evs2 & E2 & U2 & L2).
    exists (evs1 ++ evs2). split; [apply (effect_trans _ _ _ [] [] _ _ E1 E2) |].
    destruct E1 as ((_ & P & _) & _). split.
    + rewrite unit_calls_app, U1, U2, P. done.
    + rewrite reported_latency_app. lra.
Qed.


End ReceiveFacts.

(** ** The pipeline: the process-neurons phase returns *)

Section TotalityFacts.

Context {SomaModel DendriteModel SynapseModel DendriteParams : Type}.
Variable soma_update : SomaModel -> option Q -> NeuronStatus * SomaModel.
Variable dendrite_update :
  DendriteModel -> option (@Synapse DendriteParams) -> Q * DendriteModel.

Local Abbreviation State := (@PState SomaModel DendriteModel SynapseModel DendriteParams).
Local Abbreviation NeuronT := (@Neuron SomaModel DendriteModel DendriteParams).
Local Abbreviation CoreT := (@Core SomaModel DendriteModel SynapseModel DendriteParams).
Local Abbreviation Comp := (@PM SomaModel DendriteModel SynapseModel DendriteParams).

Variable placeholder_message : CoreT -> NeuronT -> Z -> Message.
Variable spike_message : CoreT -> NeuronT -> Z -> Z -> Message.

Lemma bind_ok {A B} (c : Comp A) (k : A -> Comp B) (s s1 : State) a :
  c s = Ok (a, s1) -> bind c k s = k a s1.
Proof. unfold bind. by intros ->. Qed.

Lemma valid_state_frame (s s' : State) :
  frame s s' -> sizes s' = sizes s -> valid_state s -> valid_state s'.
Proof.
  intros (F1 & _ & F3) Hsz (V1 & V2 & V3). unfold sizes in Hsz.
  injection Hsz as S1 S2 S3.
  split; [| split].
  - intros E. rewrite E in F3. destruct (neurons (ps_core s)); [done | discriminate F3].
  - by rewrite F1, S3.
  - intros n' Hn'. rewrite S1, S2.
    assert (H : neuron_static n' ∈ neuron_static <$> neurons (ps_core s)).
    { rewrite <- F3. apply list_elem_of_fmap. by exists n'. }
    apply list_elem_of_fmap in H as (n & E & Hn).
    destruct (V3 n Hn) as [A B]. unfold neuron_static in E.
    injection E as _ _ -> ->. done.
Qed.

Lemma pipeline_process_dendrite_sizes ts i (s s' : State) l :
  pipeline_process_dendrite dendrite_update ts i s = Ok (l, s') -> sizes s' = sizes s.
Proof. unfold pipeline_process_dendrite. intros H. by monad_inv. Qed.

Lemma pipeline_process_dendrite_total ts i (s : State) :
  (i < length (neurons (ps_core s)))%nat ->
  exists l s', pipeline_process_dendrite dendrite_update ts i s = Ok (l, s').
Proof.
  intros Hi. destruct (lookup_lt_is_Some_2 _ _ Hi) as [n Hn].
  unfold pipeline_process_dendrite, get_neuron, put_neuron, bind, get_core, access,
    assert_not_null, modify_core, record, ret.
  rewrite Hn. eauto.
Qed.

Lemma soma_round_sizes i latency (s s' : State) l :
  soma_round soma_update i latency s = Ok (l, s') -> sizes s' = sizes s.
Proof.
  unfold soma_round. intros H. monad_inv. unfold sizes.
  cbn [ps_core ps_messages soma_units axon_out_units set_neurons set_soma_units].
  by rewrite length_insert.
Qed.

Lemma soma_round_total i latency (s : State) :
  valid_state s ->
  (i < length (neurons (ps_core s)))%nat ->
  exists l s', soma_round soma_update i latency s = Ok (l, s').
Proof.
  intros (_ & _ & V) Hi. destruct (lookup_lt_is_Some_2 _ _ Hi) as [n Hn].
  destruct (V n (list_elem_of_lookup_2 _ _ _ Hn)) as [Hs _].
  destruct (lookup_lt_is_Some_2 _ _ Hs) as [hw Hhw].
  unfold soma_round, get_neuron, put_neuron, bind, get_core, access,
    assert_not_null, modify_core, record, ret.
  rewrite Hn. cbn [ps_core]. rewrite Hhw. eauto.
Qed.

Lemma soma_rounds_total rounds i : forall latency (s : State),
  valid_state s ->
  (i < length (neurons (ps_core s)))%nat ->
  exists l s', soma_rounds soma_update rounds i latency s = Ok (l, s') /\
    sizes s' = sizes s.
Proof.
  induction rounds as [| k IH]; intros latency s V Hi; simpl.
  - by exists latency, s.
  - destruct (soma_round_total i latency s V Hi) as (l1 & s1 & H1).
    rewrite (bind_ok _ _ _ _ _ H1).
    pose proof (soma_round_sizes _ _ _ _ _ H1) as Z1.
    destruct (soma_round_spec _ _ _ _ _ _ H1) as (_ & _ & _ & _ & _ & _ & _ & (F & _)).
    destruct (IH l1 s1) as (l & s' & H & Z2).
    { by eapply valid_state_frame. }
    { destruct F as (_ & _ & F). apply (f_equal length) in F.
      rewrite !length_fmap in F. lia. }
    exists l, s'. split; [done | congruence].
Qed.

Lemma pipeline_process_soma_total ts i (s : State) :
  valid_state s ->
  (i < length (neurons (ps_core s)))%nat ->
  exists l s', pipeline_process_soma soma_update ts i s = Ok (l, s') /\
    sizes s' = sizes s.
Proof.
  intros V Hi. destruct (lookup_lt_is_Some_2 _ _ Hi) as [n Hn].
  assert (G : get_neuron i s = Ok (n, s)).
  { unfold get_neuron, bind, get_core, access, assert_not_null. by rewrite Hn. }
  unfold pipeline_process_soma. rewrite (bind_ok _ _ _ _ _ G).
  destruct (soma_rounds_total (Z.to_nat (ts - soma_last_updated n)) i 0%Q s V Hi)
    as (l & s' & H & Z1).
  rewrite (bind_ok _ _ _ _ _ H). unfold bind, record, ret. eauto.
Qed.

Lemma get_neuron_ok i (n : NeuronT) (s : State) :
  neurons (ps_core s) !! i = Some n -> get_neuron i s = Ok (n, s).
Proof.
  intros Hn. unfold get_neuron, bind, get_core, access, assert_not_null. by rewrite Hn.
Qed.

Lemma axon_out_send_sizes ts i address (s s' : State) u :
  axon_out_send spike_message ts i address s = Ok (u, s') -> sizes s' = sizes s.
Proof.
  unfold axon_out_send. intros H. monad_inv.
  match goal with
  | Hp : push_message _ _ = Ok _ |- _ => apply push_message_inv in Hp as (q & Hq & ->)
  end.
  unfold sizes.
  cbn [ps_core ps_messages soma_units axon_out_units set_axon_out_units
       set_next_message_generation_delay].
  by rewrite !length_insert.
Qed.

Lemma axon_out_send_total ts i address (s : State) :
  valid_state s ->
  (i < length (neurons (ps_core s)))%nat ->
  exists s', axon_out_send spike_message ts i address s = Ok (tt, s').
Proof.
  intros (_ & Vq & V) Hi. destruct (lookup_lt_is_Some_2 _ _ Hi) as [n Hn].
  destruct (V n (list_elem_of_lookup_2 _ _ _ Hn)) as [_ Ha].
  destruct (lookup_lt_is_Some_2 _ _ Ha) as [hw Hhw].
  destruct (lookup_lt_is_Some_2 _ _ Vq) as [q Hq].
  unfold axon_out_send. rewrite (bind_ok _ _ _ _ _ (get_neuron_ok _ _ _ Hn)).
  unfold bind, get_core, access, assert_not_null, modify_core, push_message.
  rewrite Hhw. cbn [ps_core ps_messages core_id set_next_message_generation_delay].
  rewrite Hq. eauto.
Qed.

Lemma axon_out_loop_total ts i addresses : forall s : State,
  valid_state s ->
  (i < length (neurons (ps_core s)))%nat ->
  exists s', for_each addresses (axon_out_send spike_message ts i) s = Ok (tt, s') /\
    sizes s' = sizes s /\ frame s s'.
Proof.
  induction addresses as [| a rest IH]; intros s V Hi; simpl.
  - exists s. split; [done |]. split; [done | apply frame_refl].
  - destruct (axon_out_send_total ts i a s V Hi) as (s1 & H1).
    rewrite (bind_ok _ _ _ _ _ H1).
    pose proof (axon_out_send_sizes _ _ _ _ _ _ H1) as Z1.
    destruct (axon_out_send_spec _ _ _ _ _ _ _ H1)
      as (_ & _ & _ & _ & _ & A3 & _ & _ & _ & (F & _)).
    destruct (IH s1) as (s' & H & Z2 & F2).
    { by eapply valid_state_frame. }
    { by rewrite A3. }
    exists s'. split; [done |]. split; [congruence | by eapply frame_trans].
Qed.

Lemma pipeline_process_axon_out_total ts i (s : State) :
  valid_state s ->
  (i < length (neurons (ps_core s)))%nat ->
  exists l s', pipeline_process_axon_out spike_message ts i s = Ok (l, s') /\
    sizes s' = sizes s.
Proof.
  intros V Hi. destruct (lookup_lt_is_Some_2 _ _ Hi) as [n Hn].
  unfold pipeline_process_axon_out. rewrite (bind_ok _ _ _ _ _ (get_neuron_ok _ _ _ Hn)).
  destruct (axon_out_input_spike n); cbn [negb].
  - destruct (axon_out_loop_total ts i (axon_out_addresses n) s V Hi) as (s1 & H1 & Z1 & F1).
    rewrite (bind_ok _ _ _ _ _ H1).
    pose proof (valid_state_frame _ _ F1 Z1 V) as (_ & _ & V1).
    assert (Hn1 : neuron_static <$> neurons (ps_core s1) !! i = Some (neuron_static n)).
    { destruct F1 as (_ & _ & F1). by rewrite <- list_lookup_fmap, F1, list_lookup_fmap, Hn. }
    destruct (neurons (ps_core s1) !! i) as [n1 |] eqn:En1; [| discriminate Hn1].
    simpl in Hn1.
    destruct (V1 n1 (list_elem_of_lookup_2 _ _ _ En1)) as [_ Ha].
    assert (E : axon_out_hw n1 = axon_out_hw n)
      by (unfold neuron_static in Hn1; congruence).
    rewrite E in Ha. destruct (lookup_lt_is_Some_2 _ _ Ha) as [hw Hhw].
    unfold bind, put_neuron, modify_core, get_core, access, assert_not_null, record, ret.
    cbn [ps_core axon_out_units set_neurons]. rewrite Hhw.
    eexists _, _. split; [reflexivity |]. by rewrite <- Z1.
  - unfold bind, record, ret. eauto.
Qed.

Lemma frame_length (s s' : State) :
  frame s s' -> length (neurons (ps_core s')) = length (neurons (ps_core s)).
Proof.
  intros (_ & _ & F). apply (f_equal length) in F. by rewrite !length_fmap in F.
Qed.

Lemma runs_ok_bind {A B} i (c : Comp A) (k : A -> Comp B) :
  runs_ok i c -> (forall a, runs_ok i (k a)) -> runs_ok i (bind c k).
Proof.
  intros Hc Hk s V Hi.
  destruct (Hc s V Hi) as (a & s1 & H1 & Z1 & F1).
  destruct (Hk a s1) as (b & s2 & H2 & Z2 & F2).
  { by eapply valid_state_frame. }
  { by rewrite (frame_length _ _ F1). }
  exists b, s2. rewrite (bind_ok _ _ _ _ _ H1).
  split; [done |]. split; [congruence | by eapply frame_trans].
Qed.

Lemma runs_ok_ret {A} i (a : A) : runs_ok i (ret a : Comp A).
Proof. intros s _ _. exists a, s. split; [done |]. split; [done | apply frame_refl]. Qed.

Lemma runs_ok_get_core i : runs_ok i (get_core : Comp CoreT).
Proof.
  intros s _ _. exists (ps_core s), s. split; [done |]. split; [done | apply frame_refl].
Qed.

Lemma pipeline_process_dendrite_runs ts i :
  runs_ok i (pipeline_process_dendrite dendrite_update ts i : Comp Q).
Proof.
  intros s V Hi. destruct (pipeline_process_dendrite_total ts i s Hi) as (l & s' & H).
  exists l, s'. split; [done |].
  split; [by eapply pipeline_process_dendrite_sizes |].
  by destruct (pipeline_process_dendrite_spec _ _ _ _ _ _ H) as (_ & _ & (F & _)).
Qed.

Lemma pipeline_process_soma_runs ts i :
  runs_ok i (pipeline_process_soma soma_update ts i : Comp Q).
Proof.
  intros s V Hi. destruct (pipeline_process_soma_total ts i s V Hi) as (l & s' & H & Z1).
  exists l, s'. split; [done |]. split; [done |].
  by destruct (pipeline_process_soma_spec _ _ _ _ _ _ H) as (_ & evs & _ & (F & _)).
Qed.

Lemma pipeline_process_axon_out_runs ts i :
  runs_ok i (pipeline_process_axon_out spike_message ts i : Comp Q).
Proof.
  intros s V Hi. destruct (pipeline_process_axon_out_total ts i s V Hi) as (l & s' & H & Z1).
  exists l, s'. split; [done |]. split; [done |].
  destruct (pipeline_process_axon_out_spec _ _ _ _ _ _ H)
    as (n & _ & [(_ & _ & _ & (F & _)) | (_ & hw & new & _ & _ & _ & _ & (F & _))]); done.
Qed.

Lemma pipeline_process_neuron_runs ts i :
  runs_ok i (pipeline_process_neuron soma_update dendrite_update spike_message ts i
             : Comp unit).
Proof.
  unfold pipeline_process_neuron.
  apply runs_ok_bind; [apply runs_ok_get_core |]. intros c. cbv zeta.
  apply runs_ok_bind.
  { destruct (_ <=? _); [| apply runs_ok_ret].
    apply runs_ok_bind; [apply pipeline_process_dendrite_runs |]. intros l.
    apply runs_ok_ret. }
  intros latency1. apply runs_ok_bind.
  { destruct (_ <=? _); [| apply runs_ok_ret].
    apply runs_ok_bind; [apply pipeline_process_soma_runs |]. intros l.
    apply runs_ok_ret. }
  intros latency2. apply runs_ok_bind.
  { destruct (_ <=? _); [| apply runs_ok_ret].
    apply runs_ok_bind; [apply pipeline_process_axon_out_runs |]. intros l.
    apply runs_ok_ret. }
  intros latency3 s V Hi. destruct (lookup_lt_is_Some_2 _ _ Hi) as [n Hn].
  unfold bind, modify_core, put_neuron.
  erewrite (get_neuron_ok i n); [| exact Hn].
  eexists _, _. split; [reflexivity |]. split; [done |].
  split; [done |]. split; [done |].
  cbn [ps_core neurons set_neurons set_next_message_generation_delay].
  by eapply fmap_insert_static.
Qed.

(** The loop over the neurons of the core returns on a valid state. *)
Lemma process_neurons_loop_total ts (l : list nat) : forall s : State,
  valid_state s ->
  (forall i, i ∈ l -> (i < length (neurons (ps_core s)))%nat) ->
  exists s',
    for_each l (pipeline_process_neuron soma_update dendrite_update spike_message ts) s
      = Ok (tt, s') /\
    sizes s' = sizes s /\ frame s s'.
Proof.
  induction l as [| i l IH]; intros s V Hl; simpl.
  - exists s. split; [done |]. split; [done | apply frame_refl].
  - destruct (pipeline_process_neuron_runs ts i s V) as ([] & s1 & H1 & Z1 & F1).
    { apply Hl, list_elem_of_here. }
    rewrite (bind_ok _ _ _ _ _ H1).
    destruct (IH s1) as (s' & H & Z2 & F2).
    { by eapply valid_state_frame. }
    { intros j Hj. rewrite (frame_length _ _ F1). by apply Hl, list_elem_of_further. }
    exists s'. split; [done |]. split; [congruence | by eapply frame_trans].
Qed.

(** The process-neurons phase returns on every valid state of a
    core. *)
Theorem process_core_neurons_total ts (s : State) :
  valid_state s ->
  exists s',
    process_core_neurons soma_update dendrite_update placeholder_message spike_message ts s
      = Ok (tt, s').
Proof.
  intros V. unfold process_core_neurons.
  destruct (process_neurons_loop_total ts (seq 0 (length (neurons (ps_core s)))) s V)
    as (s1 & H1 & Z1 & F1).
  { intros i Hi. apply list_elem_of_lookup_1 in Hi as [k Hk].
    apply lookup_seq in Hk. lia. }
  change (bind get_core ?k s) with (k (ps_core s) s). cbv beta.
  rewrite (bind_ok _ _ _ _ _ H1).
  change (bind get_core ?k s1) with (k (ps_core s1) s1). cbv beta.
  destruct (Qnonzero _); [| by exists s1].
  destruct (valid_state_frame _ _ F1 Z1 V) as (Vn & Vq & _).
  destruct (last (neurons (ps_core s1))) as [n |] eqn:El;
    [| by apply last_None in El].
  destruct (lookup_lt_is_Some_2 _ _ Vq) as [q Hq].
  unfold bind, access, assert_not_null, push_message. rewrite Hq. eauto.
Qed.

End TotalityFacts.

Lemma example_state_valid pos acc (n : ExampleNeuron) :
  soma_hw n = 0%nat -> axon_out_hw n = 0%nat -> valid_state (example_state pos acc n).
Proof.
  intros Hs Ha. split; [discriminate |]. split; [simpl; lia |].
  intros n' Hn'. apply list_elem_of_singleton in Hn' as ->. simpl. lia.
Qed.

(** ** The pipeline: what the phases do *)

Section PipelineTheorems.

Context {SomaModel DendriteModel SynapseModel DendriteParams : Type}.
Variable soma_update : SomaModel -> option Q -> NeuronStatus * SomaModel.
Variable dendrite_update :
  DendriteModel -> option (@Synapse DendriteParams) -> Q * DendriteModel.
Variable synapse_update : SynapseModel -> option Z -> Q * SynapseModel.

Local Abbreviation State := (@PState SomaModel DendriteModel SynapseModel DendriteParams).
Local Abbreviation NeuronT := (@Neuron SomaModel DendriteModel DendriteParams).
Local Abbreviation CoreT := (@Core SomaModel DendriteModel SynapseModel DendriteParams).

Variable placeholder_message : CoreT -> NeuronT -> Z -> Message.
Variable spike_message : CoreT -> NeuronT -> Z -> Z -> Message.

Local Abbreviation process_neuron :=
  (pipeline_process_neuron soma_update dendrite_update spike_message).
Local Abbreviation process_core :=
  (process_core_neurons soma_update dendrite_update placeholder_message spike_message).

(** C3, as the code has it.  On a valid state of a core the
    process-neurons phase returns, and the generation delays of the
    messages it appends to the queue of the core sum to the
    value of the accumulator at the start of the phase, plus the
    latencies the units reported, plus the latency of every axon-out
    call once more for every message the call sent. *)
Theorem generation_delay_balance ts (s : State) :
  valid_state s ->
  exists s' new evs,
    process_core ts s = Ok (tt, s') /\
    queue_of s' = queue_of s ++ new /\
    ps_log s' = ps_log s ++ evs /\
    (Qsum (generation_delay <$> new) ==
     next_message_generation_delay (ps_core s) + reported_latency evs +
     message_charges (addresses_of (ps_core s)) evs)%Q.
Proof.
  intros V.
  destruct (process_core_neurons_total soma_update dendrite_update placeholder_message
              spike_message ts s V) as (s' & H).
  destruct (process_core_neurons_spec _ _ _ _ _ _ _ _ H) as (new & evs & (_ & Q1 & L1) & _ & B).
  by exists s', new, evs.
Qed.

(** C4, as the code has it.  On a valid state of a core the
    process-neurons phase returns; after the neurons are visited, a
    placeholder message whose source is the last neuron and whose
    generation delay is the accumulated delay is appended to the queue
    of the core if and only if the accumulated delay is not zero; the
    accumulator keeps its value. *)
Theorem placeholder_message_appended ts (s : State) :
  (forall c n t, placeholder (placeholder_message c n t) = true) ->
  (forall c n t, src_neuron_id (placeholder_message c n t) = id n) ->
  valid_state s ->
  exists s1 s' : State,
    for_each (seq 0 (length (neurons (ps_core s)))) (process_neuron ts) s = Ok (tt, s1) /\
    process_core ts s = Ok (tt, s') /\
    next_message_generation_delay (ps_core s') = next_message_generation_delay (ps_core s1) /\
    (((next_message_generation_delay (ps_core s1) == 0)%Q /\ queue_of s' = queue_of s1) \/
     (~ (next_message_generation_delay (ps_core s1) == 0)%Q /\
      exists m last_neuron,
        last (neurons (ps_core s1)) = Some last_neuron /\
        id <$> last (neurons (ps_core s)) = Some (id last_neuron) /\
        queue_of s' = queue_of s1 ++ [m] /\
        placeholder m = true /\
        src_neuron_id m = id last_neuron /\
        generation_delay m = next_message_generation_delay (ps_core s1))).
Proof.
  intros Hp Hsrc V.
  destruct (process_core_neurons_total soma_update dendrite_update placeholder_message
              spike_message ts s V) as (s' & H).
  destruct (process_core_neurons_inv _ _ _ _ _ _ _ _ H) as (s1 & L & Hc & _ & Hcase).
  exists s1, s'. split; [done |]. split; [done |]. split; [by rewrite Hc |].
  destruct Hcase as [(Z0 & ->) | (NZ & n & Hlast & Q1)]; [by left |].
  right. split; [done |].
  eexists _, n. split; [done |]. split; [| split; [exact Q1 |]].
  - destruct (process_neurons_loop_spec _ _ _ _ _ _ _ _ L)
      as (_ & _ & ((_ & _ & F) & _) & _).
    assert (E : forall l : list NeuronT,
      id <$> last l = (fun t : Z * list Z * nat * nat => t.1.1.1) <$> last (neuron_static <$> l)).
    { intros l. rewrite fmap_last. by destruct (last l). }
    by rewrite E, <- F, <- E, Hlast.
  - split; [apply Hp |]. split; [apply Hsrc | done].
Qed.

(** C5, as the code has it.  The process-neurons phase, which returns
    on every valid state of a core, never runs the synapse unit, whatever the buffer position of the core: for every
    neuron it runs the dendrite, soma and axon-out units that the
    position lets it run.  The synapse unit runs when a message is
    received, first of all and for every position. *)
Theorem synapse_runs_on_receive_side ts (s r r' : State) latency address l :
  valid_state s ->
  process_message_synapse soma_update dendrite_update synapse_update ts latency address r
    = Ok (l, r') ->
  (exists s' evs,
     process_core ts s = Ok (tt, s') /\
     ps_log s' = ps_log s ++ evs /\
     unit_calls evs =
       concat (replicate (length (neurons (ps_core s)))
                 (send_side_units (timestep_buffer_pos (ps_core s)))) /\
     SynapseU ∉ unit_calls evs) /\
  (exists evs,
     ps_log r' = ps_log r ++ evs /\
     head (unit_calls evs) = Some SynapseU).
Proof.
  intros V Hr. split.
  - destruct (process_core_neurons_total soma_update dendrite_update placeholder_message
                spike_message ts s V) as (s' & Hs).
    destruct (process_core_neurons_spec _ _ _ _ _ _ _ _ Hs) as (new & evs & (_ & _ & L1) & U & _).
    exists s', evs. split; [done |]. split; [done |]. split; [done |]. rewrite U.
    apply send_side_units_no_synapse.
  - destruct (process_message_synapse_ok _ _ _ _ _ _ _ _ _ Hr) as (evs & (_ & _ & L1) & U & _).
    exists evs. split; [done |]. rewrite U. unfold receive_side_units.
    by destruct (timestep_buffer_pos (ps_core r) =? BUFFER_BEFORE_DENDRITE_UNIT),
      (timestep_buffer_pos (ps_core r) =? BUFFER_BEFORE_SOMA_UNIT).
Qed.

End PipelineTheorems.

Section AxonOutTheorems.

Context {SomaModel DendriteModel SynapseModel DendriteParams : Type}.

Local Abbreviation State := (@PState SomaModel DendriteModel SynapseModel DendriteParams).
Local Abbreviation NeuronT := (@Neuron SomaModel DendriteModel DendriteParams).
Local Abbreviation CoreT := (@Core SomaModel DendriteModel SynapseModel DendriteParams).

Variable spike_message : CoreT -> NeuronT -> Z -> Z -> Message.

(** C10.  On a valid state of the core, [pipeline_process_axon_out]
    returns; when the neuron fired and has more than one axon address,
    the first message sent for it carries the accumulated delay of the
    core and the latency of the axon-out unit, sending it zeroes the
    accumulator, and every later message carries the latency of the
    unit alone. *)
Theorem axon_out_first_message_carries_delay ts i (s : State) (n : NeuronT) :
  valid_state s ->
  neurons (ps_core s) !! i = Some n ->
  axon_out_input_spike n = true ->
  (1 < length (axon_out_addresses n))%nat ->
  exists l (s' : State) hw first later address (s1 : State),
    pipeline_process_axon_out spike_message ts i s = Ok (l, s') /\
    axon_out_units (ps_core s) !! axon_out_hw n = Some hw /\
    head (axon_out_addresses n) = Some address /\
    axon_out_send spike_message ts i address s = Ok (tt, s1) /\
    queue_of s1 = queue_of s ++ [first] /\
    next_message_generation_delay (ps_core s1) = 0%Q /\
    queue_of s' = queue_of s ++ first :: later /\
    length later = (length (axon_out_addresses n) - 1)%nat /\
    generation_delay first =
      (next_message_generation_delay (ps_core s) + latency_access hw)%Q /\
    Forall (fun m => (generation_delay m == latency_access hw)%Q) later /\
    next_message_generation_delay (ps_core s') = 0%Q.
Proof.
  intros V Hn Hspike Hlen.
  destruct (pipeline_process_axon_out_total spike_message ts i s V) as (l & s' & H & _).
  { by eapply lookup_lt_Some. }
  exists l, s'. pose proof H as Hrun.
  unfold pipeline_process_axon_out in H.
  apply bind_inv in H as (n' & s0 & H0 & H). apply get_neuron_inv in H0 as [H0 ->].
  assert (n' = n) as -> by congruence.
  rewrite Hspike in H. cbn [negb] in H.
  apply bind_inv in H as ([] & s2 & Hloop & H).
  destruct (axon_out_addresses n) as [| a0 [| a1 rest]] eqn:Ha; [simpl in Hlen; lia .. |].
  apply for_each_cons in Hloop as (s1 & Hsend & Hloop).
  destruct (axon_out_send_spec _ _ _ _ _ _ _ Hsend)
    as (n' & hw & m & A1 & A2 & A3 & A4 & A5 & A6 & (_ & A7 & _)).
  assert (n' = n) as -> by congruence.
  destruct (axon_out_loop_spec _ ts i n (latency_access hw) _ _ _ _ Hloop)
    as (_ & _ & B3 & later & (_ & B4 & _) & B5).
  { by rewrite A3. }
  { eexists. split; [exact A4 | done]. }
  monad_inv.
  exists hw, m, later, a0, s1.
  split; [done |].
  split; [done |]. split; [done |]. split; [done |]. split; [done |]. split; [done |].
  split.
  { change (queue_of ?x) with (queue_of s2) at 1. rewrite B4, A7, <- app_assoc. done. }
  split.
  { apply (f_equal length) in B5. unfold axon_out_delays in B5.
    rewrite length_fmap in B5. simpl in *. rewrite length_fmap in B5. lia. }
  split; [done |]. split; [| exact B3].
  apply Forall_forall. intros x Hx.
  assert (Hin : generation_delay x ∈ generation_delay <$> later)
    by (apply list_elem_of_fmap; by exists x).
  rewrite B5, A5 in Hin. unfold axon_out_delays in Hin.
  apply elem_of_cons in Hin as [-> | Hin]; [lra |].
  apply list_elem_of_fmap in Hin as (y & -> & _). lra.
Qed.

End AxonOutTheorems.

(** C3 as the spec has it fails: the neuron fires, its soma reports the
    latency 3 and its axon output the latency 1, and the spike message
    and the placeholder carry the delays 1 and 4. *)
Lemma forced_spike_counts_axon_out_twice :
  example_process_core 1 forced_before = Ok (tt, forced_after) /\
  generation_delay <$> queue_of forced_after = [1%Q; 4%Q] /\
  (reported_latency (ps_log forced_after) == 4)%Q /\
  ~ (Qsum (generation_delay <$> queue_of forced_after) ==
     reported_latency (ps_log forced_after))%Q.
Proof.
  vm_compute. split; [reflexivity |]. split; [reflexivity |]. split; [reflexivity |].
  intros H. discriminate H.
Qed.

Lemma generation_delay_balance_witness :
  exists s' new evs,
    example_process_core 1 forced_before = Ok (tt, s') /\
    queue_of s' = queue_of forced_before ++ new /\
    ps_log s' = ps_log forced_before ++ evs /\
    (Qsum (generation_delay <$> new) ==
     next_message_generation_delay (ps_core forced_before) + reported_latency evs +
     message_charges (addresses_of (ps_core forced_before)) evs)%Q.
Proof.
  apply (generation_delay_balance idle_soma silent_dendrite example_placeholder
           example_spike 1 forced_before).
  apply example_state_valid; reflexivity.
Defined.

(** C4 as the spec has it fails: the placeholder is appended and the
    accumulator still holds the delay 4. *)
Lemma forced_spike_keeps_accumulator :
  example_process_core 1 forced_before = Ok (tt, forced_after) /\
  placeholder <$> queue_of forced_after = [false; true] /\
  ~ (next_message_generation_delay (ps_core forced_after) == 0)%Q.
Proof.
  vm_compute. split; [reflexivity |]. split; [reflexivity |]. intros H. discriminate H.
Qed.

Lemma placeholder_message_appended_witness :
  exists s1 s' : ExampleState,
    for_each (seq 0 (length (neurons (ps_core forced_before))))
      (pipeline_process_neuron idle_soma silent_dendrite example_spike 1) forced_before
      = Ok (tt, s1) /\
    example_process_core 1 forced_before = Ok (tt, s') /\
    next_message_generation_delay (ps_core s') =
      next_message_generation_delay (ps_core s1) /\
    (((next_message_generation_delay (ps_core s1) == 0)%Q /\
      queue_of s' = queue_of s1) \/
     (~ (next_message_generation_delay (ps_core s1) == 0)%Q /\
      exists m last_neuron,
        last (neurons (ps_core s1)) = Some last_neuron /\
        id <$> last (neurons (ps_core forced_before)) = Some (id last_neuron) /\
        queue_of s' = queue_of s1 ++ [m] /\
        placeholder m = true /\
        src_neuron_id m = id last_neuron /\
        generation_delay m = next_message_generation_delay (ps_core s1))).
Proof.
  apply (placeholder_message_appended idle_soma silent_dendrite example_placeholder
           example_spike 1 forced_before).
  - intros c n t. reflexivity.
  - intros c n t. reflexivity.
  - apply example_state_valid; reflexivity.
Defined.

(** C5 as the spec has it fails: with the buffer before the dendrite
    the process-neurons phase runs the dendrite, the soma and the axon
    output of the neuron, and no synapse. *)
Lemma before_dendrite_sends_without_synapse :
  example_process_core 1 quiet_before = Ok (tt, quiet_after) /\
  timestep_buffer_pos (ps_core quiet_before) = BUFFER_BEFORE_DENDRITE_UNIT /\
  unit_calls (ps_log quiet_after) = [DendriteU; SomaU; AxonOutU] /\
  SynapseU ∉ unit_calls (ps_log quiet_after).
Proof.
  split; [vm_compute; reflexivity |]. split; [reflexivity |].
  split; [vm_compute; reflexivity |].
  rewrite list_elem_of_In. vm_compute. intros H.
  repeat (destruct H as [H | H]; [discriminate H |]). exact H.
Qed.

Lemma synapse_runs_on_receive_side_witness :
  (exists s' evs,
     example_process_core 1 quiet_before = Ok (tt, s') /\
     ps_log s' = ps_log quiet_before ++ evs /\
     unit_calls evs =
       concat (replicate (length (neurons (ps_core quiet_before)))
                 (send_side_units (timestep_buffer_pos (ps_core quiet_before)))) /\
     SynapseU ∉ unit_calls evs) /\
  (exists evs,
     ps_log received_after = ps_log quiet_before ++ evs /\
     head (unit_calls evs) = Some SynapseU).
Proof.
  apply (synapse_runs_on_receive_side idle_soma silent_dendrite unit_synapse
           example_placeholder example_spike 1 quiet_before
           quiet_before received_after 0%Q 0 1%Q).
  - apply example_state_valid; reflexivity.
  - vm_compute. reflexivity.
Defined.

Lemma axon_out_first_message_carries_delay_witness :
  exists l (s' : ExampleState) hw first later address (s1 : ExampleState),
    pipeline_process_axon_out example_spike 1 0 spiking_before = Ok (l, s') /\
    axon_out_units (ps_core spiking_before) !! axon_out_hw three_axons = Some hw /\
    head (axon_out_addresses three_axons) = Some address /\
    axon_out_send example_spike 1 0 address spiking_before = Ok (tt, s1) /\
    queue_of s1 = queue_of spiking_before ++ [first] /\
    next_message_generation_delay (ps_core s1) = 0%Q /\
    queue_of s' = queue_of spiking_before ++ first :: later /\
    length later = (length (axon_out_addresses three_axons) - 1)%nat /\
    generation_delay first =
      (next_message_generation_delay (ps_core spiking_before) + latency_access hw)%Q /\
    Forall (fun m => (generation_delay m == latency_access hw)%Q) later /\
    next_message_generation_delay (ps_core s') = 0%Q.
Proof.
  apply (axon_out_first_message_carries_delay example_spike 1 0%nat spiking_before
           three_axons).
  - apply example_state_valid; reflexivity.
  - reflexivity.
  - reflexivity.
  - simpl. lia.
Defined.

(** ** The scheduler: the times of a round *)

Section SendTimes.

Variable idx : Z -> Z -> Z -> Z -> Z -> Z -> nat.

Lemma vec_get_insert_eq (v : list Q) (i : nat) (x : Q) :
  (i < length v)%nat -> vec_get (<[i := x]> v) i = x.
Proof. intros H. unfold vec_get. by rewrite list_lookup_insert_eq. Qed.

Lemma vec_get_insert_ne (v : list Q) (i j : nat) (x : Q) :
  i <> j -> vec_get (<[i := x]> v) j = vec_get v j.
Proof. intros H. unfold vec_get. by rewrite list_lookup_insert_ne. Qed.

Lemma fmax_plus (a b c : Q) : (fmax (a + c) (b + c) == fmax a b + c)%Q.
Proof.
  destruct (fmax_spec a b) as [[H1 ->] | [H1 ->]];
    destruct (fmax_spec (a + c) (b + c)) as [[H2 ->] | [H2 ->]]; lra.
Qed.

(** The times [schedule_send] gives a message that goes to the core
    [dest]: it is received when the core has finished with the messages
    before it, and no earlier than its sending plus its network delay;
    it is processed [receive_delay] later, and the core is busy until
    then. *)
Lemma schedule_send_times scheduler r m noc last m' noc' last' :
  schedule_send idx scheduler r m noc last = (m', noc', last') ->
  (Z.to_nat (dest_core_id m) < length (core_finished_receiving noc))%nat ->
  in_noc m' = true /\
  (vec_get (core_finished_receiving noc) (Z.to_nat (dest_core_id m))
   <= received_timestamp m')%Q /\
  (sent_timestamp m' + network_delay m <= received_timestamp m')%Q /\
  (processed_timestamp m' == received_timestamp m' + receive_delay m)%Q /\
  vec_get (core_finished_receiving noc') (Z.to_nat (dest_core_id m))
    = processed_timestamp m' /\
  (forall c, c <> Z.to_nat (dest_core_id m) ->
     vec_get (core_finished_receiving noc') c = vec_get (core_finished_receiving noc) c).
Proof.
  unfold schedule_send. intros H Hd. cbv zeta in H.
  injection H as <- <- <-.
  set (dest := Z.to_nat (dest_core_id m)) in *.
  set (route := schedule_calculate_messages_along_route idx m noc) in *.
  set (m1 := if Qgt_bool route _ then _ else m) in *.
  assert (F : network_delay m1 = network_delay m /\ receive_delay m1 = receive_delay m /\
              dest_core_id m1 = dest_core_id m).
  { unfold m1. by destruct (Qgt_bool _ _). }
  destruct F as (F1 & F2 & F3).
  cbn [in_noc set_in_noc set_processed_timestamp set_received_timestamp
       received_timestamp processed_timestamp sent_timestamp network_delay receive_delay
       core_finished_receiving set_core_finished_receiving].
  set (D := fmax (network_delay m1) _).
  assert (HD : (network_delay m <= D)%Q) by (rewrite <- F1; apply fmax_l).
  rewrite vec_get_insert_eq by done. rewrite F2.
  split; [done |]. split; [apply fmax_l |]. split.
  { pose proof (fmax_r (vec_get (core_finished_receiving noc) dest)
                  (sent_timestamp m1 + D)). lra. }
  split; [apply fmax_plus |]. split; [done |].
  intros c Hc. by rewrite vec_get_insert_ne.
Qed.

End SendTimes.

Section RoundFacts.

Variable idx : Z -> Z -> Z -> Z -> Z -> Z -> nat.

(** A round of the scheduler loop, seen from the messages: the round
    takes the reference [r] off the priority queue and schedules its
    message; it gives the next message of the same core, if the core
    has one, its sending time; of every other message it changes at
    most [in_noc]. *)
Lemma schedule_step_round ms0 n scheduler st st' :
  wf_messages n ms0 -> Inv ms0 n st -> progress st ->
  schedule_step idx scheduler st = Some st' ->
  exists r m0 m',
    r ∈ st_priority st /\
    (r ∉ pending st') /\
    pending st ≡ₚ r :: pending st' /\
    deref (st_messages st) r = Some m0 /\
    deref (st_messages st') r = Some m' /\
    static m' = static m0 /\
    (placeholder m0 = true ->
       erase m' = erase m0 /\
       core_finished_receiving (st_noc st') = core_finished_receiving (st_noc st)) /\
    (placeholder m0 = false ->
       (sent_timestamp m0 <= sent_timestamp m')%Q /\
       in_noc m' = true /\
       (vec_get (core_finished_receiving (st_noc st)) (Z.to_nat (dest_core_id m0))
        <= received_timestamp m')%Q /\
       (sent_timestamp m' + network_delay m0 <= received_timestamp m')%Q /\
       (processed_timestamp m' == received_timestamp m' + receive_delay m0)%Q /\
       vec_get (core_finished_receiving (st_noc st')) (Z.to_nat (dest_core_id m0))
         = processed_timestamp m' /\
       (forall c, c <> Z.to_nat (dest_core_id m0) ->
          vec_get (core_finished_receiving (st_noc st')) c =
          vec_get (core_finished_receiving (st_noc st)) c)) /\
    ((exists next q' nm nm',
        st_sent_per_core st !! r.1 = Some (next :: q') /\
        st_sent_per_core st' = <[r.1 := q']> (st_sent_per_core st) /\
        st_priority st' = pq_push next (pq_remove r (st_priority st)) /\
        next <> r /\
        deref (st_messages st) next = Some nm /\
        deref (st_messages st') next = Some nm' /\
        static nm' = static nm /\
        sent_timestamp nm' = (sent_timestamp m' + generation_delay nm)%Q /\
        (forall r', r' <> r -> r' <> next ->
           erase <$> deref (st_messages st') r' = erase <$> deref (st_messages st) r')) \/
     ((forall next q', st_sent_per_core st !! r.1 <> Some (next :: q')) /\
      st_sent_per_core st' = st_sent_per_core st /\
      st_priority st' = pq_remove r (st_priority st) /\
      (forall r', r' <> r ->
         erase <$> deref (st_messages st') r' = erase <$> deref (st_messages st) r'))).
Proof.
  intros Hwf HI Hpr Hstep.
  destruct (schedule_step_preserves idx _ _ _ _ _ Hwf HI Hpr Hstep) as (HI' & _ & _).
  destruct (schedule_step_inv idx _ _ _ Hstep)
    as (r & m0 & ms1 & noc1 & m & m' & noc2 & last2 & Hr & Hm0 & Hu & Hm & Hs & Hnext).
  destruct (pop_inv idx _ _ _ _ _ _ _ _ _ _ _ _ Hwf HI Hr Hm0 Hu Hm Hs) as (HI2 & Hp & Hsrc).
  pose proof (pq_top_elem _ _ _ Hr) as Hin.
  assert (Hrd : forall r, rd_of (st_messages st) r = rd_of ms0 r).
  { intros r'. apply rd_of_static, (inv_static _ _ _ HI). }
  destruct (schedule_update_noc_spec idx (rd_of ms0) _ _ _ _ _ Hu Hrd) as (E1 & U2 & U3 & U4).
  specialize (U4 (inv_in_flight _ _ _ HI)).
  destruct (erase_deref _ _ _ _ (E1 r) Hm) as (m0' & Hm0' & Em).
  assert (m0' = m0) as -> by congruence. clear Hm0'.
  destruct (erase_fields _ _ Em) as (Es & Ercv & Eproc & Eph & Eev & Est).
  destruct (static_deref _ _ _ _ (inv_static _ _ _ HI r) Hm0) as (m00 & Hm00 & Est0).
  pose proof Hwf as [Hlen Hwf'].
  destruct r as [c p]. destruct (Hwf' c p m00 Hm00) as (W1 & W2 & W3 & W4).
  destruct (static_fields _ _ Est0) as (S1 & S2 & S3 & S4 & S5 & S6).
  destruct (static_fields _ _ Est) as (R1 & R2 & R3 & R4 & R5 & R6).
  pose proof (inv_nodup _ _ _ HI) as Hnd. rewrite Hp in Hnd.
  apply NoDup_cons in Hnd as [Hr2 Hnd2].
  (* the message that was taken off the queue *)
  assert (Hmsg :
    static m' = static m0 /\
    (placeholder m0 = true -> erase m' = erase m0 /\
       core_finished_receiving noc2 = core_finished_receiving (st_noc st)) /\
    (placeholder m0 = false ->
       (sent_timestamp m0 <= sent_timestamp m')%Q /\
       in_noc m' = true /\
       (vec_get (core_finished_receiving (st_noc st)) (Z.to_nat (dest_core_id m0))
        <= received_timestamp m')%Q /\
       (sent_timestamp m' + network_delay m0 <= received_timestamp m')%Q /\
       (processed_timestamp m' == received_timestamp m' + receive_delay m0)%Q /\
       vec_get (core_finished_receiving noc2) (Z.to_nat (dest_core_id m0))
         = processed_timestamp m' /\
       (forall c, c <> Z.to_nat (dest_core_id m0) ->
          vec_get (core_finished_receiving noc2) c =
          vec_get (core_finished_receiving (st_noc st)) c))).
  { destruct (placeholder m) eqn:Hph.
    - injection Hs as <- <- <-. split; [by rewrite Est |]. split; [| congruence].
      intros _. split; [done | by rewrite U2].
    - assert (Hdest : (Z.to_nat (dest_core_id m) < n)%nat).
      { rewrite R6, S6. assert (placeholder m00 = false) as Hp00 by congruence.
        specialize (W4 Hp00). lia. }
      destruct (schedule_send_spec idx (rd_of ms0) _ _ _ _ _ _ _ _ Hs)
        as (T1 & T2 & _).
      + by apply (rd_of_wf n).
      + rewrite R3, S3. unfold rd_of. by rewrite Hm00.
      + by rewrite R2, S2.
      + rewrite U2, (inv_cfr _ _ _ HI). done.
      + rewrite U3, (inv_mr _ _ _ HI). done.
      + done.
      + destruct (schedule_send_times idx _ _ _ _ _ _ _ _ Hs)
          as (V1 & V2 & V3 & V4 & V5 & V6).
        { rewrite U2, (inv_cfr _ _ _ HI). done. }
        rewrite U2, R6 in V2. rewrite R6 in V5. rewrite U2, R6 in V6.
        rewrite R2 in V3. rewrite R3 in V4.
        split; [congruence |]. split; [congruence |]. intros _.
        rewrite Es in T2. done. }
  destruct Hmsg as (M1 & M2 & M3).
  assert (Hframe : forall r', r' <> (c, p) ->
    erase <$> deref (assign ms1 (c, p) (fun _ => m')) r'
    = erase <$> deref (st_messages st) r').
  { intros r' Hne. rewrite deref_assign_ne by done. apply E1. }
  exists (c, p), m0, m'.
  split; [done |].
  split.
  { destruct (schedule_step_pending idx _ _ _ Hstep) as (r' & Hr' & Hp').
    assert (r' = (c, p)) as -> by congruence.
    pose proof (inv_nodup _ _ _ HI) as Hnd'. rewrite Hp' in Hnd'.
    by apply NoDup_cons in Hnd' as [? _]. }
  split.
  { destruct (schedule_step_pending idx _ _ _ Hstep) as (r' & Hr' & Hp').
    by assert (r' = (c, p)) as -> by congruence. }
  split; [done |].
  simpl in Hnext. rewrite Hsrc in Hnext. cbn [fst] in *.
  destruct Hnext as [(next & q' & nm1 & Hq & Hnm & ->) | [Hnone ->]]; cbn [st_messages st_noc
    st_sent_per_core st_priority].
  - assert (Hne : next <> (c, p)).
    { intros ->. apply Hr2. unfold pending. cbn [st_priority st_sent_per_core].
      apply elem_of_app. right. apply elem_of_concat. exists ((c, p) :: q').
      split; [by eapply list_elem_of_lookup_2 | apply list_elem_of_here]. }
    split.
    { rewrite deref_assign_ne by done. by rewrite deref_assign_eq, Hm. }
    split; [done |]. split; [done |]. split; [done |].
    left.
    rewrite deref_assign_ne in Hnm by done.
    destruct (erase_deref _ _ _ _ (E1 next) Hnm) as (nm & Hnm0 & Enm).
    destruct (erase_fields _ _ Enm) as (_ & _ & _ & _ & _ & Enst).
    destruct (static_fields _ _ Enst) as (_ & _ & _ & G4 & _ & _).
    exists next, q', nm, (set_sent_timestamp (sent_timestamp m' + generation_delay nm1) nm1).
    split; [done |]. split; [done |]. split; [done |]. split; [done |].
    split; [done |].
    split.
    { rewrite deref_assign_eq. rewrite deref_assign_ne by done. by rewrite Hnm. }
    split; [by rewrite <- Enst |]. split; [by rewrite <- G4 |].
    intros r' H1 H2. rewrite deref_assign_ne by done. by apply Hframe.
  - split; [by rewrite deref_assign_eq, Hm |].
    split; [done |]. split; [done |]. split; [done |].
    right. split; [done |]. split; [done |]. split; [done |]. exact Hframe.
Qed.

End RoundFacts.

(** ** The scheduler: a core receives one message at a time *)

Section LoopInvariants.

Variable idx : Z -> Z -> Z -> Z -> Z -> Z -> nat.

(** An invariant of the rounds holds when the loop ends. *)
Lemma schedule_loop_invariant (J : SchedState -> Prop) ms0 n scheduler :
  wf_messages n ms0 ->
  (forall st st', Inv ms0 n st -> progress st -> J st ->
     schedule_step idx scheduler st = Some st' -> J st') ->
  forall fuel st st',
    Inv ms0 n st -> progress st -> J st ->
    schedule_loop idx scheduler fuel st = Some st' ->
    J st' /\ Inv ms0 n st' /\ pending st' = [].
Proof.
  intros Hwf Hstep. induction fuel as [| fuel IH]; intros st st' HI Hpr HJ Hloop.
  - simpl in Hloop. destruct (st_priority st) as [| r pq] eqn:Hpq; [| done].
    injection Hloop as <-. split; [done |]. split; [done |].
    unfold pending. rewrite Hpq. simpl. apply concat_nil_queues.
    intros c q Hc. destruct q as [| x q]; [done |].
    destruct (Hpr c (x :: q) Hc) as (r' & Hr' & _); [done |].
    rewrite Hpq in Hr'. by apply elem_of_nil in Hr'.
  - simpl in Hloop. destruct (st_priority st) as [| r pq] eqn:Hpq.
    + injection Hloop as <-. split; [done |]. split; [done |].
      unfold pending. rewrite Hpq. simpl. apply concat_nil_queues.
      intros c q Hc. destruct q as [| x q]; [done |].
      destruct (Hpr c (x :: q) Hc) as (r' & Hr' & _); [done |].
      rewrite Hpq in Hr'. by apply elem_of_nil in Hr'.
    + destruct (schedule_step idx scheduler st) as [st1 |] eqn:Hst1; [| done].
      simpl in Hloop.
      destruct (schedule_step_preserves idx _ _ _ _ _ Hwf HI Hpr Hst1) as (HI1 & Hpr1 & _).
      apply (IH st1); [done | done | | done]. exact (Hstep st st1 HI Hpr HJ Hst1).
Qed.

(** Before the first round every message is still to be scheduled. *)
Lemma schedule_start_pending ms0 scheduler r :
  wf_messages (sched_core_count scheduler) ms0 ->
  is_Some (deref (st_messages (schedule_start ms0 scheduler)) r) ->
  r ∈ pending (schedule_start ms0 scheduler).
Proof.
  intros Hwf Hr.
  destruct (schedule_start_inv ms0 scheduler Hwf) as [HI _].
  assert (Hr0 : is_Some (deref ms0 r)).
  { eapply is_Some_fmap_eq; [symmetry; apply (inv_static _ _ _ HI) | done]. }
  revert Hr0. clear Hr HI.
  unfold schedule_start, pending. simpl.
  set (n := sched_core_count scheduler) in *.
  destruct (schedule_init_timing_priority (messages_sent_per_core ms0 n) ms0 [])
    as [[p qs] ms1] eqn:Hinit.
  destruct (init_spec _ _ _ 0%nat _ _ _ Hinit) as (A1 & _).
  { intros i q r' Hq Hr'. unfold messages_sent_per_core in Hq.
    rewrite list_lookup_fmap in Hq. destruct (seq 0 n !! i) as [c |] eqn:Hc; [| done].
    apply lookup_seq in Hc as [-> _]. injection Hq as <-.
    by apply elem_of_refs_of_core in Hr' as [-> _]. }
  simpl in A1. simpl. intros Hr. rewrite A1. unfold messages_sent_per_core.
  rewrite elem_of_sent_per_core. split; [| done]. destruct Hwf as [Hlen _].
  apply deref_is_Some in Hr. destruct (ms0 !! r.1) as [q |] eqn:Hq; simpl in Hr; [| lia].
  apply lookup_lt_Some in Hq. lia.
Qed.

(** The invariant from the first state to the result of
    [schedule_messages]. *)
Lemma schedule_messages_invariant (J : SchedState -> Prop) ms0 scheduler :
  wf_messages (sched_core_count scheduler) ms0 ->
  J (schedule_start ms0 scheduler) ->
  (forall st st', Inv ms0 (sched_core_count scheduler) st -> progress st -> J st ->
     schedule_step idx scheduler st = Some st' -> J st') ->
  exists st,
    schedule_messages idx ms0 scheduler = Some (st_last_timestamp st, st_messages st) /\
    J st /\ Inv ms0 (sched_core_count scheduler) st /\ pending st = [].
Proof.
  intros Hwf H0 Hstep.
  destruct (schedule_start_inv ms0 scheduler Hwf) as [HI Hpr].
  destruct (schedule_loop_spec idx ms0 _ scheduler
              (length (pending (schedule_start ms0 scheduler))) _ Hwf HI Hpr)
    as (st & Hloop & _); [done |].
  destruct (schedule_loop_invariant J ms0 _ scheduler Hwf Hstep _ _ _ HI Hpr H0 Hloop)
    as (HJ & HI' & Hp).
  exists st. unfold schedule_messages. rewrite Hloop. done.
Qed.

End LoopInvariants.

Section ReceivedInTurn.

Variable idx : Z -> Z -> Z -> Z -> Z -> Z -> nat.

Lemma received_in_turn_step ms0 n scheduler st st' :
  wf_messages n ms0 -> Inv ms0 n st -> progress st -> received_in_turn st ->
  schedule_step idx scheduler st = Some st' -> received_in_turn st'.
Proof.
  intros Hwf HI Hpr HJ Hstep.
  destruct (schedule_step_round idx _ _ _ _ _ Hwf HI Hpr Hstep)
    as (r & m0 & m' & Hin & Hr' & Hp & Hm0 & Hm' & Mst & Mph & Mreal & Hnext).
  (* the other scheduled messages are as they were *)
  assert (Hold : forall r1 m1, r1 <> r -> deref (st_messages st') r1 = Some m1 ->
            r1 ∉ pending st' ->
            exists mo, deref (st_messages st) r1 = Some mo /\ erase m1 = erase mo /\
                       r1 ∉ pending st).
  { intros r1 m1 Hne H1 Hnp.
    assert (E : erase <$> deref (st_messages st') r1 = erase <$> deref (st_messages st) r1).
    { destruct Hnext as [(next & q' & nm & nm' & _ & _ & Hpq & _ & _ & _ & _ & _ & F)
                        | (_ & _ & _ & F)]; [| by apply F].
      apply F; [done |]. intros ->. apply Hnp. unfold pending. rewrite Hpq.
      apply elem_of_app. left. unfold pq_push. apply elem_of_app. right.
      apply list_elem_of_here. }
    destruct (erase_deref _ _ _ _ E H1) as (mo & Hmo & Emo).
    exists mo. split; [done |]. split; [done |].
    rewrite Hp. intros [-> | H]%elem_of_cons; done. }
  (* the receive delay of the message of the round is not negative *)
  assert (Hrd0 : (0 <= receive_delay m0)%Q).
  { destruct (static_deref _ _ _ _ (inv_static _ _ _ HI r) Hm0) as (m00 & Hm00 & Est0).
    destruct (static_fields _ _ Est0) as (_ & _ & -> & _).
    destruct Hwf as [_ Hwf]. destruct r as [c p]. by destruct (Hwf c p m00 Hm00) as (_ & _ & ? & _). }
  (* no core is busy for less long than before *)
  assert (Hmono : forall c,
    (vec_get (core_finished_receiving (st_noc st)) c <=
     vec_get (core_finished_receiving (st_noc st')) c)%Q).
  { intros c. destruct (placeholder m0) eqn:Hph.
    - destruct (Mph eq_refl) as [_ ->]. lra.
    - destruct (Mreal eq_refl) as (_ & _ & V2 & _ & V4 & V5 & V6).
      destruct (decide (c = Z.to_nat (dest_core_id m0))) as [-> | Hc].
      + rewrite V5. lra.
      + rewrite (V6 c Hc). lra. }
  destruct (static_fields _ _ Mst) as (_ & N2 & N3 & _ & N5 & N6).
  intros ra ma Hma Hnp Hreal.
  destruct (decide (ra = r)) as [-> | Hne].
  - assert (ma = m') as -> by congruence.
    rewrite N5 in Hreal.
    destruct (Mreal Hreal) as (_ & _ & V2 & V3 & V4 & V5 & _).
    rewrite N2, N3, N6. split; [done |]. split; [done |].
    split; [rewrite V5; lra |].
    intros r2 m2 Hne2 Hm2 Hnp2 Hreal2 Hdest2.
    destruct (Hold r2 m2 Hne2 Hm2 Hnp2) as (mo & Hmo & Emo & Hnpo).
    destruct (erase_fields _ _ Emo) as (_ & _ & Ep & Eph & _ & Est).
    destruct (static_fields _ _ Est) as (_ & _ & _ & _ & _ & Ed).
    destruct (HJ r2 mo Hmo Hnpo) as (_ & _ & B3 & _); [congruence |].
    right. rewrite Ep. rewrite <- Ed, Hdest2 in B3. lra.
  - destruct (Hold ra ma Hne Hma Hnp) as (mo & Hmo & Emo & Hnpo).
    destruct (erase_fields _ _ Emo) as (Es & Er & Ep & Eph & _ & Est).
    destruct (static_fields _ _ Est) as (_ & En & Erd & _ & _ & Ed).
    destruct (HJ ra mo Hmo Hnpo) as (B1 & B2 & B3 & B4); [congruence |].
    rewrite Es, Er, Ep, En, Erd, Ed.
    split; [done |]. split; [done |].
    split; [pose proof (Hmono (Z.to_nat (dest_core_id mo))); lra |].
    intros r2 m2 Hne2 Hm2 Hnp2 Hreal2 Hdest2.
    destruct (decide (r2 = r)) as [-> | Hne3].
    + assert (m2 = m') as -> by congruence.
      rewrite N5 in Hreal2.
      destruct (Mreal Hreal2) as (_ & _ & V2 & _).
      left. rewrite N6 in Hdest2. rewrite <- Hdest2 in B3. lra.
    + destruct (Hold r2 m2 Hne3 Hm2 Hnp2) as (m2o & Hm2o & Em2o & Hnp2o).
      destruct (erase_fields _ _ Em2o) as (_ & Er2 & Ep2 & Eph2 & _ & Est2).
      destruct (static_fields _ _ Est2) as (_ & _ & _ & _ & _ & Ed2).
      rewrite Er2, Ep2.
      apply (B4 r2 m2o); [done | done | done | congruence | congruence].
Qed.

Lemma received_in_turn_start ms0 scheduler :
  wf_messages (sched_core_count scheduler) ms0 ->
  received_in_turn (schedule_start ms0 scheduler).
Proof.
  intros Hwf r m Hm Hnp. destruct Hnp. apply schedule_start_pending; [done |].
  by rewrite Hm.
Qed.

(** X1.  On well-formed input [schedule_messages] returns the messages
    it was given, each at its position and with only its timestamps
    and [in_noc] written, and every one that is not a placeholder is
    received no earlier than its sending plus its own network delay
    and is processed exactly [receive_delay] after it is received. *)
Theorem schedule_messages_receive_times ms scheduler :
  wf_messages (sched_core_count scheduler) ms ->
  exists t out,
    schedule_messages idx ms scheduler = Some (t, out) /\
    (forall r, static <$> deref out r = static <$> deref ms r) /\
    forall m, m ∈ concat out -> placeholder m = false ->
      (sent_timestamp m + network_delay m <= received_timestamp m)%Q /\
      (processed_timestamp m == received_timestamp m + receive_delay m)%Q.
Proof.
  intros Hwf.
  destruct (schedule_messages_invariant idx received_in_turn ms scheduler Hwf)
    as (st & Hrun & HJ & HI & Hp).
  { by apply received_in_turn_start. }
  { intros st1 st2. by apply received_in_turn_step. }
  exists (st_last_timestamp st), (st_messages st). split; [done |].
  split; [apply (inv_static _ _ _ HI) |].
  intros m Hm Hreal. apply elem_of_concat_deref in Hm as [r Hr].
  destruct (HJ r m Hr) as (B1 & B2 & _); [rewrite Hp; apply not_elem_of_nil | done |].
  done.
Qed.

(** X2.  On well-formed input [schedule_messages] returns the messages
    it was given, each at its position and with only its timestamps
    and [in_noc] written, and a core receives one message at a time:
    a spike message keeps its core busy from the time it is received
    for its receive delay, and of two spike messages for the same
    core, one is processed before the other is received. *)
Theorem schedule_messages_one_at_a_time ms scheduler :
  wf_messages (sched_core_count scheduler) ms ->
  exists t out,
    schedule_messages idx ms scheduler = Some (t, out) /\
    (forall r, static <$> deref out r = static <$> deref ms r) /\
    forall r1 r2 m1 m2,
      r1 <> r2 -> deref out r1 = Some m1 -> deref out r2 = Some m2 ->
      placeholder m1 = false -> placeholder m2 = false ->
      dest_core_id m1 = dest_core_id m2 ->
      (processed_timestamp m1 == received_timestamp m1 + receive_delay m1)%Q /\
      (processed_timestamp m2 == received_timestamp m2 + receive_delay m2)%Q /\
      ((processed_timestamp m1 <= received_timestamp m2)%Q \/
       (processed_timestamp m2 <= received_timestamp m1)%Q).
Proof.
  intros Hwf.
  destruct (schedule_messages_invariant idx received_in_turn ms scheduler Hwf)
    as (st & Hrun & HJ & HI & Hp).
  { by apply received_in_turn_start. }
  { intros st1 st2. by apply received_in_turn_step. }
  exists (st_last_timestamp st), (st_messages st). split; [done |].
  split; [apply (inv_static _ _ _ HI) |].
  intros r1 r2 m1 m2 Hne H1 H2 P1 P2 Hd.
  destruct (HJ r1 m1 H1) as (B1 & _ & _ & B4); [rewrite Hp; apply not_elem_of_nil | done |].
  destruct (HJ r2 m2 H2) as (C1 & _); [rewrite Hp; apply not_elem_of_nil | done |].
  split; [done |]. split; [done |].
  apply (B4 r2 m2); [done | done | rewrite Hp; apply not_elem_of_nil | done | done].
Qed.

(** C7.  [schedule_messages] returns the messages it was given, each
    at its position in the queue of its core and with nothing but its
    timestamps and [in_noc] written, and every one of them that is
    not a placeholder was sent no later than it was received, and
    received no later than it was processed: it is received no
    earlier than its sending plus its network delay, and processed its
    receive delay after it is received. *)
Theorem schedule_messages_order ms scheduler :
  wf_messages (sched_core_count scheduler) ms ->
  exists t out,
    schedule_messages idx ms scheduler = Some (t, out) /\
    (forall r, static <$> deref out r = static <$> deref ms r) /\
    forall m, m ∈ concat out -> placeholder m = false ->
      (sent_timestamp m <= received_timestamp m)%Q /\
      (received_timestamp m <= processed_timestamp m)%Q /\
      (sent_timestamp m + network_delay m <= received_timestamp m)%Q /\
      (processed_timestamp m == received_timestamp m + receive_delay m)%Q.
Proof.
  intros Hwf.
  destruct (schedule_messages_invariant idx received_in_turn ms scheduler Hwf)
    as (st & Hrun & HJ & HI & Hp).
  { by apply received_in_turn_start. }
  { intros st1 st2. by apply received_in_turn_step. }
  exists (st_last_timestamp st), (st_messages st). split; [done |].
  split; [apply (inv_static _ _ _ HI) |].
  intros m Hm Hreal. apply elem_of_concat_deref in Hm as [r Hr].
  assert (Hnp : r ∉ pending st) by (rewrite Hp; apply not_elem_of_nil).
  destruct (inv_order _ _ _ HI r m Hr Hnp Hreal) as [O1 O2].
  destruct (HJ r m Hr Hnp Hreal) as (B1 & B2 & _).
  done.
Qed.

End ReceivedInTurn.

(** ** The scheduler: the links of a route and their densities *)

Section RouteFacts.

Variable idx : Z -> Z -> Z -> Z -> Z -> Z -> nat.

Lemma add_along_snoc a links i v :
  add_along a (links ++ [i]) v = vec_add a i (add_along a links v).
Proof. unfold add_along. by rewrite foldl_app. Qed.

Lemma sum_along_snoc v links i :
  sum_along v (links ++ [i]) = (sum_along v links + vec_get v i)%Q.
Proof. unfold sum_along. by rewrite foldl_app. Qed.

Lemma counts_x_links m noc a v xs : forall L prev,
  foldl (counts_x_body idx m noc a) (add_along a L v, prev) xs =
  ((add_along a (foldl (links_x_body idx m noc) (L, prev) xs).1 v),
   (foldl (links_x_body idx m noc) (L, prev) xs).2).
Proof.
  induction xs as [| x xs IH]; intros L prev; [done |].
  simpl. unfold counts_x_body at 2, links_x_body at 2 4. cbn [fst snd].
  destruct (x =? src_x m); rewrite <- add_along_snoc; apply IH.
Qed.

Lemma counts_y_links m noc a v ys : forall L prev,
  foldl (counts_y_body idx m noc a) (add_along a L v, prev) ys =
  ((add_along a (foldl (links_y_body idx m noc) (L, prev) ys).1 v),
   (foldl (links_y_body idx m noc) (L, prev) ys).2).
Proof.
  induction ys as [| y ys IH]; intros L prev; [done |].
  simpl. unfold counts_y_body at 2, links_y_body at 2 4. cbn [fst snd].
  destruct ((src_x m =? dest_x m) && (y =? src_y m)); rewrite <- add_along_snoc; apply IH.
Qed.

(** The density update adds the adjustment at the positions of
    [route_links], in order. *)
Lemma update_density_links m noc b :
  update_density idx m noc b =
  add_along (density_adjust m b) (route_links idx m noc) (message_density noc).
Proof.
  unfold update_density, route_links. cbv zeta.
  change (message_density noc) with (add_along (density_adjust m b) [] (message_density noc)) at 1.
  rewrite counts_x_links.
  destruct (foldl (links_x_body idx m noc) _ _) as [L1 p1]. cbn [fst snd].
  rewrite counts_y_links.
  destruct (foldl (links_y_body idx m noc) _ _) as [L2 p2].
  unfold counts_last. cbn [fst snd]. rewrite add_along_snoc.
  by destruct ((src_x m =? dest_x m) && (src_y m =? dest_y m)).
Qed.

Lemma route_x_links m noc xs : forall L prev,
  foldl (route_x_body idx m noc) (sum_along (message_density noc) L, prev) xs =
  (sum_along (message_density noc) (foldl (links_x_body idx m noc) (L, prev) xs).1,
   (foldl (links_x_body idx m noc) (L, prev) xs).2).
Proof.
  induction xs as [| x xs IH]; intros L prev; [done |].
  simpl. unfold route_x_body at 2, links_x_body at 2 4. cbn [fst snd].
  destruct (x =? src_x m); rewrite <- sum_along_snoc; apply IH.
Qed.

Lemma route_y_links m noc ys : forall L prev,
  foldl (route_y_body idx m noc) (sum_along (message_density noc) L, prev) ys =
  (sum_along (message_density noc) (foldl (links_y_body idx m noc) (L, prev) ys).1,
   (foldl (links_y_body idx m noc) (L, prev) ys).2).
Proof.
  induction ys as [| y ys IH]; intros L prev; [done |].
  simpl. unfold route_y_body at 2, links_y_body at 2 4. cbn [fst snd].
  destruct ((src_x m =? dest_x m) && (y =? src_y m)); rewrite <- sum_along_snoc; apply IH.
Qed.

(** The route density is the sum of the densities at the positions of
    [route_links]: the positions the update writes. *)
Lemma route_density_links m noc :
  schedule_calculate_messages_along_route idx m noc =
  sum_along (message_density noc) (route_links idx m noc).
Proof.
  unfold schedule_calculate_messages_along_route, route_links.
  pose proof (route_x_links m noc (loop_values (src_x m) (dest_x m)) []
                (ndirections + src_core_offset m)) as Ex.
  change (sum_along _ []) with 0%Q in Ex.
  cbv zeta. rewrite Ex.
  destruct (foldl (links_x_body idx m noc) _ _) as [L1 p1]. cbn [fst snd].
  rewrite route_y_links.
  destruct (foldl (links_y_body idx m noc) _ _) as [L2 p2].
  cbn [fst snd]. rewrite sum_along_snoc.
  by destruct ((src_x m =? dest_x m) && (src_y m =? dest_y m)).
Qed.

End RouteFacts.

Section DensityFacts.

Variable idx : Z -> Z -> Z -> Z -> Z -> Z -> nat.

Lemma links_x_length m noc xs : forall L prev,
  length (foldl (links_x_body idx m noc) (L, prev) xs).1 = (length L + length xs)%nat.
Proof.
  induction xs as [| x xs IH]; intros L prev; simpl; [lia |].
  unfold links_x_body at 2. cbn [fst snd]. rewrite IH, length_app. simpl. lia.
Qed.

Lemma links_y_length m noc ys : forall L prev,
  length (foldl (links_y_body idx m noc) (L, prev) ys).1 = (length L + length ys)%nat.
Proof.
  induction ys as [| y ys IH]; intros L prev; simpl; [lia |].
  unfold links_y_body at 2. cbn [fst snd]. rewrite IH, length_app. simpl. lia.
Qed.

Lemma loop_values_length a b : length (loop_values a b) = Z.to_nat (Z.abs (b - a)).
Proof. unfold loop_values. by rewrite length_fmap, length_seq. Qed.

(** The route of a message has one position for every hop in x, one
    for every hop in y, and one for the last tile. *)
Lemma route_links_length m noc :
  length (route_links idx m noc) =
  (Z.to_nat (Z.abs (dest_x m - src_x m)) + Z.to_nat (Z.abs (dest_y m - src_y m)) + 1)%nat.
Proof.
  unfold route_links. cbv zeta. rewrite length_app.
  destruct (foldl (links_x_body idx m noc) _ _) as [L1 p1] eqn:E1.
  rewrite links_y_length. cbn [fst snd length].
  pose proof (links_x_length m noc (loop_values (src_x m) (dest_x m)) []
                (ndirections + src_core_offset m)) as H.
  rewrite E1 in H. cbn [fst] in H. rewrite H, !loop_values_length. simpl. lia.
Qed.

Lemma route_links_density m noc d :
  route_links idx m (set_message_density d noc) = route_links idx m noc.
Proof. reflexivity. Qed.

Lemma add_along_length a links : forall v, length (add_along a links v) = length v.
Proof.
  induction links as [| i links IH]; intros v; [done |].
  unfold add_along in *. simpl. rewrite IH. unfold vec_add. apply length_alter.
Qed.

Lemma vec_get_add a i j v :
  (vec_get (vec_add a i v) j ==
   if decide (i = j) then (if decide (j < length v)%nat then vec_get v j + a else 0)
   else vec_get v j)%Q.
Proof.
  unfold vec_get, vec_add. destruct (decide (i = j)) as [-> | Hne].
  - rewrite list_lookup_alter_eq. destruct (decide (j < length v)%nat) as [Hj | Hj].
    + destruct (lookup_lt_is_Some_2 _ _ Hj) as [x ->]. simpl. reflexivity.
    + rewrite lookup_ge_None_2 by lia. simpl. reflexivity.
  - rewrite list_lookup_alter_ne by done. reflexivity.
Qed.

Lemma visits_snoc i links j :
  visits i (links ++ [j]) = (visits i links + if decide (j = i) then 1 else 0)%nat.
Proof.
  unfold visits. rewrite filter_app, length_app. f_equal.
  rewrite filter_cons. destruct (decide (j = i)); done.
Qed.

(** The entry at a position of the vector after the additions. *)
Lemma vec_get_add_along a (j : nat) v links :
  (j < length v)%nat ->
  (vec_get (add_along a links v) j ==
   vec_get v j + inject_Z (Z.of_nat (visits j links)) * a)%Q.
Proof.
  intros Hj. induction links as [| i links IH] using rev_ind.
  - unfold add_along, visits. simpl. change (inject_Z (Z.of_nat 0)) with 0%Q. lra.
  - rewrite add_along_snoc, vec_get_add, visits_snoc.
    rewrite add_along_length.
    destruct (decide (i = j)) as [-> | Hne].
    + rewrite decide_True by done. rewrite IH.
      rewrite Nat2Z.inj_add, inject_Z_plus. change (inject_Z (Z.of_nat 1)) with 1%Q. lra.
    + rewrite IH. rewrite Nat.add_0_r. reflexivity.
Qed.

Lemma vec_get_outside (v : list Q) (j : nat) : (length v <= j)%nat -> vec_get v j = 0%Q.
Proof. intros H. unfold vec_get. by rewrite lookup_ge_None_2. Qed.

Lemma Forall2_Qeq_lookup (v w : list Q) :
  length v = length w -> (forall j, (j < length v)%nat -> (vec_get v j == vec_get w j)%Q) ->
  Forall2 Qeq v w.
Proof.
  revert w. induction v as [| x v IH]; intros [| y w] Hlen H; try done.
  constructor.
  - apply (H 0%nat). simpl. lia.
  - apply IH; [simpl in Hlen; lia |]. intros j Hj. apply (H (S j)). simpl. lia.
Qed.

End DensityFacts.

Section DensityTheorems.

Variable idx : Z -> Z -> Z -> Z -> Z -> Z -> nat.

Lemma counts_density m noc b :
  message_density (schedule_update_noc_message_counts idx m noc b) =
  add_along (density_adjust m b) (route_links idx m noc) (message_density noc).
Proof.
  rewrite <- update_density_links. unfold schedule_update_noc_message_counts. cbv zeta.
  destruct b; [done |]. by destruct (1 <? _).
Qed.

Lemma counts_links m noc b m' :
  route_links idx m' (schedule_update_noc_message_counts idx m noc b) =
  route_links idx m' noc.
Proof.
  unfold schedule_update_noc_message_counts. cbv zeta.
  destruct b; [done |]. by destruct (1 <? _).
Qed.

Lemma Qsum_vec_add a (v : list Q) : forall i : nat,
  (i < length v)%nat -> (Qsum (vec_add a i v) == Qsum v + a)%Q.
Proof.
  induction v as [| x v IH]; intros i Hi; [simpl in Hi; lia |].
  destruct i as [| i].
  - change (Qsum (vec_add a 0 (x :: v))) with ((x + a) + Qsum v)%Q.
    change (Qsum (x :: v)) with (x + Qsum v)%Q. lra.
  - change (Qsum (vec_add a (S i) (x :: v))) with (x + Qsum (vec_add a i v))%Q.
    change (Qsum (x :: v)) with (x + Qsum v)%Q.
    rewrite IH by (simpl in Hi; lia). lra.
Qed.

Lemma Qsum_add_along a links : forall v,
  Forall (fun i => (i < length v)%nat) links ->
  (Qsum (add_along a links v) == Qsum v + inject_Z (Z.of_nat (length links)) * a)%Q.
Proof.
  induction links as [| i links IH] using rev_ind; intros v H.
  - unfold add_along. simpl. change (inject_Z (Z.of_nat 0)) with 0%Q. lra.
  - apply Forall_app in H as [H1 H2]. apply Forall_inv in H2.
    rewrite add_along_snoc, Qsum_vec_add by (by rewrite add_along_length).
    rewrite IH by done. rewrite length_app, Nat2Z.inj_add, inject_Z_plus.
    change (inject_Z (Z.of_nat (length [i]))) with 1%Q. lra.
Qed.

(** X4.  The density update adds the adjustment of the message at one
    entry of the vector for every hop of the route and at one more:
    when these entries exist, the sum of the vector changes by
    (|dx| + |dy| + 1) times the adjustment. *)
Theorem message_counts_density_total m noc message_in :
  Forall (fun i => (i < length (message_density noc))%nat) (route_links idx m noc) ->
  (Qsum (message_density (schedule_update_noc_message_counts idx m noc message_in)) ==
   Qsum (message_density noc) +
   inject_Z (Z.abs (dest_x m - src_x m) + Z.abs (dest_y m - src_y m) + 1) *
   density_adjust m message_in)%Q.
Proof.
  intros H. rewrite counts_density, Qsum_add_along by done.
  rewrite route_links_length.
  replace (Z.of_nat _) with (Z.abs (dest_x m - src_x m) + Z.abs (dest_y m - src_y m) + 1)
    by lia.
  reflexivity.
Qed.

Lemma vec_get_add_along_ne a (j : nat) links : forall v,
  j ∉ links -> vec_get (add_along a links v) j = vec_get v j.
Proof.
  induction links as [| i links IH]; intros v H; [done |].
  apply not_elem_of_cons in H as [H1 H2].
  unfold add_along in *. simpl. rewrite IH by done.
  unfold vec_get, vec_add. by rewrite list_lookup_alter_ne.
Qed.

Lemma sum_along_ext v w links :
  (forall j, j ∈ links -> vec_get v j = vec_get w j) ->
  sum_along v links = sum_along w links.
Proof.
  induction links as [| i links IH] using rev_ind; intros H; [done |].
  rewrite !sum_along_snoc. rewrite IH, H; [done | |].
  - apply elem_of_app. right. apply list_elem_of_here.
  - intros j Hj. apply H. apply elem_of_app. by left.
Qed.

(** X3.  Taking a message out of the NoC mirrors putting it in: the
    removal adjusts the entries of the density vector that the
    addition adjusted, in the same order and by the negated amount,
    and no other entry; the number of messages in flight is as
    before, and the mean receive delay is reset to zero when the NoC
    held no message before.  The queues and the times of the cores
    are untouched. *)
Theorem message_counts_round_trip m noc :
  let noc1 := schedule_update_noc_message_counts idx m noc true in
  let noc2 := schedule_update_noc_message_counts idx m noc1 false in
  let links := route_links idx m noc in
  message_density noc1 = add_along (density_adjust m true) links (message_density noc) /\
  message_density noc2 = add_along (density_adjust m false) links (message_density noc1) /\
  (density_adjust m false == - density_adjust m true)%Q /\
  (forall j : nat, j ∉ links ->
     vec_get (message_density noc2) j = vec_get (message_density noc) j) /\
  messages_in_noc noc1 = messages_in_noc noc + 1 /\
  messages_in_noc noc2 = messages_in_noc noc /\
  (messages_in_noc noc = 0 -> mean_in_flight_receive_delay noc2 = 0%Q) /\
  messages_received noc2 = messages_received noc /\
  core_finished_receiving noc2 = core_finished_receiving noc.
Proof.
  intros noc1 noc2 links.
  split; [apply counts_density |].
  split.
  { unfold noc2, noc1, links.
    rewrite (counts_density m (schedule_update_noc_message_counts idx m noc true) false).
    by rewrite counts_links. }
  split; [unfold density_adjust; cbv zeta; ring |].
  split.
  { intros j Hj. unfold noc2, noc1.
    rewrite (counts_density m (schedule_update_noc_message_counts idx m noc true) false).
    rewrite counts_links, counts_density. by rewrite !vec_get_add_along_ne. }
  split; [done |].
  split.
  { unfold noc2, noc1, schedule_update_noc_message_counts. cbv zeta.
    cbn [messages_in_noc set_in_flight set_message_density mean_in_flight_receive_delay].
    destruct (1 <? messages_in_noc noc + 1); cbn [messages_in_noc set_in_flight]; lia. }
  split.
  { intros H0. unfold noc2, noc1, schedule_update_noc_message_counts. cbv zeta.
    cbn [messages_in_noc set_in_flight set_message_density mean_in_flight_receive_delay].
    rewrite H0. reflexivity. }
  destruct (counts_fields idx m noc true) as (A1 & A2 & _).
  destruct (counts_fields idx m (schedule_update_noc_message_counts idx m noc true) false)
    as (B1 & B2 & _).
  unfold noc2, noc1. split; congruence.
Qed.

(** X5.  A message that enters or leaves the NoC does not change the
    route density of a message whose route shares no link with its
    own. *)
Theorem route_density_disjoint m1 m2 noc message_in :
  (forall j, j ∈ route_links idx m2 noc -> j ∉ route_links idx m1 noc) ->
  schedule_calculate_messages_along_route idx m2
    (schedule_update_noc_message_counts idx m1 noc message_in) =
  schedule_calculate_messages_along_route idx m2 noc.
Proof.
  intros H. rewrite !route_density_links, counts_links, counts_density.
  apply sum_along_ext. intros j Hj. apply vec_get_add_along_ne. by apply H.
Qed.

Lemma visits_notin (i : nat) links : i ∉ links -> visits i links = 0%nat.
Proof.
  unfold visits. induction links as [| x l IH]; intros H; [done |].
  apply not_elem_of_cons in H as [H1 H2].
  rewrite filter_cons_False by (intros ->; done). by apply IH.
Qed.

Lemma visits_NoDup (i : nat) links : NoDup links -> i ∈ links -> visits i links = 1%nat.
Proof.
  induction 1 as [| x l Hx Hnd IH]; intros Hi; [by apply elem_of_nil in Hi |].
  apply elem_of_cons in Hi as [-> | Hi].
  - unfold visits. rewrite filter_cons_True by done. simpl. f_equal.
    by apply visits_notin.
  - unfold visits. rewrite filter_cons_False by (intros ->; done). by apply IH.
Qed.

Lemma sum_along_add_self a links v :
  NoDup links ->
  Forall (fun i => (i < length v)%nat) links ->
  forall part, (forall j, j ∈ part -> j ∈ links) ->
    (sum_along (add_along a links v) part ==
     sum_along v part + inject_Z (Z.of_nat (length part)) * a)%Q.
Proof.
  intros Hnd Hr part. induction part as [| i part IH] using rev_ind; intros Hsub.
  - unfold sum_along. simpl. change (inject_Z (Z.of_nat 0)) with 0%Q. lra.
  - rewrite !sum_along_snoc.
    assert (Hi : i ∈ links).
    { apply Hsub. apply elem_of_app. right. apply list_elem_of_here. }
    rewrite IH.
    2:{ intros j Hj. apply Hsub. apply elem_of_app. by left. }
    rewrite vec_get_add_along.
    2:{ rewrite Forall_forall in Hr. by apply Hr. }
    rewrite (visits_NoDup i links Hnd Hi), length_app, Nat2Z.inj_add, inject_Z_plus.
    change (inject_Z (Z.of_nat 1)) with 1%Q. change (inject_Z (Z.of_nat (length [i]))) with 1%Q.
    lra.
Qed.

(** X6.  While a message is in the NoC, the route density of a message
    on the same route is higher by (|dx| + |dy| + 1) times the
    adjustment 1 / (hops + 2), when the links of the route are
    distinct entries of the vector. *)
Theorem route_density_same_route m noc :
  NoDup (route_links idx m noc) ->
  Forall (fun i => (i < length (message_density noc))%nat) (route_links idx m noc) ->
  (schedule_calculate_messages_along_route idx m
     (schedule_update_noc_message_counts idx m noc true) ==
   schedule_calculate_messages_along_route idx m noc +
   inject_Z (Z.abs (dest_x m - src_x m) + Z.abs (dest_y m - src_y m) + 1) /
   (2 + inject_Z (hops m)))%Q.
Proof.
  intros Hnd Hr. rewrite !route_density_links, counts_links, counts_density.
  rewrite sum_along_add_self by done.
  rewrite route_links_length.
  replace (Z.of_nat _) with (Z.abs (dest_x m - src_x m) + Z.abs (dest_y m - src_y m) + 1)
    by lia.
  unfold density_adjust. unfold Qdiv. ring.
Qed.

End DensityTheorems.

(** ** The scheduler: messages leaving the NoC *)

Lemma foldl_ext_in {A B} (f g : A -> B -> A) (l : list B) : forall a,
  (forall x, x ∈ l -> forall a, f a x = g a x) -> foldl f a l = foldl g a l.
Proof.
  induction l as [| x l IH]; intros a H; [done |]. simpl.
  rewrite (H x) by apply list_elem_of_here. apply IH.
  intros y Hy. by apply H, list_elem_of_further.
Qed.

Lemma filter_ext_in {A} (P Q : A -> Prop) `{!forall x, Decision (P x)}
    `{!forall x, Decision (Q x)} (l : list A) :
  (forall x, x ∈ l -> P x <-> Q x) -> filter P l = filter Q l.
Proof.
  induction l as [| x l IH]; intros Hext; [done |].
  assert (Hl : filter P l = filter Q l).
  { apply IH. intros y Hy. by apply Hext, list_elem_of_further. }
  assert (Hx : P x <-> Q x) by apply Hext, list_elem_of_here.
  destruct (decide (P x)) as [HP | HP].
  - rewrite !filter_cons_True; [by rewrite Hl | by apply Hx | done].
  - rewrite !filter_cons_False; [done | by rewrite <- Hx | done].
Qed.

Lemma deref_clear_all (l : list MessageRef) : forall ms r,
  deref (foldl (fun ms r => assign ms r (set_in_noc false)) ms l) r =
  if decide (r ∈ l) then set_in_noc false <$> deref ms r else deref ms r.
Proof.
  induction l as [| x l IH]; intros ms r; [done |]. simpl. rewrite IH.
  rewrite deref_assign.
  destruct (decide (r ∈ l)) as [Hl | Hl], (decide (x = r)) as [-> | Hx].
  - rewrite decide_True by apply list_elem_of_here. by destruct (deref ms r).
  - rewrite decide_True by (by apply list_elem_of_further). done.
  - rewrite decide_True by apply list_elem_of_here. done.
  - rewrite decide_False; [done |]. intros H. apply elem_of_cons in H as [-> | H]; done.
Qed.

Section UpdateNocFacts.

Variable idx : Z -> Z -> Z -> Z -> Z -> Z -> nat.

Lemma delivered_by_assign t ms r r' :
  delivered_by t (assign ms r (set_in_noc false)) r' = true ->
  delivered_by t ms r' = true /\ r' <> r.
Proof.
  unfold delivered_by. rewrite deref_assign. case_decide as E.
  - subst r'. destruct (deref ms r) as [m |]; simpl; [| done]. done.
  - intros H. done.
Qed.

Lemma update_noc_queue_delivered t q : forall ms noc kept ms' noc',
  update_noc_queue idx t q ms noc = (kept, ms', noc') ->
  (forall r, delivered_by t ms' r = true -> delivered_by t ms r = true) /\
  Forall (fun r => delivered_by t ms' r = false) kept /\
  (forall r, delivered_by t ms r = false -> deref ms' r = deref ms r) /\
  messages_in_noc noc' = messages_in_noc noc - Z.of_nat (length q - length kept) /\
  (length kept <= length q)%nat.
Proof.
  induction q as [| r q IH]; intros ms noc kept ms' noc' H; simpl in H.
  - injection H as <- <- <-. split; [done |]. split; [done |]. split; [done |].
    simpl. split; lia.
  - destruct (deref ms r) as [m |] eqn:Hm.
    + destruct (in_noc m && Qle_bool (received_timestamp m) t) eqn:Hd.
      * destruct (IH _ _ _ _ _ H) as (A1 & A2 & A3 & A4 & A5).
        split; [| split; [| split; [| split]]].
        -- intros r' Hr'. by apply A1, delivered_by_assign in Hr' as [? _].
        -- done.
        -- intros r' Hr'. rewrite A3.
           ++ rewrite deref_assign_ne; [done |]. intros ->.
              unfold delivered_by in Hr'. rewrite Hm in Hr'. congruence.
           ++ destruct (delivered_by t (assign ms r (set_in_noc false)) r') eqn:E; [| done].
              apply delivered_by_assign in E as [E _]. congruence.
        -- rewrite A4. unfold schedule_update_noc_message_counts. cbv zeta.
           cbn [length]. destruct (1 <? _); cbn [messages_in_noc set_in_flight set_message_density]; lia.
        -- simpl. lia.
      * destruct (update_noc_queue idx t q ms noc) as [[kept1 ms1] noc1] eqn:Hrec.
        injection H as <- <- <-.
        destruct (IH _ _ _ _ _ Hrec) as (A1 & A2 & A3 & A4 & A5).
        split; [done |]. split; [| split; [done |]].
        -- constructor; [| done].
           destruct (delivered_by t ms1 r) eqn:E; [| done].
           apply A1 in E. unfold delivered_by in E. rewrite Hm in E. congruence.
        -- simpl. split; lia.
    + destruct (update_noc_queue idx t q ms noc) as [[kept1 ms1] noc1] eqn:Hrec.
      injection H as <- <- <-.
      destruct (IH _ _ _ _ _ Hrec) as (A1 & A2 & A3 & A4 & A5).
      split; [done |]. split; [| split; [done |]].
      * constructor; [| done].
        destruct (delivered_by t ms1 r) eqn:E; [| done].
        apply A1 in E. unfold delivered_by in E. rewrite Hm in E. congruence.
      * simpl. split; lia.
Qed.

Lemma update_noc_queue_nothing t q : forall ms noc,
  Forall (fun r => delivered_by t ms r = false) q ->
  update_noc_queue idx t q ms noc = (q, ms, noc).
Proof.
  induction q as [| r q IH]; intros ms noc H; [done |].
  apply Forall_cons in H as [H1 H2]. simpl. unfold delivered_by in H1.
  destruct (deref ms r) as [m |]; [rewrite H1 |]; by rewrite IH.
Qed.

Lemma update_noc_queues_delivered t qs : forall ms noc qs' ms' noc',
  update_noc_queues idx t qs ms noc = (qs', ms', noc') ->
  (forall r, delivered_by t ms' r = true -> delivered_by t ms r = true) /\
  Forall (Forall (fun r => delivered_by t ms' r = false)) qs' /\
  (forall r, delivered_by t ms r = false -> deref ms' r = deref ms r) /\
  messages_in_noc noc' =
    messages_in_noc noc - Z.of_nat (length (concat qs) - length (concat qs')) /\
  (length (concat qs') <= length (concat qs))%nat.
Proof.
  induction qs as [| q qs IH]; intros ms noc qs' ms' noc' H; simpl in H.
  - injection H as <- <- <-. split; [done |]. split; [done |]. split; [done |].
    simpl. split; lia.
  - destruct (update_noc_queue idx t q ms noc) as [[q1 ms1] noc1] eqn:H1.
    destruct (update_noc_queues idx t qs ms1 noc1) as [[qs2 ms2] noc2] eqn:H2.
    injection H as <- <- <-.
    destruct (update_noc_queue_delivered t q _ _ _ _ _ H1) as (A1 & A2 & A3 & A4 & A5).
    destruct (IH _ _ _ _ _ H2) as (B1 & B2 & B3 & B4 & B5).
    split; [| split; [| split; [| split]]].
    + intros r Hr. by apply A1, B1.
    + constructor; [| done]. eapply Forall_impl; [exact A2 |].
      intros r Hr. simpl in Hr. destruct (delivered_by t ms2 r) eqn:E; [| done].
      apply B1 in E. congruence.
    + intros r Hr. rewrite B3; [by apply A3 |].
      destruct (delivered_by t ms1 r) eqn:E; [| done]. apply A1 in E. congruence.
    + rewrite B4, A4. simpl. rewrite !length_app. lia.
    + simpl. rewrite !length_app. lia.
Qed.

Lemma update_noc_queues_nothing t qs : forall ms noc,
  Forall (Forall (fun r => delivered_by t ms r = false)) qs ->
  update_noc_queues idx t qs ms noc = (qs, ms, noc).
Proof.
  induction qs as [| q qs IH]; intros ms noc H; [done |].
  apply Forall_cons in H as [H1 H2]. simpl.
  rewrite update_noc_queue_nothing by done. by rewrite IH.
Qed.

Lemma delivered_by_clear_all t (l : list MessageRef) ms r :
  r ∉ l ->
  delivered_by t (foldl (fun ms r => assign ms r (set_in_noc false)) ms l) r =
  delivered_by t ms r.
Proof.
  intros H. unfold delivered_by. rewrite deref_clear_all. by rewrite decide_False.
Qed.

Lemma take_back_clear_all (l : list MessageRef) ms noc r :
  r ∉ l ->
  take_back idx (foldl (fun ms r => assign ms r (set_in_noc false)) ms l) noc r =
  take_back idx ms noc r.
Proof.
  intros H. unfold take_back. rewrite deref_clear_all. by rewrite decide_False.
Qed.

(** A queue without repeated references is split by the condition of
    the loop: what is kept, the container and the NoC after it. *)
Lemma update_noc_queue_exact t q : forall ms noc,
  NoDup q ->
  update_noc_queue idx t q ms noc =
  (filter (fun r => delivered_by t ms r = false) q,
   foldl (fun ms r => assign ms r (set_in_noc false)) ms
     (filter (fun r => delivered_by t ms r = true) q),
   foldl (take_back idx ms) noc (filter (fun r => delivered_by t ms r = true) q)).
Proof.
  induction q as [| r q IH]; intros ms noc Hnd; [done |].
  apply NoDup_cons in Hnd as [Hr Hnd]. simpl.
  destruct (delivered_by t ms r) eqn:Hd.
  - rewrite filter_cons_False by congruence. rewrite filter_cons_True by done.
    unfold delivered_by in Hd. destruct (deref ms r) as [m |] eqn:Hm; [| done].
    rewrite Hd, IH by done. simpl.
    assert (E : forall b, filter (fun r0 => delivered_by t (assign ms r (set_in_noc false)) r0 = b) q
                = filter (fun r0 => delivered_by t ms r0 = b) q).
    { intros b. apply filter_ext_in. intros x Hx.
      unfold delivered_by. rewrite deref_assign_ne; [done |]. by intros ->. }
    rewrite !E. f_equal.
    unfold take_back at 3. rewrite Hm.
    apply foldl_ext_in. intros x Hx a.
    unfold take_back. rewrite deref_assign_ne; [done |]. intros ->.
    apply list_elem_of_filter in Hx as [_ Hx]. done.
  - rewrite filter_cons_True by done. rewrite filter_cons_False by congruence.
    unfold delivered_by in Hd.
    destruct (deref ms r) as [m |] eqn:Hm; [rewrite Hd |]; by rewrite IH.
Qed.

Lemma update_noc_queues_exact t qs : forall ms noc,
  NoDup (concat qs) ->
  update_noc_queues idx t qs ms noc =
  (filter (fun r => delivered_by t ms r = false) <$> qs,
   foldl (fun ms r => assign ms r (set_in_noc false)) ms
     (filter (fun r => delivered_by t ms r = true) (concat qs)),
   foldl (take_back idx ms) noc
     (filter (fun r => delivered_by t ms r = true) (concat qs))).
Proof.
  induction qs as [| q qs IH]; intros ms noc Hnd; [done |].
  simpl in Hnd. apply NoDup_app in Hnd as (Hq & Hdis & Hqs). simpl.
  rewrite update_noc_queue_exact by done. rewrite IH by done.
  set (gone := filter (fun r => delivered_by t ms r = true) q).
  assert (Hout : forall x, x ∈ concat qs -> x ∉ gone).
  { intros x Hx Hg. apply list_elem_of_filter in Hg as [_ Hg]. exact (Hdis x Hg Hx). }
  assert (E : forall b,
    filter (fun r => delivered_by t
                       (foldl (fun ms r => assign ms r (set_in_noc false)) ms gone) r = b)
      (concat qs) = filter (fun r => delivered_by t ms r = b) (concat qs)).
  { intros b. apply filter_ext_in. intros x Hx.
    by rewrite delivered_by_clear_all by (by apply Hout). }
  rewrite filter_app, !foldl_app. fold gone. rewrite !E. f_equal; [f_equal |].
  - f_equal. apply Forall_fmap_ext_1, Forall_forall. intros x Hx.
    apply filter_ext_in. intros r Hr.
    rewrite delivered_by_clear_all; [done |]. apply Hout.
    apply elem_of_concat. by exists x.
  - apply foldl_ext_in. intros x Hx a. apply take_back_clear_all, Hout.
    by apply list_elem_of_filter in Hx as [_ Hx].
Qed.

Lemma take_back_all_count ms (gone : list MessageRef) : forall noc,
  Forall (fun r => is_Some (deref ms r)) gone ->
  messages_in_noc (foldl (take_back idx ms) noc gone) =
  messages_in_noc noc - Z.of_nat (length gone).
Proof.
  induction gone as [| r gone IH]; intros noc H; [simpl; lia |].
  apply Forall_cons in H as [[m Hm] H]. simpl. rewrite IH by done.
  unfold take_back. rewrite Hm. unfold schedule_update_noc_message_counts. cbv zeta.
  destruct (1 <? _); cbn [messages_in_noc set_in_flight set_message_density]; lia.
Qed.

(** X7.  [schedule_update_noc] at the time [t], on queues that hold no
    reference twice, takes out of the NoC the messages that are in it
    and received by [t], and only those: their references are erased
    and all others kept in order, [in_noc] is cleared on them and no
    other message is written, the density of each is taken back in the
    order of the queues, and the count of messages in flight goes down
    by their number.  Afterwards no tracked message is in the NoC and
    received by [t], so that a second update at the same time changes
    nothing. *)
Theorem schedule_update_noc_settles t ms noc :
  NoDup (concat (messages_received noc)) ->
  let gone := filter (fun r => delivered_by t ms r = true) (concat (messages_received noc)) in
  let ms1 := (schedule_update_noc idx t ms noc).1 in
  let noc1 := (schedule_update_noc idx t ms noc).2 in
  messages_received noc1 =
    filter (fun r => delivered_by t ms r = false) <$> messages_received noc /\
  (forall r, deref ms1 r =
             if decide (r ∈ gone) then set_in_noc false <$> deref ms r else deref ms r) /\
  noc1 = set_messages_received (messages_received noc1) (foldl (take_back idx ms) noc gone) /\
  messages_in_noc noc1 = messages_in_noc noc - Z.of_nat (length gone) /\
  Forall (fun r => delivered_by t ms1 r = false) (concat (messages_received noc1)) /\
  schedule_update_noc idx t ms1 noc1 = (ms1, noc1).
Proof.
  intros Hnd gone ms1 noc1.
  pose proof (update_noc_queues_exact t (messages_received noc) ms noc Hnd) as E.
  fold gone in E.
  destruct (update_noc_queues_delivered t _ _ _ _ _ _ E) as (_ & A2 & _).
  assert (E1 : ms1 = foldl (fun ms r => assign ms r (set_in_noc false)) ms gone).
  { unfold ms1, schedule_update_noc. by rewrite E. }
  assert (E2 : noc1 =
    set_messages_received
      (filter (fun r => delivered_by t ms r = false) <$> messages_received noc)
      (foldl (take_back idx ms) noc gone)).
  { unfold noc1, schedule_update_noc. by rewrite E. }
  assert (E3 : messages_received noc1 =
            filter (fun r => delivered_by t ms r = false) <$> messages_received noc)
    by (by rewrite E2).
  split; [done |].
  split; [intros r; rewrite E1; apply deref_clear_all |].
  split; [by rewrite E3, E2 |].
  split.
  { rewrite E2. cbn [messages_in_noc set_messages_received].
    apply take_back_all_count. apply Forall_forall. intros r Hr.
    apply list_elem_of_filter in Hr as [Hr _]. unfold delivered_by in Hr.
    by destruct (deref ms r). }
  rewrite <- E1 in A2.
  split; [rewrite E3; by apply Forall_concat |].
  unfold schedule_update_noc at 1. rewrite E3.
  assert (N : update_noc_queues idx t
            (filter (fun r => delivered_by t ms r = false) <$> messages_received noc) ms1 noc1
          = (filter (fun r => delivered_by t ms r = false) <$> messages_received noc, ms1, noc1))
    by (by apply update_noc_queues_nothing).
  rewrite N. rewrite <- E3. by destruct noc1.
Qed.

End UpdateNocFacts.

(** ** The scheduler: a core sends its messages in order *)

Lemma init_heads qs : forall ms p p' qs' ms',
  schedule_init_timing_priority qs ms p = (p', qs', ms') ->
  qs' = tail <$> qs /\
  (forall r, r ∈ p' -> r ∈ p \/ r ∈ omap head qs) /\
  (forall r, r ∉ omap head qs -> deref ms' r = deref ms r) /\
  (forall r m, r ∈ omap head qs -> deref ms' r = Some m ->
     sent_timestamp m = generation_delay m).
Proof.
  induction qs as [| q qs IH]; intros ms p p' qs' ms' Hrun.
  - simpl in Hrun. injection Hrun as <- <- <-.
    split; [done |]. split; [by left |]. split; [done |].
    intros r m Hr. by apply elem_of_nil in Hr.
  - simpl in Hrun. destruct q as [| r q'].
    + destruct (schedule_init_timing_priority qs ms p) as [[p1 qs1] ms1] eqn:Hrec.
      injection Hrun as <- <- <-.
      destruct (IH _ _ _ _ _ Hrec) as (A1 & A2 & A3 & A4).
      split; [simpl; by rewrite A1 | done].
    + destruct (schedule_init_timing_priority qs _ _) as [[p1 qs1] ms1] eqn:Hrec.
      injection Hrun as <- <- <-.
      destruct (IH _ _ _ _ _ Hrec) as (A1 & A2 & A3 & A4).
      split; [simpl; by rewrite A1 |]. simpl. split; [| split].
      * intros r0 Hr0. destruct (A2 r0 Hr0) as [Hp | Hh].
        -- unfold pq_push in Hp. apply elem_of_app in Hp as [Hp | Hp]; [by left |].
           apply list_elem_of_singleton in Hp as ->. right. apply list_elem_of_here.
        -- right. by apply list_elem_of_further.
      * intros r0 Hr0. apply not_elem_of_cons in Hr0 as [Hne Hr0].
        rewrite (A3 r0 Hr0). by apply deref_assign_ne.
      * intros r0 m Hr0 Hm.
        destruct (decide (r0 ∈ omap head qs)) as [Hin | Hnin]; [by apply (A4 r0) |].
        apply elem_of_cons in Hr0 as [-> | Hr0]; [| done].
        rewrite (A3 r Hnin), deref_assign_eq in Hm.
        destruct (deref ms r) as [m1 |]; [| done]. by injection Hm as <-.
Qed.

Lemma tail_refs_of_core ms c :
  tail (refs_of_core ms c) =
  (fun p : nat => (c, p)) <$> seq 1 (length (tail (refs_of_core ms c))).
Proof.
  unfold refs_of_core. destruct (length (default [] (ms !! c))) as [| k]; [done |].
  simpl. by rewrite length_fmap, length_seq.
Qed.

Lemma elem_of_tail_refs_of_core ms c p :
  is_Some (deref ms (c, S p)) -> (c, S p) ∈ tail (refs_of_core ms c).
Proof.
  intros H. apply deref_is_Some in H. simpl in H. unfold refs_of_core.
  destruct (length (default [] (ms !! c))) as [| k]; [lia |].
  simpl. apply list_elem_of_fmap. exists (S p). split; [done |].
  apply elem_of_seq. lia.
Qed.

Lemma head_refs_of_core ms c r :
  head (refs_of_core ms c) = Some r -> r = (c, 0%nat).
Proof.
  unfold refs_of_core. destruct (length (default [] (ms !! c))); simpl; [done |].
  by intros [= <-].
Qed.

Lemma elem_of_heads ms (n : nat) r :
  r ∈ omap head (messages_sent_per_core ms n) <->
  (r.1 < n)%nat /\ r.2 = 0%nat /\ is_Some (deref ms r).
Proof.
  rewrite list_elem_of_omap. unfold messages_sent_per_core. split.
  - intros (q & Hq & Hh). apply list_elem_of_fmap in Hq as (c & -> & Hc).
    apply elem_of_seq in Hc. pose proof (head_refs_of_core _ _ _ Hh) as ->. simpl.
    split; [lia |]. split; [done |]. apply deref_is_Some. simpl.
    unfold refs_of_core in Hh. destruct (length (default [] (ms !! c))); [done | lia].
  - intros (Hc & Hp & Hr). destruct r as [c p]. simpl in *. subst p.
    exists (refs_of_core ms c). split.
    + apply list_elem_of_fmap. exists c. split; [done |]. apply elem_of_seq. lia.
    + apply deref_is_Some in Hr. simpl in Hr. unfold refs_of_core.
      destruct (length (default [] (ms !! c))); [lia | done].
Qed.

Lemma sent_in_turn_start ms0 scheduler :
  wf_messages (sched_core_count scheduler) ms0 ->
  sent_in_turn (schedule_start ms0 scheduler).
Proof.
  intros Hwf.
  destruct (schedule_start_inv ms0 scheduler Hwf) as [HI _].
  pose proof (inv_static _ _ _ HI) as Hst. revert Hst. clear HI.
  unfold schedule_start, sent_in_turn. simpl.
  set (n := sched_core_count scheduler) in *.
  destruct (schedule_init_timing_priority (messages_sent_per_core ms0 n) ms0 [])
    as [[p qs] ms1] eqn:Hinit.
  destruct (init_heads _ _ _ _ _ _ Hinit) as (A1 & A2 & A3 & A4). simpl. intros Hst.
  assert (Hq : forall c q, qs !! c = Some q -> (c < n)%nat /\ q = tail (refs_of_core ms0 c)).
  { intros c q Hc. rewrite A1 in Hc. unfold messages_sent_per_core in Hc.
    rewrite !list_lookup_fmap in Hc. destruct (seq 0 n !! c) as [c' |] eqn:E; [| done].
    apply lookup_seq in E as [-> E]. simpl in Hc. split; [done | congruence]. }
  assert (Hvalid : forall r, is_Some (deref ms1 r) -> is_Some (deref ms0 r) /\ (r.1 < n)%nat).
  { intros r Hr. assert (Hr0 : is_Some (deref ms0 r)).
    { eapply is_Some_fmap_eq; [symmetry; apply Hst | done]. }
    split; [done |]. destruct Hwf as [Hlen _].
    apply deref_is_Some in Hr0. destruct (ms0 !! r.1) as [q |] eqn:E; simpl in Hr0; [| lia].
    apply lookup_lt_Some in E. lia. }
  split; [| split; [| split]].
  - intros c q Hc. destruct (Hq c q Hc) as [_ ->]. exists 1%nat. apply tail_refs_of_core.
  - intros c p0 next q' Hp Hc. destruct (A2 _ Hp) as [Hp' | Hp']; [by apply elem_of_nil in Hp' |].
    apply elem_of_heads in Hp' as (_ & Hp0 & _). simpl in Hp0. subst p0.
    destruct (Hq c _ Hc) as [_ Hc']. rewrite tail_refs_of_core in Hc'.
    destruct (length (tail (refs_of_core ms0 c))); simpl in Hc'; [done |].
    by injection Hc' as -> _.
  - intros c m Hm. apply (A4 (c, 0%nat)) in Hm as ->; [lra |].
    apply elem_of_heads. destruct (Hvalid (c, 0%nat)) as [? ?]; [by rewrite Hm |]. done.
  - intros c p0 m m2 Hm Hm2 Hnot. destruct Hnot.
    destruct (Hvalid (c, S p0)) as [Hv Hc]; [by rewrite Hm2 |]. simpl in Hc.
    apply elem_of_concat. exists (tail (refs_of_core ms0 c)). split.
    + rewrite A1. unfold messages_sent_per_core.
      apply list_elem_of_fmap. exists (refs_of_core ms0 c). split; [done |].
      apply list_elem_of_fmap. exists c. split; [done |]. apply elem_of_seq. lia.
    + by apply elem_of_tail_refs_of_core.
Qed.

Lemma frame_fields ms ms' r m :
  erase <$> deref ms' r = erase <$> deref ms r ->
  deref ms' r = Some m ->
  exists mo, deref ms r = Some mo /\
    sent_timestamp m = sent_timestamp mo /\ generation_delay m = generation_delay mo.
Proof.
  intros E Hm. destruct (erase_deref _ _ _ _ E Hm) as (mo & Hmo & Em).
  exists mo. split; [done |].
  destruct (erase_fields _ _ Em) as (Es & _ & _ & _ & _ & Est).
  by destruct (static_fields _ _ Est) as (_ & _ & _ & Eg & _).
Qed.

Section SentInTurn.

Variable idx : Z -> Z -> Z -> Z -> Z -> Z -> nat.

Lemma sent_in_turn_step ms0 n scheduler st st' :
  wf_messages n ms0 -> Inv ms0 n st -> progress st -> sent_in_turn st ->
  schedule_step idx scheduler st = Some st' -> sent_in_turn st'.
Proof.
  intros Hwf HI Hpr (K1 & K2 & J0 & J1) Hstep.
  destruct (schedule_step_round idx ms0 n scheduler st st' Hwf HI Hpr Hstep)
    as (r & m0 & m' & Hr & Hr' & Hperm & Hm0 & Hm' & Hst & Hph & Hreal & Hnext).
  assert (Hsent : (sent_timestamp m0 <= sent_timestamp m')%Q /\
                  generation_delay m' = generation_delay m0).
  { split.
    - destruct (placeholder m0) eqn:E.
      + destruct (Hph eq_refl) as [He _]. apply erase_fields in He as [-> _]. lra.
      + by destruct (Hreal eq_refl).
    - by apply static_fields in Hst as (_ & _ & _ & ? & _). }
  destruct Hsent as [Hs Hg]. clear Hph Hreal.
  pose proof (inv_nodup _ _ _ HI) as Hnd.
  assert (Hsub : forall x, x ∈ pending st' -> x ∈ pending st).
  { intros x Hx. rewrite Hperm. by apply list_elem_of_further. }
  assert (Hrp : r ∈ pending st) by (apply elem_of_app; by left).
  assert (Hrq : r ∉ concat (st_sent_per_core st)).
  { unfold pending in Hnd. apply NoDup_app in Hnd as (_ & Hd & _). by apply Hd. }
  assert (Hrem : forall x, x ∈ pq_remove r (st_priority st) -> x ∈ st_priority st /\ x <> r).
  { intros x Hx. unfold pending in Hnd. apply NoDup_app in Hnd as (Hd & _ & _).
    rewrite (pq_remove_perm r _ Hr) in Hd. apply NoDup_cons in Hd as [Hd _].
    split; [| by intros ->]. rewrite (pq_remove_perm r _ Hr). by apply list_elem_of_further. }
  (* the first message of a core and two messages in a row, when
     neither is the next message of the core of [r] *)
  assert (Hold : forall frame : MessageRef -> Prop,
    (forall x, frame x -> x <> r ->
       erase <$> deref (st_messages st') x = erase <$> deref (st_messages st) x) ->
    forall x m, frame x -> deref (st_messages st') x = Some m ->
    exists mo, deref (st_messages st) x = Some mo /\
      generation_delay m = generation_delay mo /\
      (sent_timestamp mo <= sent_timestamp m)%Q /\
      (x <> r -> sent_timestamp m = sent_timestamp mo)).
  { intros frame Hframe x m Hx Hm. destruct (decide (x = r)) as [-> | Hxr].
    - exists m0. assert (m = m') as -> by congruence. done.
    - destruct (frame_fields _ _ _ _ (Hframe x Hx Hxr) Hm) as (mo & Hmo & Es & Eg).
      exists mo. split; [done |]. split; [done |]. split; [rewrite Es; lra | done]. }
  destruct r as [c0 p0]. simpl in *.
  destruct Hnext as [(next & q' & nm & nm' & Hq & Hqs' & Hpri' & Hne & Hnm & Hnm' & Hstn
                      & Hsn & Hframe) | (Hnone & Hqs' & Hpri' & Hframe)].
  - pose proof (K2 c0 p0 next q' Hr Hq) as ->.
    assert (Hgn : generation_delay nm' = generation_delay nm)
      by (by apply static_fields in Hstn as (_ & _ & _ & ? & _)).
    specialize (Hold (fun x => x <> (c0, S p0))
                  (fun x Hx Hxr => Hframe x Hxr Hx)).
    assert (Hqueue : forall x, x ∈ concat (st_sent_per_core st) ->
              x = (c0, S p0) \/ x ∈ concat (st_sent_per_core st')).
    { intros x Hx. rewrite (concat_insert_tail _ _ _ _ Hq) in Hx. rewrite Hqs'.
      by apply elem_of_cons in Hx. }
    split; [| split; [| split]].
    + intros c q Hc. rewrite Hqs' in Hc. destruct (decide (c = c0)) as [-> | Hcne].
      * rewrite list_lookup_insert_eq in Hc by (by eapply lookup_lt_Some).
        injection Hc as ->. destruct (K1 c0 _ Hq) as (k & Hk). simpl in Hk.
        injection Hk as _ Hk. exists (S k). exact Hk.
      * rewrite list_lookup_insert_ne in Hc by done. by apply K1.
    + intros c p next2 q2 Hp Hc. rewrite Hpri' in Hp. rewrite Hqs' in Hc.
      unfold pq_push in Hp. apply elem_of_app in Hp as [Hp | Hp].
      * apply Hrem in Hp as [Hp Hpr']. destruct (decide (c = c0)) as [-> | Hcne].
        -- pose proof (K2 c0 p _ _ Hp Hq) as E. injection E as E. congruence.
        -- rewrite list_lookup_insert_ne in Hc by done. by apply (K2 c p next2 q2).
      * apply list_elem_of_singleton in Hp. injection Hp as -> ->.
        rewrite list_lookup_insert_eq in Hc by (by eapply lookup_lt_Some).
        injection Hc as ->. destruct (K1 c0 _ Hq) as (k & Hk). simpl in Hk.
        congruence.
    + intros c m Hm.
      destruct (Hold (c, 0%nat) m) as (mo & Hmo & Eg & Es & _); [done | done |].
      pose proof (J0 c mo Hmo). rewrite Eg. lra.
    + intros c p m m2 Hm Hm2 Hnq.
      destruct (decide ((c, S p) = (c0, S p0))) as [E | Hnn].
      * injection E as -> ->. assert (m = m') as -> by congruence.
        assert (m2 = nm') as -> by congruence.
        split; [done |]. rewrite Hgn, Hsn. lra.
      * destruct (Hold (c, S p) m2) as (m2o & Hm2o & Eg2 & Es2 & _); [done | done |].
        assert (Hmo : is_Some (deref (st_messages st) (c, p))).
        { destruct (schedule_step_preserves idx _ _ _ _ _ Hwf HI Hpr Hstep) as (HI' & _ & _).
          eapply is_Some_fmap_eq.
          - rewrite (inv_static _ _ _ HI). symmetry. apply (inv_static _ _ _ HI').
          - by rewrite Hm. }
        destruct Hmo as [mo Hmo].
        destruct (J1 c p mo m2o Hmo Hm2o) as [Hnp Hle].
        { intros Hin. destruct (Hqueue _ Hin); done. }
        assert (Hpne : (c, p) <> (c0, S p0)).
        { intros E. apply Hnp. rewrite E. apply elem_of_app. right.
          apply elem_of_concat. exists ((c0, S p0) :: q'). split.
          - by eapply list_elem_of_lookup_2.
          - apply list_elem_of_here. }
        destruct (Hold (c, p) m) as (mo' & Hmo' & _ & _ & Es); [done | done |].
        assert (mo' = mo) as -> by congruence.
        split; [by intros Hin; apply Hnp, Hsub |].
        rewrite Es, Eg2; [lra |]. intros E. apply Hnp. by rewrite E.
  - specialize (Hold (fun _ => True) (fun x _ Hxr => Hframe x Hxr)).
    split; [| split; [| split]].
    + intros c q Hc. rewrite Hqs' in Hc. by apply K1.
    + intros c p next2 q2 Hp Hc. rewrite Hpri' in Hp. rewrite Hqs' in Hc.
      apply Hrem in Hp as [Hp _]. by apply (K2 c p next2 q2).
    + intros c m Hm.
      destruct (Hold (c, 0%nat) m) as (mo & Hmo & Eg & Es & _); [done | done |].
      pose proof (J0 c mo Hmo). rewrite Eg. lra.
    + intros c p m m2 Hm Hm2 Hnq. rewrite Hqs' in Hnq.
      destruct (Hold (c, S p) m2) as (m2o & Hm2o & Eg2 & Es2 & _); [done | done |].
      destruct (Hold (c, p) m) as (mo & Hmo & _ & _ & Es); [done | done |].
      destruct (J1 c p mo m2o Hmo Hm2o Hnq) as [Hnp Hle].
      split; [by intros Hin; apply Hnp, Hsub |].
      rewrite Es, Eg2; [lra |]. intros E. apply Hnp. by rewrite E.
Qed.

(** X8.  On well-formed input [schedule_messages] returns the messages
    it was given, each at its position and with only its timestamps
    and [in_noc] written, and the messages of a core are sent in the
    order of its queue: the first is sent no earlier than its
    generation delay, and every other at least its own generation
    delay after the message before it, placeholders included. *)
Theorem schedule_messages_send_order ms scheduler :
  wf_messages (sched_core_count scheduler) ms ->
  exists t out,
    schedule_messages idx ms scheduler = Some (t, out) /\
    (forall r, static <$> deref out r = static <$> deref ms r) /\
    (forall c m, deref out (c, 0%nat) = Some m ->
       (generation_delay m <= sent_timestamp m)%Q) /\
    (forall c p m m2,
       deref out (c, p) = Some m -> deref out (c, S p) = Some m2 ->
       (sent_timestamp m + generation_delay m2 <= sent_timestamp m2)%Q).
Proof.
  intros Hwf.
  destruct (schedule_messages_invariant idx sent_in_turn ms scheduler Hwf)
    as (st & Hrun & (_ & _ & J0 & J1) & HI & Hp).
  { by apply sent_in_turn_start. }
  { intros st1 st2. by apply sent_in_turn_step. }
  exists (st_last_timestamp st), (st_messages st). split; [done |].
  split; [apply (inv_static _ _ _ HI) |]. split; [done |].
  intros c p m m2 Hm Hm2. apply (J1 c p m m2 Hm Hm2).
  unfold pending in Hp. apply app_eq_nil in Hp as [_ ->]. apply not_elem_of_nil.
Qed.

(** X9.  On well-formed input [schedule_messages] returns, and of the
    messages it writes the three timestamps and [in_noc] only: every
    message is where it was in the queue of its core, with every
    other field as it was, and no message is added or dropped. *)
Theorem schedule_messages_keeps_fields ms scheduler :
  wf_messages (sched_core_count scheduler) ms ->
  exists t out,
    schedule_messages idx ms scheduler = Some (t, out) /\
    forall r, static <$> deref out r = static <$> deref ms r.
Proof.
  intros Hwf.
  destruct (schedule_messages_spec idx ms scheduler Hwf) as (t & out & H & Hst & _).
  by exists t, out.
Qed.

End SentInTurn.

(** ** The pipeline: the receive side *)

Section ReceiveTheorems.

Context {SomaModel DendriteModel SynapseModel DendriteParams : Type}.
Variable soma_update : SomaModel -> option Q -> NeuronStatus * SomaModel.
Variable dendrite_update :
  DendriteModel -> option (@Synapse DendriteParams) -> Q * DendriteModel.
Variable synapse_update : SynapseModel -> option Z -> Q * SynapseModel.

Local Abbreviation State := (@PState SomaModel DendriteModel SynapseModel DendriteParams).
Local Abbreviation NeuronT := (@Neuron SomaModel DendriteModel DendriteParams).
Local Abbreviation CoreT := (@Core SomaModel DendriteModel SynapseModel DendriteParams).
Local Abbreviation Comp := (@PM SomaModel DendriteModel SynapseModel DendriteParams).

Variable spike_message : CoreT -> NeuronT -> Z -> Z -> Message.

(** X10.  [pipeline_process_axon_in] stops on its assertion exactly when
    [dest_axon_hw] is negative or not below the number of axon-in
    units; otherwise it counts one more spike message at that unit,
    returns the latency of the unit and leaves the rest of the core,
    the messages and the units as they are. *)
Theorem pipeline_process_axon_in_exact (m : Message) (s : State) :
  match at_index (axon_in_units (ps_core s)) (dest_axon_hw m) with
  | Some unit =>
      pipeline_process_axon_in m s =
      Ok (latency_spike_message unit,
          mkPState
            (set_axon_in_units
               (<[Z.to_nat (dest_axon_hw m) :=
                    mkAxonInUnit (spike_messages_in unit + 1) (latency_spike_message unit)]>
                  (axon_in_units (ps_core s))) (ps_core s))
            (ps_messages s)
            (ps_log s ++ [UnitCall AxonInU (dest_axon_hw m) (latency_spike_message unit)]))
  | None => pipeline_process_axon_in m s = Abort assert_dest_axon_hw
  end.
Proof.
  unfold pipeline_process_axon_in, at_index, bind, get_core, assert, access,
    assert_not_null, modify_core, record, ret.
  destruct (dest_axon_hw m <? 0) eqn:E1;
    destruct (0 <=? dest_axon_hw m) eqn:E0;
    destruct (dest_axon_hw m <? Z.of_nat (length (axon_in_units (ps_core s)))) eqn:E3;
    destruct (axon_in_units (ps_core s) !! Z.to_nat (dest_axon_hw m)) as [unit |] eqn:E2;
    try done; exfalso.
  all: try (apply Z.ltb_lt in E1); try (apply Z.ltb_ge in E1);
    try (apply Z.leb_le in E0); try (apply Z.leb_gt in E0);
    try (apply Z.ltb_lt in E3); try (apply Z.ltb_ge in E3);
    try (apply lookup_lt_Some in E2); try (apply lookup_ge_None_1 in E2); lia.
Qed.

(** X11.  The latency [pipeline_process_message] returns is the sum of
    the latencies of the units it ran: the axon-in unit and, for every
    synapse address, the units up to the buffer. *)
Theorem pipeline_process_message_latency ts m (s s' : State) l :
  pipeline_process_message soma_update dendrite_update synapse_update ts m s = Ok (l, s') ->
  exists evs,
    ps_log s' = ps_log s ++ evs /\
    (l == reported_latency evs)%Q /\
    queue_of s' = queue_of s.
Proof.
  unfold pipeline_process_message. intros H.
  apply bind_inv in H as (l0 & s0 & H0 & H).
  apply pipeline_process_axon_in_spec in H0 as ((_ & Q0 & L0) & A).
  apply bind_inv in H as (c & s1 & H1 & H). apply get_core_inv in H1 as [-> ->].
  apply bind_inv in H as ([] & s1 & H1 & H). apply assert_inv in H1 as [_ ->].
  apply bind_inv in H as (addresses & s1 & H1 & H). apply access_inv in H1 as [Ha ->].
  destruct (receive_loop_ok _ _ _ _ _ _ _ _ _ H) as (evs & (_ & Q1 & L1) & _ & B).
  exists (UnitCall AxonInU (dest_axon_hw m) l0 :: evs).
  split; [by rewrite L1, L0, <- app_assoc |]. split.
  - change (UnitCall AxonInU (dest_axon_hw m) l0 :: evs)
      with ([UnitCall AxonInU (dest_axon_hw m) l0] ++ evs).
    rewrite reported_latency_app, reported_latency_single. lra.
  - rewrite Q1, Q0, !app_nil_r. done.
Qed.

(** X12.  At each of the three buffer positions the receive side and the
    send side share the pipeline between them: the units run for a
    synapse address when a message is received, followed by the units
    run for a neuron in the process-neurons phase, are the synapse,
    dendrite, soma and axon-out units, each once and in this order. *)
Theorem buffer_splits_pipeline ts latency address i (r r' s s' : State) l :
  valid_buffer_pos (timestep_buffer_pos (ps_core r)) ->
  timestep_buffer_pos (ps_core s) = timestep_buffer_pos (ps_core r) ->
  process_message_synapse soma_update dendrite_update synapse_update ts latency address r
    = Ok (l, r') ->
  pipeline_process_neuron soma_update dendrite_update spike_message ts i s = Ok (tt, s') ->
  exists received sent,
    ps_log r' = ps_log r ++ received /\
    ps_log s' = ps_log s ++ sent /\
    unit_calls received ++ unit_calls sent = pipeline_units.
Proof.
  intros V Hpos Hr Hs.
  destruct (process_message_synapse_ok _ _ _ _ _ _ _ _ _ Hr) as (evs1 & (_ & _ & L1) & U1 & _).
  destruct (pipeline_process_neuron_spec _ _ _ _ _ _ _ _ Hs) as (new & evs2 & (_ & _ & L2) & U2 & _).
  exists evs1, evs2. split; [done |]. split; [done |].
  rewrite U1, U2, Hpos. unfold receive_side_units, send_side_units, pipeline_units.
  by destruct V as [-> | [-> | ->]].
Qed.

End ReceiveTheorems.

(** ** The pipeline: the dendrite and the soma catch up *)

Section UnitTheorems.

Context {SomaModel DendriteModel SynapseModel DendriteParams : Type}.
Variable soma_update : SomaModel -> option Q -> NeuronStatus * SomaModel.
Variable dendrite_update :
  DendriteModel -> option (@Synapse DendriteParams) -> Q * DendriteModel.
Variable synapse_update : SynapseModel -> option Z -> Q * SynapseModel.

Local Abbreviation State := (@PState SomaModel DendriteModel SynapseModel DendriteParams).
Local Abbreviation NeuronT := (@Neuron SomaModel DendriteModel DendriteParams).
Local Abbreviation CoreT := (@Core SomaModel DendriteModel SynapseModel DendriteParams).
Local Abbreviation Comp := (@PM SomaModel DendriteModel SynapseModel DendriteParams).

Variable spike_message : CoreT -> NeuronT -> Z -> Z -> Message.

Lemma dendrite_catch_up_fields rounds : forall n : NeuronT,
  dendrite_last_updated (dendrite_catch_up dendrite_update rounds n) =
    dendrite_last_updated n + Z.of_nat rounds /\
  dendrite_input_synapses (dendrite_catch_up dendrite_update rounds n) =
    dendrite_input_synapses n.
Proof.
  induction rounds as [| k IH]; intros n; [simpl; split; [lia | done] |].
  cbn [dendrite_catch_up]. destruct (dendrite_update (dendrite_model n) None) as [c d].
  destruct (IH (set_dendrite_last_updated (dendrite_last_updated n + 1)
                  (set_soma_input_charge c (set_dendrite_model d n)))) as [-> ->].
  cbn. split; [lia | done].
Qed.

Lemma dendrite_inputs_last_updated synapses : forall n : NeuronT,
  dendrite_last_updated (foldl (dendrite_input dendrite_update) n synapses) =
  dendrite_last_updated n.
Proof.
  induction synapses as [| x l IH]; intros n; [done |].
  simpl. rewrite IH. unfold dendrite_input.
  by destruct (dendrite_update (dendrite_model n) (Some x)).
Qed.

(** X13.  [pipeline_process_dendrite] returns no latency; it brings the
    dendrite of the neuron up to the timestep, consumes the synaptic
    inputs that were pending, and touches no other neuron.  Run again
    in the same timestep it changes nothing. *)
Theorem pipeline_process_dendrite_settles ts i (s s' : State) l :
  pipeline_process_dendrite dendrite_update ts i s = Ok (l, s') ->
  l = 0%Q /\
  exists n n',
    neurons (ps_core s) !! i = Some n /\
    neurons (ps_core s') !! i = Some n' /\
    dendrite_input_synapses n' = [] /\
    dendrite_last_updated n' = Z.max (dendrite_last_updated n) ts /\
    (forall j, j <> i -> neurons (ps_core s') !! j = neurons (ps_core s) !! j) /\
    ps_messages s' = ps_messages s /\
    pipeline_process_dendrite dendrite_update ts i s' =
      Ok (0%Q, mkPState (ps_core s') (ps_messages s')
                 (ps_log s' ++ [UnitCall DendriteU (Z.of_nat i) 0%Q])).
Proof.
  unfold pipeline_process_dendrite at 1. intros H. monad_inv.
  split; [done |].
  match goal with Hn : neurons (ps_core s) !! i = Some ?n |- _ => rename Hn into Hi; set (n0 := n) in * end.
  set (n1 := dendrite_catch_up dendrite_update (Z.to_nat (ts - dendrite_last_updated n0)) n0).
  set (n2 := foldl (dendrite_input dendrite_update) n1 (dendrite_input_synapses n1)).
  set (n3 := set_dendrite_input_synapses [] n2).
  assert (Hlu : dendrite_last_updated n3 = Z.max (dendrite_last_updated n0) ts).
  { unfold n3, n2. cbn [dendrite_last_updated set_dendrite_input_synapses].
    rewrite dendrite_inputs_last_updated. unfold n1.
    destruct (dendrite_catch_up_fields (Z.to_nat (ts - dendrite_last_updated n0)) n0) as [-> _].
    lia. }
  assert (Hget : neurons (ps_core (mkPState
            (set_neurons (<[i := n3]> (neurons (ps_core s))) (ps_core s))
            (ps_messages s) (ps_log s ++ [UnitCall DendriteU (Z.of_nat i) 0%Q]))) !! i
          = Some n3).
  { cbn [ps_core neurons set_neurons]. apply list_lookup_insert_eq. by eapply lookup_lt_Some. }
  exists n0, n3. split; [done |]. split; [exact Hget |]. split; [done |]. split; [done |].
  split.
  { intros j Hj. cbn [ps_core neurons set_neurons]. by rewrite list_lookup_insert_ne. }
  split; [done |].
  unfold pipeline_process_dendrite.
  rewrite (bind_ok _ _ _ _ _ (get_neuron_ok _ _ _ Hget)).
  rewrite Hlu. replace (Z.to_nat (ts - Z.max (dendrite_last_updated n0) ts)) with 0%nat by lia.
  cbn [dendrite_catch_up]. cbn [dendrite_input_synapses n3 set_dendrite_input_synapses foldl].
  unfold bind, put_neuron, modify_core, record, ret.
  cbn [ps_core neurons set_neurons ps_messages ps_log].
  rewrite list_insert_insert_eq. done.
Qed.

Lemma soma_step_last_updated (n : NeuronT) hw latency :
  soma_last_updated (soma_step soma_update n hw latency).1.1 = soma_last_updated n + 1.
Proof.
  unfold soma_step. cbn [fst snd].
  destruct (soma_current_in n); cbn;
    destruct (soma_update _ _) as [st m]; cbn;
    destruct (0 <? forced_spikes n); cbn; by destruct st.
Qed.

Lemma soma_round_neurons i latency (s s' : State) l :
  soma_round soma_update i latency s = Ok (l, s') ->
  exists (n : NeuronT) hw,
    neurons (ps_core s) !! i = Some n /\
    neurons (ps_core s') = <[i := (soma_step soma_update n hw latency).1.1]> (neurons (ps_core s)) /\
    ps_messages s' = ps_messages s.
Proof.
  unfold soma_round. intros H. monad_inv.
  match goal with Hn : neurons (ps_core s) !! i = Some ?n,
                  Hh : soma_units (ps_core s) !! _ = Some ?hw |- _ => exists n, hw end.
  done.
Qed.

Lemma soma_rounds_neurons rounds i : forall latency (s s' : State) l (n : NeuronT),
  soma_rounds soma_update rounds i latency s = Ok (l, s') ->
  neurons (ps_core s) !! i = Some n ->
  exists n',
    neurons (ps_core s') !! i = Some n' /\
    soma_last_updated n' = soma_last_updated n + Z.of_nat rounds /\
    (forall j, j <> i -> neurons (ps_core s') !! j = neurons (ps_core s) !! j) /\
    ps_messages s' = ps_messages s /\
    (rounds = 0%nat -> l = latency /\ s' = s).
Proof.
  induction rounds as [| k IH]; intros latency s s' l n H Hn.
  - simpl in H. monad_inv. exists n. split; [done |]. split; [lia |]. done.
  - simpl in H. monad_inv.
    match goal with Hr : soma_round _ _ _ _ = Ok _ |- _ =>
      destruct (soma_round_neurons _ _ _ _ _ Hr) as (n0 & hw & Hn0 & Hns & Hms) end.
    assert (n0 = n) as -> by congruence.
    destruct (IH _ _ _ _ (soma_step soma_update n hw latency).1.1 H) as (n' & A1 & A2 & A3 & A4 & _).
    { rewrite Hns. apply list_lookup_insert_eq. by eapply lookup_lt_Some. }
    exists n'. split; [done |]. split; [rewrite A2, soma_step_last_updated; lia |].
    split; [| split; [congruence | done]].
    intros j Hj. rewrite A3 by done. rewrite Hns. by rewrite list_lookup_insert_ne.
Qed.

(** X14.  [pipeline_process_soma] calls the soma model once for every
    timestep the neuron is behind and leaves it up to date; a neuron
    that is up to date already is not touched and costs no latency.
    No other neuron and no message is touched. *)
Theorem pipeline_process_soma_catches_up ts i (s s' : State) l :
  pipeline_process_soma soma_update ts i s = Ok (l, s') ->
  exists n n' evs,
    neurons (ps_core s) !! i = Some n /\
    neurons (ps_core s') !! i = Some n' /\
    soma_last_updated n' = Z.max (soma_last_updated n) ts /\
    ps_log s' = ps_log s ++ evs ++ [UnitCall SomaU (Z.of_nat i) l] /\
    Forall is_model_event evs /\
    length evs = Z.to_nat (ts - soma_last_updated n) /\
    (forall j, j <> i -> neurons (ps_core s') !! j = neurons (ps_core s) !! j) /\
    ps_messages s' = ps_messages s /\
    (ts <= soma_last_updated n -> l = 0%Q /\ ps_core s' = ps_core s).
Proof.
  unfold pipeline_process_soma. intros H. monad_inv.
  match goal with Hn : neurons (ps_core s) !! i = Some ?n |- _ => rename Hn into Hi; set (n0 := n) in * end.
  match goal with Hr : soma_rounds _ _ _ _ _ = Ok _ |- _ =>
    destruct (soma_rounds_spec _ _ _ _ _ _ _ Hr) as (_ & evs & B1 & B2 & (_ & _ & B3));
    destruct (soma_rounds_neurons _ _ _ _ _ _ n0 Hr Hi) as (n' & A1 & A2 & A3 & A4 & A5)
  end.
  exists n0, n', evs. cbn [ps_core ps_log ps_messages].
  split; [done |]. split; [done |]. split; [lia |].
  split; [by rewrite B3, <- app_assoc |]. split; [done |]. split; [done |].
  split; [done |]. split; [done |].
  intros Hup. destruct A5 as [-> ->]; [lia | done].
Qed.

End UnitTheorems.

(** ** The pipeline: what the process-neurons phase leaves alone *)

Section LocalityFacts.

Context {SomaModel DendriteModel SynapseModel DendriteParams : Type}.
Variable soma_update : SomaModel -> option Q -> NeuronStatus * SomaModel.
Variable dendrite_update :
  DendriteModel -> option (@Synapse DendriteParams) -> Q * DendriteModel.

Local Abbreviation State := (@PState SomaModel DendriteModel SynapseModel DendriteParams).
Local Abbreviation NeuronT := (@Neuron SomaModel DendriteModel DendriteParams).
Local Abbreviation CoreT := (@Core SomaModel DendriteModel SynapseModel DendriteParams).
Local Abbreviation Comp := (@PM SomaModel DendriteModel SynapseModel DendriteParams).

Variable placeholder_message : CoreT -> NeuronT -> Z -> Message.
Variable spike_message : CoreT -> NeuronT -> Z -> Z -> Message.

Lemma touches_only_refl i (s : State) : touches_only i s s.
Proof. by repeat split. Qed.

Lemma touches_only_trans i (s1 s2 s3 : State) :
  touches_only i s1 s2 -> touches_only i s2 s3 -> touches_only i s1 s3.
Proof.
  intros (A1 & A2 & A3 & A4 & A5 & A6 & A7 & A8 & A9)
         (B1 & B2 & B3 & B4 & B5 & B6 & B7 & B8 & B9).
  split; [intros j Hj; rewrite B1, A1; done |].
  split; [congruence |]. split; [congruence |]. split; [congruence |].
  split; [congruence |]. split; [congruence |]. split; [congruence |].
  split; [congruence |].
  intros k Hk. rewrite B9, A9; [done | done | congruence].
Qed.

Lemma touches_only_put i (n : NeuronT) (s : State) :
  touches_only i s
    (mkPState (set_neurons (<[i := n]> (neurons (ps_core s))) (ps_core s))
       (ps_messages s) (ps_log s)).
Proof.
  split; [intros j Hj; cbn; by rewrite list_lookup_insert_ne |].
  split; [cbn; by rewrite length_insert |]. by repeat split.
Qed.

Lemma touches_only_log i (s : State) log :
  touches_only i s (mkPState (ps_core s) (ps_messages s) log).
Proof. by repeat split. Qed.

Lemma pipeline_process_dendrite_local ts i (s s' : State) l :
  pipeline_process_dendrite dendrite_update ts i s = Ok (l, s') -> touches_only i s s'.
Proof.
  unfold pipeline_process_dendrite. intros H. monad_inv.
  eapply touches_only_trans; [apply touches_only_put | apply touches_only_log].
Qed.

Lemma soma_round_local i latency (s s' : State) l :
  soma_round soma_update i latency s = Ok (l, s') -> touches_only i s s'.
Proof.
  unfold soma_round. intros H. monad_inv.
  split; [intros j Hj; cbn; by rewrite list_lookup_insert_ne |].
  split; [cbn; by rewrite length_insert |]. by repeat split.
Qed.

Lemma soma_rounds_local rounds i : forall latency (s s' : State) l,
  soma_rounds soma_update rounds i latency s = Ok (l, s') -> touches_only i s s'.
Proof.
  induction rounds as [| k IH]; intros latency s s' l H; simpl in H.
  - monad_inv. apply touches_only_refl.
  - apply bind_inv in H as (l1 & s1 & H1 & H).
    eapply touches_only_trans; [by eapply soma_round_local | by eapply IH].
Qed.

Lemma pipeline_process_soma_local ts i (s s' : State) l :
  pipeline_process_soma soma_update ts i s = Ok (l, s') -> touches_only i s s'.
Proof.
  unfold pipeline_process_soma. intros H.
  apply bind_inv in H as (n & s0 & H0 & H). apply get_neuron_inv in H0 as [_ ->].
  apply bind_inv in H as (l1 & s1 & H1 & H). monad_inv.
  eapply touches_only_trans; [by eapply soma_rounds_local | apply touches_only_log].
Qed.

Lemma axon_out_send_local ts i address (s s' : State) u :
  axon_out_send spike_message ts i address s = Ok (u, s') -> touches_only i s s'.
Proof.
  unfold axon_out_send. intros H. monad_inv.
  match goal with
  | Hp : push_message _ _ = Ok _ |- _ => apply push_message_inv in Hp as (q & Hq & ->)
  end.
  unfold touches_only, keeps_receive_side. cbn.
  split; [done |]. split; [done |]. split; [done |]. split; [done |].
  split; [done |]. split; [done |]. split; [done |].
  split; [by rewrite length_insert |].
  intros k Hk. by rewrite list_lookup_insert_ne.
Qed.

Lemma axon_out_loop_local ts i addresses : forall (s s' : State) u,
  for_each addresses (axon_out_send spike_message ts i) s = Ok (u, s') ->
  touches_only i s s'.
Proof.
  induction addresses as [| a rest IH]; intros s s' u H.
  - simpl in H. monad_inv. apply touches_only_refl.
  - apply for_each_cons in H as (s1 & H1 & H).
    eapply touches_only_trans; [by eapply axon_out_send_local | by eapply IH].
Qed.

Lemma pipeline_process_axon_out_local ts i (s s' : State) l :
  pipeline_process_axon_out spike_message ts i s = Ok (l, s') -> touches_only i s s'.
Proof.
  unfold pipeline_process_axon_out. intros H.
  apply bind_inv in H as (n & s0 & H0 & H). apply get_neuron_inv in H0 as [_ ->].
  destruct (negb (axon_out_input_spike n)).
  - monad_inv. apply touches_only_log.
  - apply bind_inv in H as ([] & s1 & H1 & H). monad_inv.
    eapply touches_only_trans; [by eapply axon_out_loop_local |].
    eapply touches_only_trans; [apply touches_only_put | apply touches_only_log].
Qed.

Lemma keeps_receive_side_refl (s : State) : keeps_receive_side s s.
Proof. by repeat split. Qed.

Lemma keeps_receive_side_trans (s1 s2 s3 : State) :
  keeps_receive_side s1 s2 -> keeps_receive_side s2 s3 -> keeps_receive_side s1 s3.
Proof.
  intros (A2 & A3 & A4 & A5 & A6 & A7 & A8 & A9) (B2 & B3 & B4 & B5 & B6 & B7 & B8 & B9).
  split; [congruence |]. split; [congruence |]. split; [congruence |].
  split; [congruence |]. split; [congruence |]. split; [congruence |].
  split; [congruence |].
  intros k Hk. rewrite B9, A9; [done | done | congruence].
Qed.

Lemma stage_local (b : bool) (c : Comp Q) i latency (s s' : State) l :
  (forall (s s' : State) l, c s = Ok (l, s') -> touches_only i s s') ->
  (if b then bind c (fun l => ret (latency + l)%Q) else ret latency) s = Ok (l, s') ->
  touches_only i s s'.
Proof.
  intros Hc H. destruct b.
  - apply bind_inv in H as (l1 & s1 & H1 & H). monad_inv. by eapply Hc.
  - monad_inv. apply touches_only_refl.
Qed.

Local Abbreviation process_neuron :=
  (pipeline_process_neuron soma_update dendrite_update spike_message).
Local Abbreviation process_core :=
  (process_core_neurons soma_update dendrite_update placeholder_message spike_message).

Lemma pipeline_process_neuron_local ts i (s s' : State) u :
  process_neuron ts i s = Ok (u, s') ->
  touches_only i s s' /\
  exists n', neurons (ps_core s') !! i = Some n' /\ spike_count n' = 0.
Proof.
  unfold pipeline_process_neuron. intros H.
  apply bind_inv in H as (c & s0 & H0 & H). apply get_core_inv in H0 as [-> ->].
  apply bind_inv in H as (l1 & s1 & H1 & H).
  apply bind_inv in H as (l2 & s2 & H2 & H).
  apply bind_inv in H as (l3 & s3 & H3 & H).
  apply (stage_local _ _ i) in H1; [| intros; by eapply pipeline_process_dendrite_local].
  apply (stage_local _ _ i) in H2; [| intros; by eapply pipeline_process_soma_local].
  apply (stage_local _ _ i) in H3; [| intros; by eapply pipeline_process_axon_out_local].
  pose proof (touches_only_trans _ _ _ _ (touches_only_trans _ _ _ _ H1 H2) H3) as T.
  monad_inv. split.
  - eapply touches_only_trans; [exact T |].
    split; [intros j Hj; cbn; by rewrite list_lookup_insert_ne |].
    split; [cbn; by rewrite length_insert |]. by repeat split.
  - eexists. split; [cbn; apply list_lookup_insert_eq; by eapply lookup_lt_Some |].
    reflexivity.
Qed.

(** The loop over the neurons of a core: every neuron it visits ends
    with its spike count reset, the others are as they were. *)
Lemma process_neurons_loop_local ts (l : list nat) : forall (s s' : State) u,
  for_each l (process_neuron ts) s = Ok (u, s') ->
  keeps_receive_side s s' /\
  (forall j, j ∉ l -> neurons (ps_core s') !! j = neurons (ps_core s) !! j) /\
  (forall j, j ∈ l -> exists n', neurons (ps_core s') !! j = Some n' /\ spike_count n' = 0).
Proof.
  induction l as [| i l IH]; intros s s' u H.
  - simpl in H. monad_inv. split; [by repeat split |]. split; [done |].
    intros j Hj. by apply elem_of_nil in Hj.
  - apply for_each_cons in H as (s1 & H1 & H).
    apply pipeline_process_neuron_local in H1 as ([T1 K1] & n1 & N1 & C1).
    destruct (IH _ _ _ H) as (K2 & U2 & R2).
    split; [| split].
    + by eapply keeps_receive_side_trans.
    + intros j Hj. apply not_elem_of_cons in Hj as [Hji Hjl].
      rewrite U2, T1; done.
    + intros j Hj. destruct (decide (j ∈ l)) as [Hl | Hl]; [by apply R2 |].
      apply elem_of_cons in Hj as [-> | Hj]; [| done].
      exists n1. split; [| done]. by rewrite U2.
Qed.

Lemma process_core_neurons_local ts (s s' : State) u :
  process_core ts s = Ok (u, s') ->
  keeps_receive_side s s' /\
  (forall n', n' ∈ neurons (ps_core s') -> spike_count n' = 0) /\
  (exists new, queue_of s' = queue_of s ++ new) /\
  (exists evs, ps_log s' = ps_log s ++ evs).
Proof.
  intros H.
  destruct (process_core_neurons_spec _ _ _ _ _ _ _ _ H) as (new & evs & (_ & Q1 & L1) & _).
  assert (keeps_receive_side s s' /\
          forall j, (j < length (neurons (ps_core s)))%nat ->
            exists n', neurons (ps_core s') !! j = Some n' /\ spike_count n' = 0) as [K R].
  { unfold process_core_neurons in H.
    apply bind_inv in H as (c & s0 & H0 & H). apply get_core_inv in H0 as [-> ->].
    apply bind_inv in H as ([] & s1 & H1 & H).
    apply process_neurons_loop_local in H1 as (K1 & _ & R1).
    apply bind_inv in H as (c & s0 & H0 & H). apply get_core_inv in H0 as [-> ->].
    assert (T : keeps_receive_side s1 s' /\ neurons (ps_core s') = neurons (ps_core s1)).
    { destruct (Qnonzero _).
      - apply bind_inv in H as (n & s0 & H0 & H). apply access_inv in H0 as [_ ->].
        apply push_message_inv in H as (q & Hq & ->). split; [| done].
        unfold keeps_receive_side. cbn.
        split; [done |]. split; [done |]. split; [done |]. split; [done |].
        split; [done |]. split; [done |]. split; [by rewrite length_insert |].
        intros k Hk. by rewrite list_lookup_insert_ne.
      - monad_inv. split; [apply keeps_receive_side_refl | done]. }
    destruct T as [K2 N2]. split; [by eapply keeps_receive_side_trans |].
    intros j Hj. rewrite N2. apply R1. apply elem_of_seq. lia. }
  split; [done |]. split; [| by eauto].
  intros n' Hn'. apply list_elem_of_lookup in Hn' as [j Hj].
  destruct (R j) as (n2 & Hn2 & C2).
  { destruct K as [<- _]. by eapply lookup_lt_Some. }
  congruence.
Qed.

End LocalityFacts.

Section ProcessNeuronsTheorems.

Context {SomaModel DendriteModel SynapseModel DendriteParams : Type}.
Variable soma_update : SomaModel -> option Q -> NeuronStatus * SomaModel.
Variable dendrite_update :
  DendriteModel -> option (@Synapse DendriteParams) -> Q * DendriteModel.

Local Abbreviation State := (@PState SomaModel DendriteModel SynapseModel DendriteParams).
Local Abbreviation NeuronT := (@Neuron SomaModel DendriteModel DendriteParams).
Local Abbreviation CoreT := (@Core SomaModel DendriteModel SynapseModel DendriteParams).

Variable placeholder_message : CoreT -> NeuronT -> Z -> Message.
Variable spike_message : CoreT -> NeuronT -> Z -> Z -> Message.

Local Abbreviation process_neurons :=
  (pipeline_process_neurons soma_update dendrite_update placeholder_message spike_message).

(** X15.  [pipeline_process_neurons] only ever appends to the message
    queues: every queue keeps what it held, in order, a queue that
    belongs to none of the cores is not touched, and the log only
    grows.  Every core comes out with the spike counts of all its
    neurons reset to zero and with its receive side (connections,
    axons, axon-in and synapse units) as it was. *)
Theorem pipeline_process_neurons_appends ts cores : forall ms log cs ms' log',
  process_neurons ts cores ms log = Ok (cs, ms', log') ->
  length ms' = length ms /\
  (forall k q, ms !! k = Some q -> exists new, ms' !! k = Some (q ++ new)) /\
  (forall k, (forall c, c ∈ cores -> core_id c <> k) -> ms' !! k = ms !! k) /\
  (exists evs, log' = log ++ evs) /\
  Forall2 processed_core cores cs.
Proof.
  induction cores as [| c cores IH]; intros ms log cs ms' log' H; simpl in H.
  - injection H as <- <- <-. split; [done |]. split.
    { intros k q Hk. exists []. by rewrite app_nil_r. }
    split; [done |]. split; [exists []; by rewrite app_nil_r | constructor].
  - destruct (process_core_neurons _ _ _ _ _ _) as [[[] s1] | f] eqn:H1; [| done].
    destruct (pipeline_process_neurons _ _ _ _ _ _ _ _) as [[[cs1 ms1] log1] | f] eqn:H2;
      [| done].
    injection H as <- <- <-.
    apply process_core_neurons_local in H1
      as (K & R & (new & Q1) & (evs & L1)).
    destruct K as (K1 & K2 & K3 & K4 & K5 & K6 & K7 & K8). cbn in *.
    destruct (IH _ _ _ _ _ H2) as (A1 & A2 & A3 & (evs2 & A4) & A5).
    split; [congruence |]. split; [| split; [| split]].
    + intros k q Hk.
      assert (exists new1, ps_messages s1 !! k = Some (q ++ new1)) as (new1 & Hk1).
      { destruct (decide (k = core_id c)) as [-> | Hne].
        - exists new. unfold queue_of in Q1. cbn in Q1. rewrite K6, Hk in Q1.
          destruct (ps_messages s1 !! core_id c) as [q1 |] eqn:E; [simpl in Q1; by rewrite Q1 |].
          apply lookup_ge_None_1 in E. apply lookup_lt_Some in Hk. lia.
        - exists []. rewrite app_nil_r, K8; done. }
      destruct (A2 _ _ Hk1) as (new2 & Hk2). exists (new1 ++ new2).
      by rewrite app_assoc.
    + intros k Hk. rewrite A3, K8; [done | |].
      * intros ->. apply (Hk c); [apply list_elem_of_here | done].
      * intros c' Hc'. by apply Hk, list_elem_of_further.
    + exists (evs ++ evs2). by rewrite A4, L1, app_assoc.
    + constructor; [| done]. by repeat split.
Qed.

End ProcessNeuronsTheorems.

(** ** The pipeline: spikes and packets counted *)

Lemma Zsum_insert (l : list Z) i x y :
  l !! i = Some x -> Zsum (<[i := y]> l) = Zsum l - x + y.
Proof.
  revert i. induction l as [| a l IH]; intros [| i] H; try done.
  - injection H as ->. simpl. lia.
  - simpl in *. rewrite (IH i H). lia.
Qed.

Lemma Zsum_fmap_insert {A} (f : A -> Z) (l : list A) i x y :
  l !! i = Some x -> Zsum (f <$> <[i := y]> l) = Zsum (f <$> l) - f x + f y.
Proof.
  intros H. rewrite list_fmap_insert. apply Zsum_insert.
  by rewrite list_lookup_fmap, H.
Qed.

Section CounterFacts.

Context {SomaModel DendriteModel SynapseModel DendriteParams : Type}.
Variable soma_update : SomaModel -> option Q -> NeuronStatus * SomaModel.
Variable dendrite_update :
  DendriteModel -> option (@Synapse DendriteParams) -> Q * DendriteModel.
Variable synapse_update : SynapseModel -> option Z -> Q * SynapseModel.

Local Abbreviation State := (@PState SomaModel DendriteModel SynapseModel DendriteParams).
Local Abbreviation NeuronT := (@Neuron SomaModel DendriteModel DendriteParams).
Local Abbreviation CoreT := (@Core SomaModel DendriteModel SynapseModel DendriteParams).
Local Abbreviation Comp := (@PM SomaModel DendriteModel SynapseModel DendriteParams).

Variable spike_message : CoreT -> NeuronT -> Z -> Z -> Message.

Lemma dendrite_catch_up_spike_count rounds : forall n : NeuronT,
  spike_count (dendrite_catch_up dendrite_update rounds n) = spike_count n.
Proof.
  induction rounds as [| k IH]; intros n; [done |].
  cbn [dendrite_catch_up]. destruct (dendrite_update (dendrite_model n) None) as [c d].
  by rewrite IH.
Qed.

Lemma dendrite_inputs_spike_count synapses : forall n : NeuronT,
  spike_count (foldl (dendrite_input dendrite_update) n synapses) = spike_count n.
Proof.
  induction synapses as [| x l IH]; intros n; [done |].
  simpl. rewrite IH. unfold dendrite_input.
  by destruct (dendrite_update (dendrite_model n) (Some x)).
Qed.

Lemma pipeline_process_dendrite_spike_counts ts i (s s' : State) l :
  pipeline_process_dendrite dendrite_update ts i s = Ok (l, s') ->
  spike_count <$> neurons (ps_core s') = spike_count <$> neurons (ps_core s).
Proof.
  unfold pipeline_process_dendrite. intros H. monad_inv. cbn.
  eapply fmap_insert_static; [done |]. cbn.
  by rewrite dendrite_inputs_spike_count, dendrite_catch_up_spike_count.
Qed.

Lemma soma_step_spike_count (n : NeuronT) hw latency :
  spike_count (soma_step soma_update n hw latency).1.1 = spike_count n.
Proof.
  unfold soma_step. cbn [fst snd].
  destruct (soma_current_in n); cbn;
    destruct (soma_update _ _) as [st m]; cbn;
    destruct (0 <? forced_spikes n); cbn; by destruct st.
Qed.

Lemma soma_rounds_spike_counts rounds i : forall latency (s s' : State) l,
  soma_rounds soma_update rounds i latency s = Ok (l, s') ->
  spike_count <$> neurons (ps_core s') = spike_count <$> neurons (ps_core s).
Proof.
  induction rounds as [| k IH]; intros latency s s' l H; simpl in H.
  - by monad_inv.
  - apply bind_inv in H as (l1 & s1 & H1 & H).
    rewrite (IH _ _ _ _ H).
    destruct (soma_round_neurons _ _ _ _ _ _ H1) as (n & hw & Hn & -> & _).
    eapply fmap_insert_static; [done |]. apply soma_step_spike_count.
Qed.

Lemma pipeline_process_soma_spike_counts ts i (s s' : State) l :
  pipeline_process_soma soma_update ts i s = Ok (l, s') ->
  spike_count <$> neurons (ps_core s') = spike_count <$> neurons (ps_core s).
Proof.
  unfold pipeline_process_soma. intros H.
  apply bind_inv in H as (n & s0 & H0 & H). apply get_neuron_inv in H0 as [_ ->].
  apply bind_inv in H as (l1 & s1 & H1 & H). monad_inv.
  cbn. by eapply soma_rounds_spike_counts.
Qed.

(** One synaptic lookup buffers one spike at the post-synaptic neuron
    and counts one spike at the synapse unit; the axon-in units and the
    queues are not its business. *)
Lemma pipeline_process_synapse_counts ts address (s s' : State) l :
  pipeline_process_synapse synapse_update ts address s = Ok (l, s') ->
  total_spike_count (ps_core s') = total_spike_count (ps_core s) + 1 /\
  total_spikes_processed (ps_core s') = total_spikes_processed (ps_core s) + 1 /\
  axon_in_units (ps_core s') = axon_in_units (ps_core s) /\
  axons_in (ps_core s') = axons_in (ps_core s) /\
  length (connections_in (ps_core s')) = length (connections_in (ps_core s)) /\
  ps_messages s' = ps_messages s.
Proof.
  unfold pipeline_process_synapse. intros H. monad_inv.
  unfold total_spike_count, total_spikes_processed. cbn in *.
  split; [| split; [| split; [done | split; [done | split; [| done]]]]].
  - erewrite Zsum_fmap_insert; [| done]. cbn. lia.
  - erewrite Zsum_fmap_insert; [| done]. cbn. lia.
  - by rewrite length_insert.
Qed.

Lemma send_unit_counts i (s s' : State) :
  touches_only i s s' ->
  spike_count <$> neurons (ps_core s') = spike_count <$> neurons (ps_core s) ->
  total_spike_count (ps_core s') = total_spike_count (ps_core s) /\
  total_spikes_processed (ps_core s') = total_spikes_processed (ps_core s) /\
  axon_in_units (ps_core s') = axon_in_units (ps_core s) /\
  axons_in (ps_core s') = axons_in (ps_core s).
Proof.
  intros (_ & _ & _ & A & U & S & _) C.
  unfold total_spike_count, total_spikes_processed. by rewrite C, S, U, A.
Qed.

Lemma process_message_synapse_counts ts latency address (s s' : State) l :
  process_message_synapse soma_update dendrite_update synapse_update ts latency address s
    = Ok (l, s') ->
  total_spike_count (ps_core s') = total_spike_count (ps_core s) + 1 /\
  total_spikes_processed (ps_core s') = total_spikes_processed (ps_core s) + 1 /\
  axon_in_units (ps_core s') = axon_in_units (ps_core s) /\
  axons_in (ps_core s') = axons_in (ps_core s).
Proof.
  unfold process_message_synapse. intros H.
  apply bind_inv in H as (c & s0 & H0 & H). apply get_core_inv in H0 as [-> ->].
  apply bind_inv in H as (con & s0 & H0 & H). apply access_inv in H0 as [_ ->].
  apply bind_inv in H as (l1 & s1 & H1 & H).
  apply pipeline_process_synapse_counts in H1 as (A1 & A2 & A3 & A4 & _).
  destruct (_ =? BUFFER_BEFORE_DENDRITE_UNIT); [by monad_inv |].
  apply bind_inv in H as (l2 & s2 & H2 & H).
  destruct (send_unit_counts (post_neuron con) s1 s2) as (B1 & B2 & B3 & B4);
    [by eapply pipeline_process_dendrite_local
    | by eapply pipeline_process_dendrite_spike_counts |].
  destruct (_ =? BUFFER_BEFORE_SOMA_UNIT).
  { monad_inv. split; [lia |]. split; [lia |]. split; congruence. }
  apply bind_inv in H as (l3 & s3 & H3 & H).
  destruct (send_unit_counts (post_neuron con) s2 s3) as (C1 & C2 & C3 & C4);
    [by eapply pipeline_process_soma_local
    | by eapply pipeline_process_soma_spike_counts |].
  monad_inv. split; [lia |]. split; [lia |]. split; congruence.
Qed.

Lemma receive_loop_counts ts addresses : forall latency (s s' : State) l,
  for_each_acc addresses latency
    (process_message_synapse soma_update dendrite_update synapse_update ts) s = Ok (l, s') ->
  total_spike_count (ps_core s') =
    total_spike_count (ps_core s) + Z.of_nat (length addresses) /\
  total_spikes_processed (ps_core s') =
    total_spikes_processed (ps_core s) + Z.of_nat (length addresses) /\
  axon_in_units (ps_core s') = axon_in_units (ps_core s) /\
  axons_in (ps_core s') = axons_in (ps_core s).
Proof.
  induction addresses as [| a rest IH]; intros latency s s' l H; simpl in H.
  - monad_inv. split; [simpl; lia |]. split; [simpl; lia | done].
  - apply bind_inv in H as (l1 & s1 & H1 & H).
    apply process_message_synapse_counts in H1 as (A1 & A2 & A3 & A4).
    destruct (IH _ _ _ _ H) as (B1 & B2 & B3 & B4).
    rewrite B1, B2, A1, A2, B3, B4. cbn [length].
    split; [lia |]. split; [lia | done].
Qed.

Lemma axon_out_send_packets ts i address (s s' : State) u :
  axon_out_send spike_message ts i address s = Ok (u, s') ->
  total_packets_out (ps_core s') = total_packets_out (ps_core s) + 1.
Proof.
  unfold axon_out_send. intros H. monad_inv.
  match goal with
  | Hp : push_message _ _ = Ok _ |- _ => apply push_message_inv in Hp as (q & Hq & ->)
  end.
  unfold total_packets_out. cbn in *.
  erewrite Zsum_fmap_insert; [| done]. cbn. lia.
Qed.

Lemma axon_out_loop_packets ts i addresses : forall (s s' : State) u,
  for_each addresses (axon_out_send spike_message ts i) s = Ok (u, s') ->
  total_packets_out (ps_core s') =
    total_packets_out (ps_core s) + Z.of_nat (length addresses) /\
  exists new, effect s s' new [] /\ length new = length addresses.
Proof.
  induction addresses as [| a rest IH]; intros s s' u H.
  - simpl in H. monad_inv. split; [simpl; lia |]. exists []. split; [apply effect_refl | done].
  - apply for_each_cons in H as (s1 & H1 & H).
    pose proof (axon_out_send_packets _ _ _ _ _ _ H1) as P1.
    destruct (axon_out_send_spec _ _ _ _ _ _ _ H1) as (_ & _ & m & _ & _ & _ & _ & _ & _ & E1).
    destruct (IH _ _ _ H) as (P2 & new & E2 & L2).
    split; [rewrite P2, P1; cbn [length]; lia |].
    exists (m :: new). split; [| by rewrite !length_cons, L2].
    by apply (effect_trans s s1 s' [m] new [] []).
Qed.

End CounterFacts.

Section AxonOutCounters.

Context {SomaModel DendriteModel SynapseModel DendriteParams : Type}.

Local Abbreviation State := (@PState SomaModel DendriteModel SynapseModel DendriteParams).
Local Abbreviation NeuronT := (@Neuron SomaModel DendriteModel DendriteParams).
Local Abbreviation CoreT := (@Core SomaModel DendriteModel SynapseModel DendriteParams).

Variable spike_message : CoreT -> NeuronT -> Z -> Z -> Message.

(** X16.  [pipeline_process_axon_out] sends one message for every axon
    address of a neuron that fired, counts each of them as a packet at
    an axon-out unit, and clears the spike of the neuron.  For a
    neuron that did not fire it returns no latency and leaves the core
    and the queue as they are. *)
Theorem pipeline_process_axon_out_sends ts i (s s' : State) l :
  pipeline_process_axon_out spike_message ts i s = Ok (l, s') ->
  exists (n n' : NeuronT) new,
    neurons (ps_core s) !! i = Some n /\
    neurons (ps_core s') !! i = Some n' /\
    axon_out_input_spike n' = false /\
    queue_of s' = queue_of s ++ new /\
    length new =
      (if axon_out_input_spike n then length (axon_out_addresses n) else 0%nat) /\
    total_packets_out (ps_core s') = total_packets_out (ps_core s) + Z.of_nat (length new) /\
    (axon_out_input_spike n = false -> l = 0%Q /\ ps_core s' = ps_core s).
Proof.
  unfold pipeline_process_axon_out. intros H.
  apply bind_inv in H as (n & s0 & H0 & H). apply get_neuron_inv in H0 as [Hn ->].
  destruct (axon_out_input_spike n) eqn:Hspike; simpl in H.
  - apply bind_inv in H as ([] & s1 & H1 & H).
    destruct (axon_out_loop_packets _ _ _ _ _ _ _ H1) as (P & new & (F & Q1 & _) & L).
    destruct (axon_out_loop_local _ _ _ _ _ _ _ H1) as (_ & N1 & _).
    monad_inv. cbn in *.
    exists n, (set_axon_out_input_spike false n), new.
    split; [done |].
    split; [apply list_lookup_insert_eq; rewrite N1; by eapply lookup_lt_Some |].
    split; [done |]. split; [exact Q1 |]. split; [by rewrite Hspike |].
    split; [rewrite L; exact P |]. intros E. by rewrite Hspike in E.
  - monad_inv. exists n, n, []. cbn.
    split; [done |]. split; [done |]. split; [done |].
    split; [by rewrite app_nil_r |]. split; [by rewrite Hspike |]. split; [lia | done].
Qed.

End AxonOutCounters.

Section DeliveryTheorems.

Context {SomaModel DendriteModel SynapseModel DendriteParams : Type}.
Variable soma_update : SomaModel -> option Q -> NeuronStatus * SomaModel.
Variable dendrite_update :
  DendriteModel -> option (@Synapse DendriteParams) -> Q * DendriteModel.
Variable synapse_update : SynapseModel -> option Z -> Q * SynapseModel.

Local Abbreviation State := (@PState SomaModel DendriteModel SynapseModel DendriteParams).
Local Abbreviation NeuronT := (@Neuron SomaModel DendriteModel DendriteParams).
Local Abbreviation CoreT := (@Core SomaModel DendriteModel SynapseModel DendriteParams).

Variable spike_message : CoreT -> NeuronT -> Z -> Z -> Message.

(** X17.  A message that [pipeline_process_message] receives is counted
    once at the axon-in unit it addresses and delivers one spike for
    every synapse address of its destination axon: the spikes buffered
    at the neurons of the core and the spikes counted by its synapse
    units both rise by the number of these addresses, whatever the
    buffer position. *)
Theorem pipeline_process_message_delivers ts m (s s' : State) l :
  pipeline_process_message soma_update dendrite_update synapse_update ts m s = Ok (l, s') ->
  exists addresses unit,
    at_index (axons_in (ps_core s)) (dest_axon_id m) = Some addresses /\
    at_index (axon_in_units (ps_core s)) (dest_axon_hw m) = Some unit /\
    axon_in_units (ps_core s') =
      <[Z.to_nat (dest_axon_hw m) :=
          mkAxonInUnit (spike_messages_in unit + 1) (latency_spike_message unit)]>
        (axon_in_units (ps_core s)) /\
    total_spike_count (ps_core s') =
      total_spike_count (ps_core s) + Z.of_nat (length addresses) /\
    total_spikes_processed (ps_core s') =
      total_spikes_processed (ps_core s) + Z.of_nat (length addresses).
Proof.
  unfold pipeline_process_message. intros H.
  apply bind_inv in H as (l0 & s0 & H0 & H).
  unfold pipeline_process_axon_in in H0. monad_inv.
  apply receive_loop_counts in H as (A1 & A2 & A3 & A4). cbn in *.
  match goal with
  | Ha : at_index (axons_in _) _ = Some ?a, Hu : at_index (axon_in_units _) _ = Some ?u |- _ =>
      exists a, u
  end.
  split; [done |]. split; [done |]. split; [done |]. split; done.
Qed.

End DeliveryTheorems.

Section SynapseTheorems.

Context {SomaModel DendriteModel SynapseModel DendriteParams : Type}.
Variable synapse_update : SynapseModel -> option Z -> Q * SynapseModel.

Local Abbreviation State := (@PState SomaModel DendriteModel SynapseModel DendriteParams).
Local Abbreviation NeuronT := (@Neuron SomaModel DendriteModel DendriteParams).
Local Abbreviation ConnectionT := (@Connection SynapseModel DendriteParams).

Lemma synapse_catch_up_fields rounds : forall con : ConnectionT,
  let con1 := synapse_catch_up synapse_update rounds con in
  last_updated con1 = last_updated con + Z.of_nat rounds /\
  post_neuron con1 = post_neuron con /\
  synapse_hw con1 = synapse_hw con /\
  con_dendrite_params con1 = con_dendrite_params con.
Proof.
  induction rounds as [| k IH]; intros con; [simpl; split; [lia | done] |].
  cbn [synapse_catch_up]. destruct (synapse_update (synapse_model con) None) as [c d].
  destruct (IH (mkConnection (post_neuron con) (synapse_hw con) d
                  (con_dendrite_params con) (last_updated con + 1))) as (-> & -> & -> & ->).
  cbn. split; [lia | done].
Qed.

(** The run of [pipeline_process_synapse] on a connection whose
    post-synaptic neuron and synapse unit are in the core. *)
Lemma pipeline_process_synapse_run ts address (s : State) con post h hw :
  at_index (connections_in (ps_core s)) address = Some con ->
  neurons (ps_core s) !! post_neuron con = Some post ->
  synapse_hw con = Some h ->
  synapse_units (ps_core s) !! h = Some hw ->
  pipeline_process_synapse synapse_update ts address s =
  Ok (latency_spike_op hw,
      mkPState
        (set_synapse_units
           (<[h := mkSynapseUnit (spikes_processed hw + 1) (latency_spike_op hw)]>
              (synapse_units (ps_core s)))
           (set_neurons
              (<[post_neuron con :=
                   set_spike_count (spike_count post + 1)
                     (set_dendrite_input_synapses
                        (dendrite_input_synapses post ++
                         [(synapse_lookup synapse_update ts address con).2]) post)]>
                 (neurons (ps_core s)))
              (set_connections_in
                 (<[Z.to_nat address := (synapse_lookup synapse_update ts address con).1]>
                    (connections_in (ps_core s)))
                 (ps_core s))))
        (ps_messages s)
        (ps_log s ++ [UnitCall SynapseU address (latency_spike_op hw)])).
Proof.
  intros Hcon Hpost Hh Hhw.
  unfold pipeline_process_synapse, bind, get_neuron, put_neuron, get_core, access,
    assert_not_null, modify_core, record, ret.
  rewrite Hcon. cbn. rewrite Hpost. cbn. rewrite Hh. cbn. rewrite Hhw. reflexivity.
Qed.

(** X18.  [pipeline_process_synapse] returns exactly when the
    connection, its post-synaptic neuron and its synapse unit are in
    the core, and stops at the assertion on the synapse unit exactly
    when the connection and the neuron are there and the connection
    has no unit.  When it returns, the connection is up to the
    timestep, one synaptic input with the dendrite parameters of the
    connection is buffered at the post-synaptic neuron, the spike is
    counted at that neuron and at the synapse unit, the latency of
    the unit is returned, and no other neuron and no message is
    touched. *)
Theorem pipeline_process_synapse_buffers ts address (s : State) :
  match at_index (connections_in (ps_core s)) address with
  | None => pipeline_process_synapse synapse_update ts address s = Abort invalid_access
  | Some con =>
      match neurons (ps_core s) !! post_neuron con with
      | None => pipeline_process_synapse synapse_update ts address s = Abort invalid_access
      | Some post =>
          match synapse_hw con with
          | None =>
              pipeline_process_synapse synapse_update ts address s = Abort assert_synapse_hw
          | Some h =>
              match synapse_units (ps_core s) !! h with
              | None =>
                  pipeline_process_synapse synapse_update ts address s
                    = Abort invalid_access
              | Some hw =>
                  exists s' con' (post' : NeuronT) input,
                    pipeline_process_synapse synapse_update ts address s
                      = Ok (latency_spike_op hw, s') /\
                    at_index (connections_in (ps_core s')) address = Some con' /\
                    last_updated con' = Z.max (last_updated con) ts /\
                    post_neuron con' = post_neuron con /\
                    synapse_hw con' = synapse_hw con /\
                    (forall a, a <> address ->
                       at_index (connections_in (ps_core s')) a =
                       at_index (connections_in (ps_core s)) a) /\
                    neurons (ps_core s') !! post_neuron con = Some post' /\
                    dendrite_input_synapses post' =
                      dendrite_input_synapses post ++ [input] /\
                    dendrite_params input = con_dendrite_params con /\
                    spike_count post' = spike_count post + 1 /\
                    (forall j, j <> post_neuron con ->
                       neurons (ps_core s') !! j = neurons (ps_core s) !! j) /\
                    synapse_units (ps_core s') =
                      <[h := mkSynapseUnit (spikes_processed hw + 1) (latency_spike_op hw)]>
                        (synapse_units (ps_core s)) /\
                    ps_messages s' = ps_messages s /\
                    ps_log s' =
                      ps_log s ++ [UnitCall SynapseU address (latency_spike_op hw)]
              end
          end
      end
  end.
Proof.
  destruct (at_index (connections_in (ps_core s)) address) as [con |] eqn:Hcon.
  2: { unfold pipeline_process_synapse, bind, get_core, access, assert_not_null.
       by rewrite Hcon. }
  destruct (neurons (ps_core s) !! post_neuron con) as [post |] eqn:Hpost.
  2: { unfold pipeline_process_synapse, bind, get_neuron, get_core, access,
         assert_not_null, modify_core.
       rewrite Hcon. cbn. by rewrite Hpost. }
  destruct (synapse_hw con) as [h |] eqn:Hh.
  2: { unfold pipeline_process_synapse, bind, get_neuron, put_neuron, get_core, access,
         assert_not_null, modify_core.
       rewrite Hcon. cbn. rewrite Hpost. cbn. by rewrite Hh. }
  destruct (synapse_units (ps_core s) !! h) as [hw |] eqn:Hhw.
  2: { unfold pipeline_process_synapse, bind, get_neuron, put_neuron, get_core, access,
         assert_not_null, modify_core.
       rewrite Hcon. cbn. rewrite Hpost. cbn. rewrite Hh. cbn. by rewrite Hhw. }
  rewrite (pipeline_process_synapse_run ts address s con post h hw Hcon Hpost Hh Hhw).
  destruct (synapse_catch_up_fields (Z.to_nat (ts - last_updated con)) con)
    as (L1 & L2 & L3 & L4).
  unfold at_index in *. destruct (address <? 0) eqn:Ea; [done |]. apply Z.ltb_ge in Ea.
  eexists _, _, _, _. split; [reflexivity |]. cbn.
  split; [apply list_lookup_insert_eq; by eapply lookup_lt_Some |].
  split; [unfold synapse_lookup; cbn; lia |].
  split; [unfold synapse_lookup; cbn; done |].
  split; [unfold synapse_lookup; cbn; congruence |].
  split.
  { intros a Ha. destruct (a <? 0) eqn:E; [done |]. apply Z.ltb_ge in E.
    rewrite list_lookup_insert_ne; [done | lia]. }
  split; [apply list_lookup_insert_eq; by eapply lookup_lt_Some |].
  split; [reflexivity |].
  split; [unfold synapse_lookup; cbn; done |].
  split; [reflexivity |].
  split; [intros j Hj; by rewrite list_lookup_insert_ne |].
  done.
Qed.

End SynapseTheorems.

(** ** The pipeline: receiving a message returns *)

Section ReceiveTotality.

Context {SomaModel DendriteModel SynapseModel DendriteParams : Type}.
Variable soma_update : SomaModel -> option Q -> NeuronStatus * SomaModel.
Variable dendrite_update :
  DendriteModel -> option (@Synapse DendriteParams) -> Q * DendriteModel.
Variable synapse_update : SynapseModel -> option Z -> Q * SynapseModel.

Local Abbreviation State := (@PState SomaModel DendriteModel SynapseModel DendriteParams).
Local Abbreviation NeuronT := (@Neuron SomaModel DendriteModel DendriteParams).
Local Abbreviation CoreT := (@Core SomaModel DendriteModel SynapseModel DendriteParams).
Local Abbreviation Comp := (@PM SomaModel DendriteModel SynapseModel DendriteParams).














End ReceiveTotality.

Section ReceiveTheorems.

Context {SomaModel DendriteModel SynapseModel DendriteParams : Type}.
Variable soma_update : SomaModel -> option Q -> NeuronStatus * SomaModel.
Variable dendrite_update :
  DendriteModel -> option (@Synapse DendriteParams) -> Q * DendriteModel.
Variable synapse_update : SynapseModel -> option Z -> Q * SynapseModel.

Local Abbreviation State := (@PState SomaModel DendriteModel SynapseModel DendriteParams).
Local Abbreviation NeuronT := (@Neuron SomaModel DendriteModel DendriteParams).
Local Abbreviation CoreT := (@Core SomaModel DendriteModel SynapseModel DendriteParams).
Local Abbreviation Comp := (@PM SomaModel DendriteModel SynapseModel DendriteParams).



End ReceiveTheorems.




(** The message is received: the run returns the latency 3 after the
    axon-in, synapse, dendrite and soma units, in this order. *)
Lemma pipeline_process_message_received :
  exists s',
    pipeline_process_message idle_soma silent_dendrite unit_synapse 1
      incoming_message receiving_state = Ok (3%Q, s') /\
    unit_calls (ps_log s') = [AxonInU; SynapseU; DendriteU; SomaU].
Proof. eexists. vm_compute. split; reflexivity. Qed.

(** ** Examples *)

Lemma schedule_messages_order_witness :
  exists t out,
    schedule_messages row_major_idx congested_run (two_tiles 0) = Some (t, out) /\
    (forall r, static <$> deref out r = static <$> deref congested_run r) /\
    forall m, m ∈ concat out -> placeholder m = false ->
      (sent_timestamp m <= received_timestamp m)%Q /\
      (received_timestamp m <= processed_timestamp m)%Q /\
      (sent_timestamp m + network_delay m <= received_timestamp m)%Q /\
      (processed_timestamp m == received_timestamp m + receive_delay m)%Q.
Proof.
  apply (schedule_messages_order row_major_idx congested_run (two_tiles 0)), congested_run_wf.
Defined.

Lemma schedule_messages_send_order_witness :
  exists t out,
    schedule_messages row_major_idx congested_run (two_tiles 0) = Some (t, out) /\
    (forall r, static <$> deref out r = static <$> deref congested_run r) /\
    (forall c m, deref out (c, 0%nat) = Some m ->
       (generation_delay m <= sent_timestamp m)%Q) /\
    (forall c p m m2,
       deref out (c, p) = Some m -> deref out (c, S p) = Some m2 ->
       (sent_timestamp m + generation_delay m2 <= sent_timestamp m2)%Q).
Proof.
  apply (schedule_messages_send_order row_major_idx congested_run (two_tiles 0)),
    congested_run_wf.
Defined.

Lemma schedule_messages_receive_times_witness :
  exists t out,
    schedule_messages row_major_idx congested_run (two_tiles 0) = Some (t, out) /\
    (forall r, static <$> deref out r = static <$> deref congested_run r) /\
    forall m, m ∈ concat out -> placeholder m = false ->
      (sent_timestamp m + network_delay m <= received_timestamp m)%Q /\
      (processed_timestamp m == received_timestamp m + receive_delay m)%Q.
Proof.
  apply (schedule_messages_receive_times row_major_idx congested_run (two_tiles 0)),
    congested_run_wf.
Defined.

Lemma schedule_messages_one_at_a_time_witness :
  exists t out,
    schedule_messages row_major_idx congested_run (two_tiles 0) = Some (t, out) /\
    (forall r, static <$> deref out r = static <$> deref congested_run r) /\
    forall r1 r2 m1 m2,
      r1 <> r2 -> deref out r1 = Some m1 -> deref out r2 = Some m2 ->
      placeholder m1 = false -> placeholder m2 = false ->
      dest_core_id m1 = dest_core_id m2 ->
      (processed_timestamp m1 == received_timestamp m1 + receive_delay m1)%Q /\
      (processed_timestamp m2 == received_timestamp m2 + receive_delay m2)%Q /\
      ((processed_timestamp m1 <= received_timestamp m2)%Q \/
       (processed_timestamp m2 <= received_timestamp m1)%Q).
Proof.
  apply (schedule_messages_one_at_a_time row_major_idx congested_run (two_tiles 0)),
    congested_run_wf.
Defined.

Lemma schedule_messages_keeps_fields_witness :
  exists t out,
    schedule_messages row_major_idx mixed_run (two_tiles 1) = Some (t, out) /\
    forall r, static <$> deref out r = static <$> deref mixed_run r.
Proof.
  apply (schedule_messages_keeps_fields row_major_idx mixed_run (two_tiles 1)),
    mixed_run_wf.
Defined.

Lemma message_counts_round_trip_witness :
  let noc := st_noc congested_state in
  let m := one_hop 1%Q 5%Q 10%Q in
  let noc1 := schedule_update_noc_message_counts row_major_idx m noc true in
  let noc2 := schedule_update_noc_message_counts row_major_idx m noc1 false in
  let links := route_links row_major_idx m noc in
  message_density noc1 = add_along (density_adjust m true) links (message_density noc) /\
  message_density noc2 = add_along (density_adjust m false) links (message_density noc1) /\
  (density_adjust m false == - density_adjust m true)%Q /\
  (forall j : nat, j ∉ links ->
     vec_get (message_density noc2) j = vec_get (message_density noc) j) /\
  messages_in_noc noc1 = messages_in_noc noc + 1 /\
  messages_in_noc noc2 = messages_in_noc noc /\
  (messages_in_noc noc = 0 -> mean_in_flight_receive_delay noc2 = 0%Q) /\
  messages_received noc2 = messages_received noc /\
  core_finished_receiving noc2 = core_finished_receiving noc.
Proof.
  apply (message_counts_round_trip row_major_idx (one_hop 1%Q 5%Q 10%Q)
           (st_noc congested_state)).
Defined.

(** On the NoC of [congested_state], which holds one message: a second
    message on the same route raises the count to 2 and the density of
    the two links of the route from 1/3 to 2/3, and taking it out
    brings the count back to 1 and the density back to 1/3. *)
Lemma message_counts_congested_state :
  let noc := st_noc congested_state in
  let m := one_hop 1%Q 5%Q 10%Q in
  let noc1 := schedule_update_noc_message_counts row_major_idx m noc true in
  let noc2 := schedule_update_noc_message_counts row_major_idx m noc1 false in
  route_links row_major_idx m noc = [4%nat; 6%nat] /\
  messages_in_noc noc = 1 /\ messages_in_noc noc1 = 2 /\ messages_in_noc noc2 = 1 /\
  (vec_get (message_density noc) 4 == 1 # 3)%Q /\
  (vec_get (message_density noc1) 4 == 2 # 3)%Q /\
  (vec_get (message_density noc1) 6 == 2 # 3)%Q /\
  (vec_get (message_density noc2) 4 == 1 # 3)%Q /\
  (vec_get (message_density noc2) 6 == 1 # 3)%Q.
Proof. vm_compute. repeat split; reflexivity. Qed.

Lemma message_counts_density_total_witness :
  let noc := noc_init (two_tiles 1) in
  let m := one_hop 1%Q 0%Q 0%Q in
  (Qsum (message_density (schedule_update_noc_message_counts row_major_idx m noc true)) ==
   Qsum (message_density noc) +
   inject_Z (Z.abs (dest_x m - src_x m) + Z.abs (dest_y m - src_y m) + 1) *
   density_adjust m true)%Q.
Proof.
  apply (message_counts_density_total row_major_idx (one_hop 1%Q 0%Q 0%Q)
           (noc_init (two_tiles 1)) true).
  apply (bool_decide_unpack _). vm_compute. exact I.
Defined.

Lemma route_density_disjoint_witness :
  let noc := noc_init (two_tiles 1) in
  schedule_calculate_messages_along_route row_major_idx (one_hop_back 1%Q 0%Q 0%Q)
    (schedule_update_noc_message_counts row_major_idx (one_hop 1%Q 0%Q 0%Q) noc true) =
  schedule_calculate_messages_along_route row_major_idx (one_hop_back 1%Q 0%Q 0%Q) noc.
Proof.
  apply (route_density_disjoint row_major_idx (one_hop 1%Q 0%Q 0%Q)
           (one_hop_back 1%Q 0%Q 0%Q) (noc_init (two_tiles 1)) true).
  apply Forall_forall. apply (bool_decide_unpack _). vm_compute. exact I.
Defined.

Lemma route_density_same_route_witness :
  let noc := noc_init (two_tiles 1) in
  let m := one_hop 1%Q 0%Q 0%Q in
  (schedule_calculate_messages_along_route row_major_idx m
     (schedule_update_noc_message_counts row_major_idx m noc true) ==
   schedule_calculate_messages_along_route row_major_idx m noc +
   inject_Z (Z.abs (dest_x m - src_x m) + Z.abs (dest_y m - src_y m) + 1) /
   (2 + inject_Z (hops m)))%Q.
Proof.
  apply (route_density_same_route row_major_idx (one_hop 1%Q 0%Q 0%Q)
           (noc_init (two_tiles 1))).
  - apply (bool_decide_unpack _). vm_compute. exact I.
  - apply (bool_decide_unpack _). vm_compute. exact I.
Defined.

Lemma pipeline_process_neurons_appends_witness :
  length example_phase.1.2 = length [[] : list Message] /\
  (forall k q, [[] : list Message] !! k = Some q ->
     exists new, example_phase.1.2 !! k = Some (q ++ new)) /\
  (forall k, (forall c, c ∈ [ps_core forced_before] -> core_id c <> k) ->
     example_phase.1.2 !! k = [[] : list Message] !! k) /\
  (exists evs, example_phase.2 = [] ++ evs) /\
  Forall2 processed_core [ps_core forced_before] example_phase.1.1.
Proof.
  apply (pipeline_process_neurons_appends idle_soma silent_dendrite example_placeholder
           example_spike 1 [ps_core forced_before] [[]] []).
  vm_compute. reflexivity.
Defined.

Lemma pipeline_process_dendrite_settles_witness :
  0%Q = 0%Q /\
  exists n n' : ExampleNeuron,
    neurons (ps_core quiet_before) !! 0%nat = Some n /\
    neurons (ps_core dendrite_after) !! 0%nat = Some n' /\
    dendrite_input_synapses n' = [] /\
    dendrite_last_updated n' = Z.max (dendrite_last_updated n) 1 /\
    (forall j, j <> 0%nat ->
       neurons (ps_core dendrite_after) !! j = neurons (ps_core quiet_before) !! j) /\
    ps_messages dendrite_after = ps_messages quiet_before /\
    pipeline_process_dendrite silent_dendrite 1 0 dendrite_after =
      Ok (0%Q, mkPState (ps_core dendrite_after) (ps_messages dendrite_after)
                 (ps_log dendrite_after ++ [UnitCall DendriteU (Z.of_nat 0) 0%Q])).
Proof.
  apply (pipeline_process_dendrite_settles silent_dendrite 1 0%nat quiet_before
           dendrite_after 0%Q).
  vm_compute. reflexivity.
Defined.

Lemma pipeline_process_soma_catches_up_witness :
  exists (n n' : ExampleNeuron) evs,
    neurons (ps_core forced_before) !! 0%nat = Some n /\
    neurons (ps_core soma_after) !! 0%nat = Some n' /\
    soma_last_updated n' = Z.max (soma_last_updated n) 1 /\
    ps_log soma_after = ps_log forced_before ++ evs ++ [UnitCall SomaU (Z.of_nat 0) 3%Q] /\
    Forall is_model_event evs /\
    length evs = Z.to_nat (1 - soma_last_updated n) /\
    (forall j, j <> 0%nat ->
       neurons (ps_core soma_after) !! j = neurons (ps_core forced_before) !! j) /\
    ps_messages soma_after = ps_messages forced_before /\
    (1 <= soma_last_updated n -> 3%Q = 0%Q /\ ps_core soma_after = ps_core forced_before).
Proof.
  apply (pipeline_process_soma_catches_up idle_soma 1 0%nat forced_before soma_after 3%Q).
  vm_compute. reflexivity.
Defined.

Lemma pipeline_process_axon_out_sends_witness :
  exists (n n' : ExampleNeuron) new,
    neurons (ps_core spiking_before) !! 0%nat = Some n /\
    neurons (ps_core axon_out_after) !! 0%nat = Some n' /\
    axon_out_input_spike n' = false /\
    queue_of axon_out_after = queue_of spiking_before ++ new /\
    length new =
      (if axon_out_input_spike n then length (axon_out_addresses n) else 0%nat) /\
    total_packets_out (ps_core axon_out_after) =
      total_packets_out (ps_core spiking_before) + Z.of_nat (length new) /\
    (axon_out_input_spike n = false ->
     1%Q = 0%Q /\ ps_core axon_out_after = ps_core spiking_before).
Proof.
  apply (pipeline_process_axon_out_sends example_spike 1 0%nat spiking_before
           axon_out_after 1%Q).
  vm_compute. reflexivity.
Defined.

Lemma pipeline_process_message_delivers_witness :
  exists addresses unit,
    at_index (axons_in (ps_core receiving_state)) (dest_axon_id incoming_message)
      = Some addresses /\
    at_index (axon_in_units (ps_core receiving_state)) (dest_axon_hw incoming_message)
      = Some unit /\
    axon_in_units (ps_core message_after) =
      <[Z.to_nat (dest_axon_hw incoming_message) :=
          mkAxonInUnit (spike_messages_in unit + 1) (latency_spike_message unit)]>
        (axon_in_units (ps_core receiving_state)) /\
    total_spike_count (ps_core message_after) =
      total_spike_count (ps_core receiving_state) + Z.of_nat (length addresses) /\
    total_spikes_processed (ps_core message_after) =
      total_spikes_processed (ps_core receiving_state) + Z.of_nat (length addresses).
Proof.
  apply (pipeline_process_message_delivers idle_soma silent_dendrite unit_synapse 1
           incoming_message receiving_state message_after 3%Q).
  vm_compute. reflexivity.
Defined.

Lemma pipeline_process_message_latency_witness :
  exists evs,
    ps_log message_after = ps_log receiving_state ++ evs /\
    (3 == reported_latency evs)%Q /\
    queue_of message_after = queue_of receiving_state.
Proof.
  apply (pipeline_process_message_latency idle_soma silent_dendrite unit_synapse 1
           incoming_message receiving_state message_after 3%Q).
  vm_compute. reflexivity.
Defined.

Lemma buffer_splits_pipeline_witness :
  exists received sent,
    ps_log received_after = ps_log quiet_before ++ received /\
    ps_log neuron_after = ps_log quiet_before ++ sent /\
    unit_calls received ++ unit_calls sent = pipeline_units.
Proof.
  apply (buffer_splits_pipeline idle_soma silent_dendrite unit_synapse example_spike
           1 0%Q 0 0%nat quiet_before received_after quiet_before neuron_after 1%Q).
  - left. reflexivity.
  - reflexivity.
  - vm_compute. reflexivity.
  - vm_compute. reflexivity.
Defined.

Lemma schedule_update_noc_settles_witness :
  let t := 10%Q in
  let ms := st_messages congested_next in
  let noc := st_noc congested_next in
  let gone := filter (fun r => delivered_by t ms r = true) (concat (messages_received noc)) in
  let ms1 := (schedule_update_noc row_major_idx t ms noc).1 in
  let noc1 := (schedule_update_noc row_major_idx t ms noc).2 in
  messages_received noc1 =
    filter (fun r => delivered_by t ms r = false) <$> messages_received noc /\
  (forall r, deref ms1 r =
             if decide (r ∈ gone) then set_in_noc false <$> deref ms r else deref ms r) /\
  noc1 = set_messages_received (messages_received noc1)
           (foldl (take_back row_major_idx ms) noc gone) /\
  messages_in_noc noc1 = messages_in_noc noc - Z.of_nat (length gone) /\
  Forall (fun r => delivered_by t ms1 r = false) (concat (messages_received noc1)) /\
  schedule_update_noc row_major_idx t ms1 noc1 = (ms1, noc1).
Proof.
  apply (schedule_update_noc_settles row_major_idx 10%Q (st_messages congested_next)
           (st_noc congested_next)).
  apply (bool_decide_unpack _). vm_compute. exact I.
Defined.

(** On [congested_next], where both messages of core 0 are in the NoC,
    received at 6 and at 16: the update at time 10 takes the first out
    and keeps the second. *)
Lemma schedule_update_noc_congested_next :
  let ms := st_messages congested_next in
  let noc := st_noc congested_next in
  let ms1 := (schedule_update_noc row_major_idx 10%Q ms noc).1 in
  let noc1 := (schedule_update_noc row_major_idx 10%Q ms noc).2 in
  messages_received noc = [[]; [(0, 0); (0, 1)]%nat] /\
  messages_received noc1 = [[]; [(0, 1)]%nat] /\
  in_noc <$> concat ms = [true; true] /\
  in_noc <$> concat ms1 = [false; true] /\
  messages_in_noc noc = 2 /\ messages_in_noc noc1 = 1 /\
  (vec_get (message_density noc) 4 == 2 # 3)%Q /\
  (vec_get (message_density noc1) 4 == 1 # 3)%Q.
Proof. vm_compute. repeat split; reflexivity. Qed.

Lemma pipeline_process_synapse_buffers_witness :
  let con := mkConnection 0%nat (Some 0%nat) tt tt 0 in
  let post := example_neuron 0 [0] in
  let hw := mkSynapseUnit 0 1 in
  exists (s' : ExampleState) con' (post' : ExampleNeuron) input,
    pipeline_process_synapse unit_synapse 1 0 quiet_before
      = Ok (latency_spike_op hw, s') /\
    at_index (connections_in (ps_core s')) 0 = Some con' /\
    last_updated con' = Z.max (last_updated con) 1 /\
    post_neuron con' = post_neuron con /\
    synapse_hw con' = synapse_hw con /\
    (forall a, a <> 0 ->
       at_index (connections_in (ps_core s')) a =
       at_index (connections_in (ps_core quiet_before)) a) /\
    neurons (ps_core s') !! post_neuron con = Some post' /\
    dendrite_input_synapses post' = dendrite_input_synapses post ++ [input] /\
    dendrite_params input = con_dendrite_params con /\
    spike_count post' = spike_count post + 1 /\
    (forall j, j <> post_neuron con ->
       neurons (ps_core s') !! j = neurons (ps_core quiet_before) !! j) /\
    synapse_units (ps_core s') =
      <[0%nat := mkSynapseUnit (spikes_processed hw + 1) (latency_spike_op hw)]>
        (synapse_units (ps_core quiet_before)) /\
    ps_messages s' = ps_messages quiet_before /\
    ps_log s' = ps_log quiet_before ++ [UnitCall SynapseU 0 (latency_spike_op hw)].
Proof.
  exact (pipeline_process_synapse_buffers unit_synapse 1 0 quiet_before).
Defined.
